(** * QuickQuote: the offline processing pipeline

  A shallow embedding of the queue processor ([queueService]), the sync
  orchestrator ([syncService]), the queue operations of the database layer
  and the extraction client ([geminiService]), with the properties of the
  specification stated over it.

  - JavaScript numbers are IEEE-754 binary64 values: [float].
  - SQLite tables: [drafts] is a finite map keyed by its primary key,
    [queue] the list of its rows.
  - [async] functions are written in a state-and-exception monad; where
    the interleaving of tasks matters ([syncNow]) the function is cut at
    its [await]s into the steps of a coroutine. *)

From Stdlib Require Import ZArith Floats.
From stdpp Require Import gmap strings list sorting pretty.

#[local] Set Warnings "-inexact-float".
Local Open Scope Z_scope.
Local Open Scope string_scope.
Local Open Scope list_scope.

(** ** JavaScript values *)

Module Js.

(** The error classes of the services ([GeminiError], [STTError]) carry a
    machine-readable type and a retryable flag. *)
Inductive GeminiErrorType :=
| API_ERROR | PARSE_ERROR | VALIDATION_ERROR | NETWORK_ERROR | TIMEOUT
| EMPTY_RESPONSE.

Inductive STTErrorType :=
| NO_AUDIO | INVALID_AUDIO | STT_API_ERROR | STT_NETWORK_ERROR | STT_TIMEOUT
| NO_SPEECH_DETECTED.

(** What a [throw] can raise. All but [NonError] are instances of [Error]. *)
Inductive thrown :=
| PlainError (message : string)
| TypeError (message : string)
| GeminiError (type : GeminiErrorType) (message : string) (retryable : bool)
| STTError (type : STTErrorType) (message : string) (retryable : bool)
| NonError.

(** [error instanceof Error ? error.message : 'Unknown error'] *)
Definition errorMessage (e : thrown) : string :=
  match e with
  | PlainError m | TypeError m | GeminiError _ m _ | STTError _ m _ => m
  | NonError => "Unknown error"
  end.

Inductive result (A : Type) :=
| Ok (a : A)
| Throw (e : thrown).
Arguments Ok {A} a.
Arguments Throw {A} e.

(** Truthiness of a nullable string: [null], [undefined] and [''] are
    falsy. *)
Definition truthy_string (s : option string) : bool :=
  match s with
  | Some s => negb (String.eqb s "")
  | None => false
  end.

(** A JSON number field as [JSON.parse] delivers it: missing, [null] or a
    number. *)
Inductive jsnum :=
| JUndefined
| JNull
| JNum (x : float).

(** Truthiness of a number: [0], [-0] and [NaN] are falsy. *)
Definition truthy_float (x : float) : bool :=
  negb (PrimFloat.eqb x 0) && negb (PrimFloat.is_nan x).

(** [ToNumber] *)
Definition toNumber (v : jsnum) : float :=
  match v with
  | JUndefined => nan
  | JNull => 0%float
  | JNum x => x
  end.

(** [v || d] for a numeric default [d] *)
Definition or_else (v : jsnum) (d : float) : float :=
  match v with
  | JNum x => if truthy_float x then x else d
  | _ => d
  end.

(** [Math.max(0, x)]: [NaN] if [x] is, otherwise the larger of the two,
    [+0] counting as larger than [-0]. *)
Definition max0 (x : float) : float :=
  if PrimFloat.leb 0 x then (if PrimFloat.eqb x 0 then 0%float else x)
  else if PrimFloat.ltb x 0 then 0%float
  else nan.

(** [Math.min(1, x)] *)
Definition min1 (x : float) : float :=
  if PrimFloat.leb x 1 then x
  else if PrimFloat.ltb 1 x then 1%float
  else nan.

Definition two52 : float := 4503599627370496%float.

(** The largest integral value not above [a], for [0 <= a < 2^52]:
    adding and subtracting [2^52] rounds to the nearest integer. *)
Definition floor_small (a : float) : float :=
  let t := PrimFloat.sub (PrimFloat.add a two52) two52 in
  if PrimFloat.ltb a t then PrimFloat.sub t 1 else t.

(** [Math.round]: the closest integral value, ties towards [+Infinity];
    integral values, infinities and [NaN] are returned as they are. *)
Definition Math_round (x : float) : float :=
  let a := PrimFloat.abs x in
  if PrimFloat.ltb a two52 then
    let fl := floor_small a in
    let frac := PrimFloat.sub a fl in
    if PrimFloat.eqb fl a then x
    else if PrimFloat.ltb x 0 then
      PrimFloat.opp (if PrimFloat.ltb 0.5 frac then PrimFloat.add fl 1 else fl)
    else
      if PrimFloat.leb 0.5 frac then PrimFloat.add fl 1 else fl
  else x.

(** [Math.round(x * 100) / 100] *)
Definition round2 (x : float) : float :=
  PrimFloat.div (Math_round (PrimFloat.mul x 100)) 100.

(** [s.includes(t)] *)
Fixpoint includes (s t : string) : bool :=
  String.prefix t s ||
  match s with
  | EmptyString => false
  | String _ s' => includes s' t
  end.

(** ASCII white space, as [trim] removes it. *)
Definition is_space (c : Ascii.ascii) : bool :=
  let n := Ascii.nat_of_ascii c in
  ((9 <=? n)%nat && (n <=? 13)%nat) || (n =? 32)%nat.

(** [s.trim().length === 0] *)
Fixpoint is_blank (s : string) : bool :=
  match s with
  | EmptyString => true
  | String c s' => is_space c && is_blank s'
  end.

(** An [async] function over a state [S]: it reads and writes the state
    and returns or throws. *)
Definition M (S A : Type) : Type := S -> S * result A.

Definition ret {S A} (a : A) : M S A := fun w => (w, Ok a).
Definition throw {S A} (e : thrown) : M S A := fun w => (w, Throw e).
Definition bind {S A B} (c : M S A) (k : A -> M S B) : M S B :=
  fun w =>
    match c w with
    | (w', Ok a) => k a w'
    | (w', Throw e) => (w', Throw e)
    end.
(** [try { c } catch (error) { h error }] *)
Definition try_catch {S A} (c : M S A) (h : thrown -> M S A) : M S A :=
  fun w =>
    match c w with
    | (w', Ok a) => (w', Ok a)
    | (w', Throw e) => h e w'
    end.
(** Running [c] and keeping how it ended. *)
Definition attempt {S A} (c : M S A) : M S (result A) :=
  fun w => let '(w', r) := c w in (w', Ok r).
(** Awaiting a promise that has settled as [r]. *)
Definition settle {S A} (r : result A) : M S A := fun w => (w, r).

Declare Scope M_scope.
Delimit Scope M_scope with M.
Notation "'do' x <- c ; k" := (bind c (fun x => k))
  (at level 10, x name, c at level 100, k at level 200) : M_scope.
Notation "'run' c ; k" := (bind c (fun _ => k))
  (at level 10, c at level 100, k at level 200) : M_scope.

End Js.

Import Js.

(** ** The extraction client: [geminiService] *)

Module Gemini.

(** [InvoiceItem] and [ParsedInvoice] of [types/invoice.ts] *)
Record InvoiceItem := {
  item_id : string;
  description : string;
  quantity : float;
  unitPrice : float;
  amount : float;
  confidence : float;
}.

Inductive InvoiceStatus :=
| draft | inv_processing | inv_completed | shared | inv_error.

Record ParsedInvoice := {
  id : string;
  items : list InvoiceItem;
  subtotal : float;
  taxPercent : float;
  taxAmount : float;
  discountPercent : float;
  discountAmount : float;
  total : float;
  currency : string;
  notes : string;
  originalTranscript : string;
  createdAt : string;
  status : InvoiceStatus;
}.

(** [RawParsedInvoice]: what [JSON.parse] makes of the model's answer.
    Nothing checks the answer against the interface, so every field can be
    missing. *)
Record RawItem := {
  raw_description : option string;
  raw_quantity : jsnum;
  raw_unitPrice : jsnum;
  raw_amount : jsnum;
  raw_confidence : jsnum;
}.

Record RawParsedInvoice := {
  raw_items : option (list RawItem);
  raw_subtotal : jsnum;
  raw_taxPercent : jsnum;
  raw_taxAmount : jsnum;
  raw_discountPercent : jsnum;
  raw_discountAmount : jsnum;
  raw_total : jsnum;
  raw_currency : option string;
  raw_notes : option string;
}.

(** [s || d] on strings *)
Definition or_string (s : option string) (d : string) : string :=
  if truthy_string s then default d s else d.

(** The callback of [raw.items.map]; [now] is [Date.now()]. *)
Definition transformItem (now : Z) (index : nat) (item : RawItem) : InvoiceItem :=
  {| item_id := "item_" +:+ pretty now +:+ "_" +:+ pretty index;
     description := or_string (raw_description item) "Unknown item";
     quantity := max0 (or_else (raw_quantity item) 1);
     unitPrice := max0 (or_else (raw_unitPrice item) 0);
     amount :=
       max0 (or_else (raw_amount item)
               (PrimFloat.mul (toNumber (raw_quantity item))
                              (toNumber (raw_unitPrice item))));
     confidence := min1 (max0 (or_else (raw_confidence item) 0.5)) |}.

(** [items.reduce((sum, item) => sum + item.amount, 0)] *)
Definition sumAmounts (its : list InvoiceItem) : float :=
  fold_left (fun sum item => PrimFloat.add sum (amount item)) its 0%float.

(** [transformToInvoice]; [iso] is [new Date().toISOString()]. *)
Definition transformToInvoice (now : Z) (iso : string)
    (raw : RawParsedInvoice) (originalTranscript : string) : ParsedInvoice :=
  let items := imap (transformItem now) (default [] (raw_items raw)) in
  let subtotal := sumAmounts items in
  let taxPercent := or_else (raw_taxPercent raw) 0 in
  let taxAmount := PrimFloat.mul subtotal (PrimFloat.div taxPercent 100) in
  let discountPercent := or_else (raw_discountPercent raw) 0 in
  let discountAmount := PrimFloat.mul subtotal (PrimFloat.div discountPercent 100) in
  let total := PrimFloat.sub (PrimFloat.add subtotal taxAmount) discountAmount in
  {| id := "inv_" +:+ pretty now;
     items := items;
     subtotal := round2 subtotal;
     taxPercent := taxPercent;
     taxAmount := round2 taxAmount;
     discountPercent := discountPercent;
     discountAmount := round2 discountAmount;
     total := round2 total;
     currency := or_string (raw_currency raw) "INR";
     notes := or_string (raw_notes raw) "";
     originalTranscript := originalTranscript;
     createdAt := iso;
     status := draft |}.

(** The answer with the totals the model computed itself replaced. *)
Definition with_totals (subtotal taxAmount discountAmount total : jsnum)
    (raw : RawParsedInvoice) : RawParsedInvoice :=
  {| raw_items := raw_items raw;
     raw_subtotal := subtotal;
     raw_taxPercent := raw_taxPercent raw;
     raw_taxAmount := taxAmount;
     raw_discountPercent := raw_discountPercent raw;
     raw_discountAmount := discountAmount;
     raw_total := total;
     raw_currency := raw_currency raw;
     raw_notes := raw_notes raw |}.

(** [getAverageConfidence] *)
Definition getAverageConfidence (invoice : ParsedInvoice) : float :=
  if (length (items invoice) =? 0)%nat then 0%float
  else
    let sum :=
      fold_left (fun acc item => PrimFloat.add acc (confidence item))
                (items invoice) 0%float in
    PrimFloat.div sum (PrimFloat.of_uint63 (Uint63.of_Z (Z.of_nat (length (items invoice))))).

(** *** Requests to the model *)

Record InvoiceExtractionOptions := {
  opt_currency : option string;
  opt_taxRate : option float;
}.

(** What distinguishes the requests: the prompt and the output budget of
    [generationConfig]. *)
Record Request := {
  prompt : string;
  maxOutputTokens : Z;
}.

(** The body of a response: [data.candidates?.[0]?.content?.parts?.[0]?.text]
    and the message of [data.error] when there is one. *)
Record GeminiResponse := {
  text : option string;
  error : option string;
}.

(** How [await fetch(...)] ends: it rejects, or it gives a response whose
    [json()] in turn resolves or rejects. *)
Inductive FetchOutcome :=
| FetchRejects (e : thrown)
| Response (ok : bool) (status : Z) (json : result GeminiResponse).

(** A value [JSON.parse] returned: one [transformToInvoice] can read, or
    one on which it throws a [TypeError] ([null], [items] not an array, a
    [null] item). *)
Inductive JsonValue :=
| IllShaped
| Shaped (raw : RawParsedInvoice).

(** The platform the service runs on. [fetch] is a function of the number
    of requests sent before and of the request; [JSON_parse] returns [None]
    where [JSON.parse] throws a [SyntaxError]. The prompt builders are those
    of [utils/promptTemplates.ts]; [extractJSON] strips a Markdown fence and
    keeps the outermost braces. *)
Record Platform := {
  fetch : nat -> Request -> FetchOutcome;
  extractJSON : string -> string;
  JSON_parse : string -> option JsonValue;
  buildInvoiceExtractionPrompt : string -> option InvoiceExtractionOptions -> string;
  buildFallbackPrompt : string -> option InvoiceExtractionOptions -> string;
  Date_now : Z;
  toISOString : string;
}.

(** [CONFIG.MAX_RETRIES] of [config/env.ts] *)
Definition MAX_RETRIES : Z := 3.

(** The state of the client: the requests sent so far, earliest first. *)
Abbreviation G := (Js.M (list Request)).
Local Open Scope M_scope.

Definition call_fetch (pf : Platform) (rq : Request)
    : G (bool * Z * result GeminiResponse) :=
  fun sent =>
    ((sent ++ [rq])%list,
     match fetch pf (length sent) rq with
     | FetchRejects e => Throw e
     | Response ok status json => Ok (ok, status, json)
     end).

Definition mainRequest (pf : Platform) (transcript : string)
    (options : option InvoiceExtractionOptions) : Request :=
  {| prompt := buildInvoiceExtractionPrompt pf transcript options;
     maxOutputTokens := 1024 |}.

Definition fallbackRequest (pf : Platform) (transcript : string)
    (options : option InvoiceExtractionOptions) : Request :=
  {| prompt := buildFallbackPrompt pf transcript options;
     maxOutputTokens := 512 |}.

(** The [try] block of one turn of the retry loop. *)
Definition parseAttempt (pf : Platform) (attempt : Z) (transcript : string)
    (options : option InvoiceExtractionOptions) : G ParsedInvoice :=
  do response <- call_fetch pf (mainRequest pf transcript options);
  let '(ok, status, json) := response in
  do data <- settle json;
  if negb ok || bool_decide (is_Some (error data)) then
    let errorMessage := or_string (error data) ("HTTP " +:+ pretty status) in
    if (status =? 401)%Z || (status =? 403)%Z then
      throw (GeminiError API_ERROR "Invalid API key" false)
    else if (status =? 429)%Z then
      throw (GeminiError API_ERROR "Rate limit exceeded" true)
    else if (500 <=? status)%Z then
      throw (GeminiError API_ERROR errorMessage true)
    else
      throw (GeminiError API_ERROR errorMessage (attempt <? MAX_RETRIES - 1)%Z)
  else if negb (truthy_string (text data)) then
    throw (GeminiError EMPTY_RESPONSE "No response from Gemini" true)
  else
    let jsonString := extractJSON pf (default "" (text data)) in
    match JSON_parse pf jsonString with
    | None =>
      throw (GeminiError PARSE_ERROR "Failed to parse Gemini response as JSON" true)
    | Some IllShaped =>
      throw (TypeError "Cannot read properties of null")
    | Some (Shaped rawInvoice) =>
      ret (transformToInvoice (Date_now pf) (toISOString pf) rawInvoice transcript)
    end.

(** [error instanceof GeminiError && !error.retryable] *)
Definition is_final (e : thrown) : bool :=
  match e with
  | GeminiError _ _ retryable => negb retryable
  | _ => false
  end.

(** [error instanceof TypeError && error.message.includes('fetch')] *)
Definition is_fetch_failure (e : thrown) : bool :=
  match e with
  | TypeError m => includes m "fetch"
  | _ => false
  end.

(** What the [catch] block of the loop keeps in [lastError]. *)
Definition kept_error (error : thrown) : thrown :=
  if is_fetch_failure error
  then GeminiError NETWORK_ERROR "Network request failed" true
  else error.

(** The retry loop, [remaining] turns before [attempt] reaches
    [MAX_RETRIES]. It returns the invoice ([inl]), throws, or runs out of
    turns with [lastError] ([inr]). The back-off [sleep] between turns has
    no effect on the state. *)
Fixpoint retryLoop (pf : Platform) (remaining : nat) (attempt : Z)
    (transcript : string) (options : option InvoiceExtractionOptions)
    (lastError : option thrown) : G (ParsedInvoice + option thrown) :=
  match remaining with
  | O => ret (inr lastError)
  | S remaining =>
    do r <- Js.attempt (parseAttempt pf attempt transcript options);
    match r with
    | Ok parsedInvoice => ret (inl parsedInvoice)
    | Throw error =>
      if is_final error then throw error
      else
        retryLoop pf remaining (attempt + 1)%Z transcript options
          (Some (kept_error error))
    end
  end.

(** The invoice [fallbackParse] returns as a last resort. *)
Definition emptyInvoice (pf : Platform) (transcript : string)
    (options : option InvoiceExtractionOptions) : ParsedInvoice :=
  {| id := "inv_" +:+ pretty (Date_now pf);
     items := [];
     subtotal := 0;
     taxPercent := default 0%float (options ≫= opt_taxRate);
     taxAmount := 0;
     discountPercent := 0;
     discountAmount := 0;
     total := 0;
     currency := or_string (options ≫= opt_currency) "INR";
     notes := "Failed to parse transcript. Please add items manually.";
     originalTranscript := transcript;
     createdAt := toISOString pf;
     status := draft |}.

Definition fallbackParse (pf : Platform) (transcript : string)
    (options : option InvoiceExtractionOptions) : G ParsedInvoice :=
  do response <- call_fetch pf (fallbackRequest pf transcript options);
  let '(ok, status, json) := response in
  if negb ok then
    throw (GeminiError API_ERROR "Fallback parser failed" false)
  else
    do data <- settle json;
    if negb (truthy_string (text data)) then
      throw (GeminiError EMPTY_RESPONSE "No fallback response" false)
    else
      match JSON_parse pf (extractJSON pf (default "" (text data))) with
      | Some (Shaped rawInvoice) =>
        ret (transformToInvoice (Date_now pf) (toISOString pf) rawInvoice transcript)
      | _ => ret (emptyInvoice pf transcript options)
      end.

(** How [fallbackParse] ends, by the answer to its one request. *)
Definition fallback_outcome (pf : Platform) (transcript : string)
    (options : option InvoiceExtractionOptions) (answer : FetchOutcome)
    : result ParsedInvoice :=
  match answer with
  | FetchRejects e => Throw e
  | Response false _ _ => Throw (GeminiError API_ERROR "Fallback parser failed" false)
  | Response true _ (Throw e) => Throw e
  | Response true _ (Ok data) =>
    if truthy_string (text data) then
      match JSON_parse pf (extractJSON pf (default "" (text data))) with
      | Some (Shaped rawInvoice) =>
        Ok (transformToInvoice (Date_now pf) (toISOString pf) rawInvoice transcript)
      | _ => Ok (emptyInvoice pf transcript options)
      end
    else Throw (GeminiError EMPTY_RESPONSE "No fallback response" false)
  end.

Definition parseTranscript (pf : Platform) (transcript : string)
    (options : option InvoiceExtractionOptions) : G ParsedInvoice :=
  if is_blank transcript then
    throw (GeminiError EMPTY_RESPONSE "No transcript to parse" false)
  else
    do r <- retryLoop pf (Z.to_nat MAX_RETRIES) 0 transcript options None;
    match r with
    | inl parsedInvoice => ret parsedInvoice
    | inr lastError =>
      try_catch (fallbackParse pf transcript None)
        (fun _ =>
           throw (default (GeminiError API_ERROR "Max retries exceeded" false)
                          lastError))
    end.

End Gemini.

(** ** The database layer: tables and queries *)

Module QueueItem.

Inductive type_t := stt | parse | both.
Inductive status_t := pending | processing | completed | failed.

(** A row of the [queue] table, as [mapQueueRow] returns it. *)
Record t := {
  id : string;
  draftId : string;
  type : type_t;
  retryCount : Z;
  lastError : option string;
  createdAt : Z;
  status : status_t;
}.

Definition status_eqb (a b : status_t) : bool :=
  match a, b with
  | pending, pending | processing, processing
  | completed, completed | failed, failed => true
  | _, _ => false
  end.

(** [UPDATE queue SET status = ?, last_error = ?, retry_count = ?] on one
    row *)
Definition set_status (s : status_t) (e : option string) (rc : Z) (r : t) : t :=
  {| id := id r; draftId := draftId r; type := type r; retryCount := rc;
     lastError := e; createdAt := createdAt r; status := s |}.

End QueueItem.

Module DraftRecord.

Inductive syncStatus_t := local | queued | syncing | synced | failed.

(** A row of the [drafts] table, as [mapDraftRow] returns it. *)
Record t := {
  id : string;
  createdAt : Z;
  updatedAt : Z;
  audioPath : option string;
  audioDuration : option Z;
  transcript : option string;
  transcriptConfidence : option float;
  invoiceData : option string;
  parseConfidence : option float;
  syncStatus : syncStatus_t;
  sharedAt : option Z;
  shareMethod : option string;
}.

(** [SET transcript = ?, transcript_confidence = ?, updated_at = ?] *)
Definition set_transcript (tr : string) (c : float) (now : Z) (d : t) : t :=
  {| id := id d; createdAt := createdAt d; updatedAt := now;
     audioPath := audioPath d; audioDuration := audioDuration d;
     transcript := Some tr; transcriptConfidence := Some c;
     invoiceData := invoiceData d; parseConfidence := parseConfidence d;
     syncStatus := syncStatus d; sharedAt := sharedAt d;
     shareMethod := shareMethod d |}.

(** [SET invoice_data = ?, parse_confidence = ?, sync_status = 'synced',
    updated_at = ?] *)
Definition set_invoice (inv : string) (c : float) (now : Z) (d : t) : t :=
  {| id := id d; createdAt := createdAt d; updatedAt := now;
     audioPath := audioPath d; audioDuration := audioDuration d;
     transcript := transcript d; transcriptConfidence := transcriptConfidence d;
     invoiceData := Some inv; parseConfidence := Some c;
     syncStatus := synced; sharedAt := sharedAt d;
     shareMethod := shareMethod d |}.

End DraftRecord.

Module Db.

(** The state the pipeline runs in: the two tables, the clock read by
    [Date.now()], and the arguments of the calls made so far to the two
    external clients, earliest first. *)
Record World := {
  drafts : gmap string DraftRecord.t;
  queue : list QueueItem.t;
  now : Z;
  sttCalls : list string;
  parseCalls : list string;
}.

Definition with_drafts (f : gmap string DraftRecord.t -> gmap string DraftRecord.t)
    (w : World) : World :=
  {| drafts := f (drafts w); queue := queue w; now := now w;
     sttCalls := sttCalls w; parseCalls := parseCalls w |}.

Definition with_queue (f : list QueueItem.t -> list QueueItem.t) (w : World) : World :=
  {| drafts := drafts w; queue := f (queue w); now := now w;
     sttCalls := sttCalls w; parseCalls := parseCalls w |}.

(** An [async] function of the pipeline reads and writes the world.
    Storage I/O itself is taken not to fail. *)
Abbreviation M := (Js.M World).
Local Open Scope M_scope.

(** *** Drafts *)

(** [GET_BY_ID]: [SELECT * FROM drafts WHERE id = ?] *)
Definition getDraftById (id : string) : M (option DraftRecord.t) :=
  fun w => (w, Ok (drafts w !! id)).

(** [UPDATE_TRANSCRIPT] *)
Definition updateDraftTranscript (id : string) (transcript : string)
    (confidence : float) : M unit :=
  fun w =>
    (with_drafts (alter (DraftRecord.set_transcript transcript confidence (now w)) id) w,
     Ok tt).

(** [UPDATE_INVOICE] *)
Definition updateDraftInvoice (id : string) (invoiceData : string)
    (parseConfidence : float) : M unit :=
  fun w =>
    (with_drafts (alter (DraftRecord.set_invoice invoiceData parseConfidence (now w)) id) w,
     Ok tt).

(** *** Queue *)

(** [ORDER BY created_at ASC] *)
Definition created_le (a b : QueueItem.t) : Prop :=
  QueueItem.createdAt a <= QueueItem.createdAt b.

#[global] Instance created_le_dec : RelDecision created_le.
Proof. intros a b. unfold created_le. apply Z_le_dec. Defined.

Definition is_pending (r : QueueItem.t) : bool :=
  QueueItem.status_eqb (QueueItem.status r) QueueItem.pending.

(** [GET_PENDING]:
    [SELECT * FROM queue WHERE status = 'pending' ORDER BY created_at ASC].
    SQLite leaves the order of rows with equal [created_at] open; the sort
    used here fixes one. *)
Definition GET_PENDING (rows : list QueueItem.t) : list QueueItem.t :=
  merge_sort created_le (List.filter is_pending rows).

Definition getPendingQueueItems : M (list QueueItem.t) :=
  fun w => (w, Ok (GET_PENDING (queue w))).

(** [UPDATE_STATUS]:
    [UPDATE queue SET status = ?, last_error = ?, retry_count = ? WHERE id = ?] *)
Definition UPDATE_STATUS (id : string) (status : QueueItem.status_t)
    (error : option string) (retryCount : Z) (rows : list QueueItem.t)
    : list QueueItem.t :=
  List.map (fun r => if String.eqb (QueueItem.id r) id
                     then QueueItem.set_status status error retryCount r
                     else r) rows.

Definition updateQueueItemStatus (id : string) (status : QueueItem.status_t)
    (error : option string) (retryCount : Z) : M unit :=
  fun w => (with_queue (UPDATE_STATUS id status error retryCount) w, Ok tt).

(** [DELETE_COMPLETED]: [DELETE FROM queue WHERE status = 'completed'] *)
Definition DELETE_COMPLETED (rows : list QueueItem.t) : list QueueItem.t :=
  List.filter
    (fun r => negb (QueueItem.status_eqb (QueueItem.status r) QueueItem.completed))
    rows.

Definition deleteCompletedQueueItems : M unit :=
  fun w => (with_queue DELETE_COMPLETED w, Ok tt).

(** *** Inserting and clearing *)

(** SQLite rejects an [INSERT] whose primary key is taken; the driver
    rejects the promise with an error that carries SQLite's message. *)
Definition constraint_failed (column : string) : thrown :=
  PlainError ("UNIQUE constraint failed: " +:+ column).

(** The row [DRAFTS_QUERIES.INSERT] writes: the columns it does not name are
    [NULL], and [sync_status] is ['local']. *)
Definition new_draft (id : string) (now : Z) (audioPath : option string)
    (audioDuration : option Z) : DraftRecord.t :=
  {| DraftRecord.id := id; DraftRecord.createdAt := now; DraftRecord.updatedAt := now;
     DraftRecord.audioPath := audioPath; DraftRecord.audioDuration := audioDuration;
     DraftRecord.transcript := None; DraftRecord.transcriptConfidence := None;
     DraftRecord.invoiceData := None; DraftRecord.parseConfidence := None;
     DraftRecord.syncStatus := DraftRecord.local;
     DraftRecord.sharedAt := None; DraftRecord.shareMethod := None |}.

(** [createDraft] *)
Definition createDraft (id : string) (audioPath : option string)
    (audioDuration : option Z) : M unit :=
  fun w =>
    match drafts w !! id with
    | Some _ => (w, Throw (constraint_failed "drafts.id"))
    | None =>
      (with_drafts (insert id (new_draft id (now w) audioPath audioDuration)) w, Ok tt)
    end.

(** The row [QUEUE_QUERIES.INSERT] writes: [retry_count] takes its default
    0 and [last_error] is [NULL]. *)
Definition new_row (id draftId : string) (type : QueueItem.type_t) (now : Z)
    : QueueItem.t :=
  {| QueueItem.id := id; QueueItem.draftId := draftId; QueueItem.type := type;
     QueueItem.retryCount := 0; QueueItem.lastError := None;
     QueueItem.createdAt := now; QueueItem.status := QueueItem.pending |}.

Definition has_id (id : string) (r : QueueItem.t) : bool :=
  String.eqb (QueueItem.id r) id.

(** [addToQueue] of the database layer. The schema declares [draft_id] a
    foreign key, but the code never switches the enforcement of foreign keys
    on, and SQLite does not check them unless told to: the draft is not
    looked up. *)
Definition addToQueue (id draftId : string) (type : QueueItem.type_t) : M unit :=
  fun w =>
    if existsb (has_id id) (queue w) then (w, Throw (constraint_failed "queue.id"))
    else (with_queue (fun rows => rows ++ [new_row id draftId type (now w)]) w, Ok tt).

(** [DELETE_ALL]: [DELETE FROM queue] *)
Definition deleteAllQueueItems : M unit :=
  fun w => (with_queue (fun _ => []) w, Ok tt).

End Db.

(** ** The queue processor: [queueService] *)

Module Queue.
Import Db.
Local Open Scope M_scope.

(** What [processItem] uses of an [STTResult]. *)
Record STTResult := {
  transcript : string;
  confidence : float;
}.

(** The two external clients and the serializer. A client is a function of
    the number of calls made to it before and of its argument, so that a
    test double can answer each call differently. *)
Record Clients := {
  transcribe : nat -> string -> result STTResult;
  parseTranscript : nat -> string -> result Gemini.ParsedInvoice;
  JSON_stringify : Gemini.ParsedInvoice -> string;
}.

(** [await sttService.transcribe(audioUri)] *)
Definition call_transcribe (cl : Clients) (audioUri : string) : M STTResult :=
  fun w =>
    ({| drafts := drafts w; queue := queue w; now := now w;
        sttCalls := sttCalls w ++ [audioUri]; parseCalls := parseCalls w |},
     transcribe cl (length (sttCalls w)) audioUri).

(** [await geminiService.parseTranscript(transcript)] *)
Definition call_parseTranscript (cl : Clients) (text : string)
    : M Gemini.ParsedInvoice :=
  fun w =>
    ({| drafts := drafts w; queue := queue w; now := now w;
        sttCalls := sttCalls w; parseCalls := parseCalls w ++ [text] |},
     parseTranscript cl (length (parseCalls w)) text).

Record QueueProcessResult := {
  processed : nat;
  failed : nat;
  total : nat;
  errors : list (string * string);
}.

Record QueueStatus := {
  qs_pending : nat;
  qs_processing : nat;
  qs_failed : nat;
  qs_total : nat;
}.

Definition MAX_RETRIES : Z := 3.
Definition RETRY_BASE_DELAY_MS : Z := 1000.

Definition wants_stt (ty : QueueItem.type_t) : bool :=
  match ty with QueueItem.stt | QueueItem.both => true | QueueItem.parse => false end.

Definition wants_parse (ty : QueueItem.type_t) : bool :=
  match ty with QueueItem.parse | QueueItem.both => true | QueueItem.stt => false end.

(** The transcription stage: [item.type === 'stt' || item.type === 'both'],
    and inside it [draft.audioPath && !draft.transcript]. *)
Definition sttStage (cl : Clients) (item : QueueItem.t) (draft : DraftRecord.t)
    : M unit :=
  if wants_stt (QueueItem.type item) then
    if truthy_string (DraftRecord.audioPath draft)
       && negb (truthy_string (DraftRecord.transcript draft))
    then
      do sttResult <- call_transcribe cl (default "" (DraftRecord.audioPath draft));
      updateDraftTranscript (QueueItem.draftId item)
        (transcript sttResult) (confidence sttResult)
    else ret tt
  else ret tt.

(** The extraction stage: [item.type === 'parse' || item.type === 'both'],
    and inside it, on the draft read again,
    [updatedDraft?.transcript && !updatedDraft.invoiceData]. *)
Definition parseStage (cl : Clients) (item : QueueItem.t) : M unit :=
  if wants_parse (QueueItem.type item) then
    do updatedDraft <- getDraftById (QueueItem.draftId item);
    if truthy_string (updatedDraft ≫= DraftRecord.transcript)
       && negb (truthy_string (updatedDraft ≫= DraftRecord.invoiceData))
    then
      do parsedInvoice <-
        call_parseTranscript cl (default "" (updatedDraft ≫= DraftRecord.transcript));
      let confidence := Gemini.getAverageConfidence parsedInvoice in
      updateDraftInvoice (QueueItem.draftId item)
        (JSON_stringify cl parsedInvoice) confidence
    else ret tt
  else ret tt.

(** The body of the [try] block of [processItem]. *)
Definition processItem_try (cl : Clients) (item : QueueItem.t) : M unit :=
  do draft <- getDraftById (QueueItem.draftId item);
  match draft with
  | None => throw (PlainError ("Draft " +:+ QueueItem.draftId item +:+ " not found"))
  | Some draft =>
    run sttStage cl item draft;
    run parseStage cl item;
    updateQueueItemStatus (QueueItem.id item) QueueItem.completed None
      (QueueItem.retryCount item)
  end.

(** The [catch] block of [processItem]. *)
Definition processItem_catch (item : QueueItem.t) (error : thrown) : M unit :=
  let errorMessage := errorMessage error in
  let newRetryCount := (QueueItem.retryCount item + 1)%Z in
  if (MAX_RETRIES <=? newRetryCount)%Z then
    run updateQueueItemStatus (QueueItem.id item) QueueItem.failed
          (Some errorMessage) newRetryCount;
    throw error
  else
    run updateQueueItemStatus (QueueItem.id item) QueueItem.pending
          (Some errorMessage) newRetryCount;
    throw error.

Definition processItem (cl : Clients) (item : QueueItem.t) : M unit :=
  run updateQueueItemStatus (QueueItem.id item) QueueItem.processing None
        (QueueItem.retryCount item);
  try_catch (processItem_try cl item) (processItem_catch item).

(** The world once [processItem] has marked the item ['processing']. *)
Definition mark_processing (item : QueueItem.t) (w : World) : World :=
  with_queue (UPDATE_STATUS (QueueItem.id item) QueueItem.processing None
                (QueueItem.retryCount item)) w.

(** The status the [catch] block gives an item that has failed once more. *)
Definition status_after_failure (item : QueueItem.t) : QueueItem.status_t :=
  if (MAX_RETRIES <=? QueueItem.retryCount item + 1)%Z
  then QueueItem.failed else QueueItem.pending.

(** The [for (const item of pendingItems)] loop of [processQueue]. *)
Fixpoint processItems (cl : Clients) (pendingItems : list QueueItem.t)
    (result : QueueProcessResult) : M QueueProcessResult :=
  match pendingItems with
  | [] => ret result
  | item :: rest =>
    do r <- attempt (processItem cl item);
    match r with
    | Ok _ =>
      processItems cl rest
        {| processed := S (processed result); failed := failed result;
           total := total result; errors := errors result |}
    | Throw error =>
      processItems cl rest
        {| processed := processed result; failed := S (failed result);
           total := total result;
           errors := errors result ++ [(QueueItem.id item, errorMessage error)] |}
    end
  end.

Definition processQueue (cl : Clients) : M QueueProcessResult :=
  do pendingItems <- getPendingQueueItems;
  let result :=
    {| processed := 0; failed := 0; total := length pendingItems; errors := [] |} in
  if (length pendingItems =? 0)%nat then ret result
  else
    do result <- processItems cl pendingItems result;
    run deleteCompletedQueueItems;
    ret result.

(** The filter of [retryFailedItems]:
    [item.status === 'failed' || (item.lastError && item.retryCount < MAX_RETRIES)] *)
Definition is_retry_candidate (item : QueueItem.t) : bool :=
  QueueItem.status_eqb (QueueItem.status item) QueueItem.failed
  || (truthy_string (QueueItem.lastError item)
      && (QueueItem.retryCount item <? MAX_RETRIES)%Z).

Fixpoint resetItems (failedItems : list QueueItem.t) : M unit :=
  match failedItems with
  | [] => ret tt
  | item :: rest =>
    run updateQueueItemStatus (QueueItem.id item) QueueItem.pending None
          (QueueItem.retryCount item);
    resetItems rest
  end.

Definition retryFailedItems : M unit :=
  do pendingItems <- getPendingQueueItems;
  let failedItems := List.filter is_retry_candidate pendingItems in
  resetItems failedItems.

Definition count_status (s : QueueItem.status_t) (items : list QueueItem.t) : nat :=
  length (List.filter (fun i => QueueItem.status_eqb (QueueItem.status i) s) items).

Definition getQueueStatus : M QueueStatus :=
  do items <- getPendingQueueItems;
  ret {| qs_pending := count_status QueueItem.pending items;
         qs_processing := count_status QueueItem.processing items;
         qs_failed := count_status QueueItem.failed items;
         qs_total := length items |}.

(** *** The completion invariant of the specification

    Every row that is ['completed'] and whose type includes the extraction
    stage belongs to a draft with a stored invoice. *)
Definition completed_has_invoice (w : World) : Prop :=
  forall it,
    it ∈ queue w ->
    QueueItem.status it = QueueItem.completed ->
    wants_parse (QueueItem.type it) = true ->
    exists d, drafts w !! QueueItem.draftId it = Some d
              /\ DraftRecord.invoiceData d <> None.

(** *** Enqueueing and clearing *)

(** [generateId]; [random] is
    [Math.random().toString(36).substring(2, 11)]. *)
Definition generateId (now : Z) (random : string) : string :=
  "queue_" +:+ pretty now +:+ "_" +:+ random.

(** [queueService.addToQueue]; a missing [type] is ['both']. *)
Definition addToQueue (random : string) (draftId : string)
    (type : option QueueItem.type_t) : M string :=
  fun w =>
    let id := generateId (now w) random in
    (run Db.addToQueue id draftId (default QueueItem.both type); ret id) w.

Definition clearCompletedItems : M unit := deleteCompletedQueueItems.

Definition clearAllItems : M unit := deleteAllQueueItems.

(** [getRetryDelay], for a retry count that is a natural number:
    [RETRY_BASE_DELAY_MS * Math.pow(2, retryCount)]. *)
Definition getRetryDelay (retryCount : nat) : Z :=
  RETRY_BASE_DELAY_MS * 2 ^ Z.of_nat retryCount.

(** *** Invariants of the two tables *)

(** The primary key of [queue]. *)
Definition distinct_ids (w : World) : Prop :=
  NoDup (List.map QueueItem.id (queue w)).

(** A draft marked ['synced'] has a stored invoice. *)
Definition synced_has_invoice (w : World) : Prop :=
  forall k d,
    drafts w !! k = Some d ->
    DraftRecord.syncStatus d = DraftRecord.synced ->
    DraftRecord.invoiceData d <> None.

(** How many of the items ask for the transcription stage, and how many for
    the extraction stage. *)
Definition count_stt (items : list QueueItem.t) : nat :=
  length (List.filter (fun i => wants_stt (QueueItem.type i)) items).

Definition count_parse (items : list QueueItem.t) : nat :=
  length (List.filter (fun i => wants_parse (QueueItem.type i)) items).

(** The fields of a draft that belong to the recording and to sharing, none
    of which the pipeline writes. *)
Definition same_recording (d d' : DraftRecord.t) : Prop :=
  DraftRecord.id d' = DraftRecord.id d
  /\ DraftRecord.createdAt d' = DraftRecord.createdAt d
  /\ DraftRecord.audioPath d' = DraftRecord.audioPath d
  /\ DraftRecord.audioDuration d' = DraftRecord.audioDuration d
  /\ DraftRecord.sharedAt d' = DraftRecord.sharedAt d
  /\ DraftRecord.shareMethod d' = DraftRecord.shareMethod d.

(** The drafts of [w'] are those of [w], each with its recording. *)
Definition drafts_kept (w w' : World) : Prop :=
  forall k,
    match drafts w !! k, drafts w' !! k with
    | Some d, Some d' => same_recording d d'
    | None, None => True
    | _, _ => False
    end.

(** A row without its error message. *)
Definition forget_error (r : QueueItem.t) : QueueItem.t :=
  QueueItem.set_status (QueueItem.status r) None (QueueItem.retryCount r) r.

End Queue.

(** ** The transcription client: [sttService] *)

Module Stt.
Import Queue.
Local Open Scope M_scope.

(** What [transcribe] finds in the body of a response that is [ok]: a
    value on which reading the result throws a [TypeError] ([null], a
    [null] result, a [null] word, a word whose [startTime] is no string);
    no results; results without a first alternative; or a first
    alternative, with its [transcript] and [confidence]. *)
Inductive Reading :=
| IllShaped
| NoResults
| NoAlternative
| Alternative (transcript : option string) (confidence : jsnum).

(** The body of a response: [errorData?.error?.message] and the reading
    above. *)
Record SttData := {
  error_message : option string;
  reading : Reading;
}.

(** How [await fetch(...)] ends: it rejects, or it gives a response whose
    [json()] in turn resolves or rejects. *)
Inductive FetchOutcome :=
| FetchRejects (e : thrown)
| Response (ok : bool) (status : Z) (json : result SttData).

(** The platform: [FileSystem.readAsStringAsync] with base64 encoding, and
    [fetch] as a function of the number of requests sent before and of the
    audio content of the request. *)
Record Platform := {
  readAsStringAsync : string -> result string;
  fetch : nat -> string -> FetchOutcome;
}.

(** [CONFIG.MAX_RETRIES] of [config/env.ts] *)
Definition MAX_RETRIES : Z := 3.

(** The state of the client: the audio contents sent so far, earliest
    first. *)
Abbreviation T := (Js.M (list string)).

Definition audioToBase64 (pf : Platform) (audioUri : string) : T string :=
  try_catch (settle (readAsStringAsync pf audioUri))
    (fun _ => throw (STTError INVALID_AUDIO "Failed to read audio file" false)).

Definition call_fetch (pf : Platform) (audioBase64 : string)
    : T (bool * Z * result SttData) :=
  fun sent =>
    ((sent ++ [audioBase64])%list,
     match fetch pf (length sent) audioBase64 with
     | FetchRejects e => Throw e
     | Response ok status json => Ok (ok, status, json)
     end).

(** [await response.json().catch(() => ({}))], then
    [errorData?.error?.message] *)
Definition errorData_message (json : result SttData) : option string :=
  match json with
  | Ok errorData => error_message errorData
  | Throw _ => None
  end.

(** The [try] block of one turn of the retry loop. The result is given in
    the two fields the queue reads. *)
Definition transcribeAttempt (pf : Platform) (attempt : Z) (audioBase64 : string)
    : T STTResult :=
  do response <- call_fetch pf audioBase64;
  let '(ok, status, json) := response in
  if negb ok then
    let errorMessage :=
      Gemini.or_string (errorData_message json) ("HTTP " +:+ pretty status) in
    if (status =? 400)%Z then
      throw (STTError INVALID_AUDIO errorMessage false)
    else if (status =? 401)%Z || (status =? 403)%Z then
      throw (STTError STT_API_ERROR "Invalid API key" false)
    else if (500 <=? status)%Z then
      throw (STTError STT_API_ERROR errorMessage true)
    else
      throw (STTError STT_API_ERROR errorMessage (attempt <? MAX_RETRIES - 1)%Z)
  else
    do data <- settle json;
    match reading data with
    | IllShaped => throw (TypeError "Cannot read properties of null")
    | NoResults =>
      throw (STTError NO_SPEECH_DETECTED "No speech was detected in the audio" false)
    | NoAlternative =>
      throw (STTError NO_SPEECH_DETECTED "No transcript available" false)
    | Alternative transcript confidence =>
      ret {| transcript := Gemini.or_string transcript "";
             confidence := or_else confidence 0 |}
    end.

(** [error instanceof STTError && !error.retryable] *)
Definition is_final (e : thrown) : bool :=
  match e with
  | STTError _ _ retryable => negb retryable
  | _ => false
  end.

(** What the [catch] block of the loop keeps in [lastError]. *)
Definition kept_error (error : thrown) : thrown :=
  if Gemini.is_fetch_failure error
  then STTError STT_NETWORK_ERROR "Network request failed" true
  else error.

(** The retry loop, [remaining] turns before [attempt] reaches
    [MAX_RETRIES]: it returns the result ([inl]), throws, or runs out of
    turns with [lastError] ([inr]). *)
Fixpoint retryLoop (pf : Platform) (remaining : nat) (attempt : Z)
    (audioBase64 : string) (lastError : option thrown)
    : T (STTResult + option thrown) :=
  match remaining with
  | O => ret (inr lastError)
  | S remaining =>
    do r <- Js.attempt (transcribeAttempt pf attempt audioBase64);
    match r with
    | Ok result => ret (inl result)
    | Throw error =>
      if is_final error then throw error
      else retryLoop pf remaining (attempt + 1)%Z audioBase64 (Some (kept_error error))
    end
  end.

Definition transcribe (pf : Platform) (audioUri : string) : T STTResult :=
  if String.eqb audioUri "" then
    throw (STTError NO_AUDIO "No audio URI provided" false)
  else
    do audioBase64 <- audioToBase64 pf audioUri;
    do r <- retryLoop pf (Z.to_nat MAX_RETRIES) 0 audioBase64 None;
    match r with
    | inl result => ret result
    | inr lastError =>
      throw (default (STTError STT_API_ERROR "Max retries exceeded" false) lastError)
    end.

End Stt.

(** ** The sync orchestrator: [syncService] *)

Module Sync.

Inductive SyncState := idle | syncing | completed | error.

Record SyncResult := {
  success : bool;
  processResult : option Queue.QueueProcessResult;
  error_message : option string;
}.

Record SyncStatus := {
  state : SyncState;
  status_lastSyncAt : option Z;
  status_lastError : option string;
  status_isAutoSyncEnabled : bool;
}.

Definition SYNC_DEBOUNCE_MS : Z := 2000.
Definition MIN_SYNC_INTERVAL_MS : Z := 30000.

(** The module-level variables of the service. The registered listeners
    are callbacks of the user interface that do not call back into the
    service; [notified] keeps what they were sent, earliest first. *)
Record Globals := {
  syncState : SyncState;
  lastSyncAt : option Z;
  lastError : option string;
  isAutoSyncEnabled : bool;
  notified : list SyncStatus;
}.

Definition getSyncStatus (g : Globals) : SyncStatus :=
  {| state := syncState g;
     status_lastSyncAt := lastSyncAt g;
     status_lastError := lastError g;
     status_isAutoSyncEnabled := isAutoSyncEnabled g |}.

Definition notifyListeners (g : Globals) : Globals :=
  {| syncState := syncState g; lastSyncAt := lastSyncAt g;
     lastError := lastError g; isAutoSyncEnabled := isAutoSyncEnabled g;
     notified := notified g ++ [getSyncStatus g] |}.

Definition ends_a_sync (s : SyncState) : bool :=
  match s with completed | error => true | _ => false end.

(** [updateState(newState, error?)]; [clock] is [Date.now()]. *)
Definition updateState (clock : Z) (newState : SyncState) (err : option string)
    (g : Globals) : Globals :=
  notifyListeners
    {| syncState := newState;
       lastSyncAt := if ends_a_sync newState then Some clock else lastSyncAt g;
       lastError := match err with Some e => Some e | None => lastError g end;
       isAutoSyncEnabled := isAutoSyncEnabled g;
       notified := notified g |}.

(** [Network.getNetworkStateAsync()] resolves to this. *)
Record NetworkState := {
  isConnected : bool;
  isInternetReachable : option bool;
}.

(** [!networkState.isConnected || networkState.isInternetReachable === false] *)
Definition is_offline (n : NetworkState) : bool :=
  negb (isConnected n)
  || match isInternetReachable n with Some false => true | _ => false end.

(** [lastSyncAt && Date.now() - lastSyncAt < MIN_SYNC_INTERVAL_MS] *)
Definition too_soon (clock : Z) (g : Globals) : bool :=
  match lastSyncAt g with
  | Some t => negb (t =? 0)%Z && (clock - t <? MIN_SYNC_INTERVAL_MS)%Z
  | None => false
  end.

(** What a call returns that the rate limiter has turned away. *)
Definition skipped : SyncResult :=
  {| success := true; processResult := None; error_message := None |}.

(** *** [syncNow] as a coroutine

    A call of [syncNow] runs until it returns or reaches an [await]; there
    it gives up the thread, and other tasks run until the awaited promise
    settles. *)
Inductive Task :=
| Called
| AwaitNetwork
| AwaitQueue
| Returned (r : SyncResult)
| Rejected (e : thrown).

(** What lets a task run on: the call itself, or the settling of the
    promise it awaits. *)
Inductive Resume :=
| Enter
| NetworkStateIs (n : result NetworkState)
| ProcessQueueGave (r : result Queue.QueueProcessResult).

(** The calls a step makes to the outside. *)
Inductive Effect :=
| GetNetworkState
| ProcessQueue.

Definition is_syncing (s : SyncState) : bool :=
  match s with syncing => true | _ => false end.

(** One run of the task from where it stands to its next [await] or to
    its end; [clock] is what [Date.now()] returns meanwhile. *)
Definition syncNow_step (clock : Z) (g : Globals) (t : Task) (r : Resume)
    : Globals * Task * list Effect :=
  match t, r with
  | Called, Enter =>
    if is_syncing (syncState g) then
      (g, Returned {| success := false; processResult := None;
                      error_message := Some "Sync already in progress" |}, [])
    else if too_soon clock g then
      (g, Returned {| success := true; processResult := None;
                      error_message := None |}, [])
    else (g, AwaitNetwork, [GetNetworkState])
  | AwaitNetwork, NetworkStateIs (Throw e) => (g, Rejected e, [])
  | AwaitNetwork, NetworkStateIs (Ok networkState) =>
    if is_offline networkState then
      (g, Returned {| success := false; processResult := None;
                      error_message := Some "Device is offline" |}, [])
    else (updateState clock syncing None g, AwaitQueue, [ProcessQueue])
  | AwaitQueue, ProcessQueueGave (Ok result) =>
    let g' :=
      if (0 <? Queue.failed result)%nat then
        updateState clock error
          (Some (pretty (Queue.failed result) +:+ " items failed to sync")) g
      else updateState clock completed None g in
    (g', Returned {| success := (Queue.failed result =? 0)%nat;
                     processResult := Some result;
                     error_message := None |}, [])
  | AwaitQueue, ProcessQueueGave (Throw e) =>
    (updateState clock error (Some (errorMessage e)) g,
     Returned {| success := false; processResult := None;
                 error_message := Some (errorMessage e) |}, [])
  | _, _ => (g, t, [])
  end.

(** *** Tasks sharing the thread *)

(** The service with the [syncNow] calls in flight and the calls made to
    the outside so far. *)
Record System := {
  globals : Globals;
  tasks : list Task;
  effects : list Effect;
}.

(** The scheduler lets task [who] run on with [resume] at time [at_time]. *)
Record Turn := {
  who : nat;
  at_time : Z;
  resume : Resume;
}.

Definition turn (s : System) (tn : Turn) : System :=
  match tasks s !! who tn with
  | None => s
  | Some t =>
    let '(g, t', es) := syncNow_step (at_time tn) (globals s) t (resume tn) in
    {| globals := g;
       tasks := <[who tn := t']> (tasks s);
       effects := effects s ++ es |}
  end.

Definition schedule (s : System) (tns : list Turn) : System :=
  fold_left turn tns s.

Definition is_ProcessQueue (e : Effect) : bool :=
  match e with ProcessQueue => true | GetNetworkState => false end.

(** How many times [queueService.processQueue()] was invoked. *)
Definition passes (s : System) : nat :=
  length (List.filter is_ProcessQueue (effects s)).

(** *** One call after the other *)

(** A call of [syncNow] that nothing interleaves with: it starts at
    [t_start], the connectivity probe answers [net], and the queue pass, if
    it runs, ends at [t_end]. The result carries what the call returned and
    how many queue passes it ran. *)
Definition syncNow (cl : Queue.Clients) (net : NetworkState) (t_start t_end : Z)
    (st : Globals * Db.World) : Globals * Db.World * Task * nat :=
  let '(g, w) := st in
  match syncNow_step t_start g Called Enter with
  | (g1, AwaitNetwork, _) =>
    match syncNow_step t_start g1 AwaitNetwork (NetworkStateIs (Ok net)) with
    | (g2, AwaitQueue, _) =>
      let '(w', r) := Queue.processQueue cl w in
      let '(g3, t3, _) := syncNow_step t_end g2 AwaitQueue (ProcessQueueGave r) in
      (g3, w', t3, 1%nat)
    | (g2, t2, _) => (g2, w, t2, 0%nat)
    end
  | (g1, t1, _) => (g1, w, t1, 0%nat)
  end.

End Sync.

(** ** Auto-sync: the network listener and the debounce timer of
    [syncService] *)

Module AutoSync.
Import Sync.

(** What the runtime holds for the service: the listeners registered with
    [Network.addNetworkStateListener] and the timers set with [setTimeout],
    each under the handle the runtime gave out for it. A handle is an object
    or a non-zero number, hence truthy. *)
Record Runtime := {
  netListeners : list positive;
  timers : gmap positive Z;
  nextHandle : positive;
}.

(** The service: its module-level variables, the [syncNow] calls in flight,
    and the runtime. *)
Record Service := {
  system : System;
  networkSubscription : option positive;
  syncDebounceTimeout : option positive;
  runtime : Runtime;
}.

Definition enabled (s : Service) : bool := isAutoSyncEnabled (globals (system s)).

Definition with_globals (f : Globals -> Globals) (sys : System) : System :=
  {| globals := f (globals sys); tasks := tasks sys; effects := effects sys |}.

Definition set_isAutoSyncEnabled (b : bool) (g : Globals) : Globals :=
  {| syncState := syncState g; lastSyncAt := lastSyncAt g; lastError := lastError g;
     isAutoSyncEnabled := b; notified := notified g |}.

(** [clearTimeout(handle)] *)
Definition clearTimeout (h : positive) (rt : Runtime) : Runtime :=
  {| netListeners := netListeners rt; timers := delete h (timers rt);
     nextHandle := nextHandle rt |}.

(** [setTimeout(callback, delay)] at time [clock]: the new handle and the
    runtime with the timer in it. *)
Definition setTimeout (clock delay : Z) (rt : Runtime) : positive * Runtime :=
  (nextHandle rt,
   {| netListeners := netListeners rt;
      timers := <[nextHandle rt := clock + delay]> (timers rt);
      nextHandle := Pos.succ (nextHandle rt) |}).

(** [Network.addNetworkStateListener(listener)] *)
Definition addNetworkStateListener (rt : Runtime) : positive * Runtime :=
  (nextHandle rt,
   {| netListeners := netListeners rt ++ [nextHandle rt]; timers := timers rt;
      nextHandle := Pos.succ (nextHandle rt) |}).

(** [subscription.remove()] *)
Definition subscription_remove (h : positive) (rt : Runtime) : Runtime :=
  {| netListeners := List.filter (fun h' => negb (Pos.eqb h' h)) (netListeners rt);
     timers := timers rt; nextHandle := nextHandle rt |}.

(** [startAutoSync] *)
Definition startAutoSync (s : Service) : Service :=
  if enabled s then s
  else
    let '(h, rt) := addNetworkStateListener (runtime s) in
    {| system := with_globals (fun g => notifyListeners (set_isAutoSyncEnabled true g))
                   (system s);
       networkSubscription := Some h;
       syncDebounceTimeout := syncDebounceTimeout s;
       runtime := rt |}.

(** [stopAutoSync] *)
Definition stopAutoSync (s : Service) : Service :=
  if negb (enabled s) then s
  else
    let rt1 := match networkSubscription s with
               | Some h => subscription_remove h (runtime s)
               | None => runtime s
               end in
    let rt2 := match syncDebounceTimeout s with
               | Some h => clearTimeout h rt1
               | None => rt1
               end in
    {| system := with_globals (fun g => notifyListeners (set_isAutoSyncEnabled false g))
                   (system s);
       networkSubscription := None;
       syncDebounceTimeout := None;
       runtime := rt2 |}.

(** [isConnected && isInternetReachable !== false] *)
Definition isOnline (isConnected : bool) (isInternetReachable : option bool) : bool :=
  isConnected && negb (bool_decide (isInternetReachable = Some false)).

(** [onNetworkChange], called at time [clock]. *)
Definition onNetworkChange (clock : Z) (isConnected : bool)
    (isInternetReachable : option bool) (s : Service) : Service :=
  if isOnline isConnected isInternetReachable && enabled s then
    let rt1 := match syncDebounceTimeout s with
               | Some h => clearTimeout h (runtime s)
               | None => runtime s
               end in
    let '(h, rt2) := setTimeout clock SYNC_DEBOUNCE_MS rt1 in
    {| system := system s;
       networkSubscription := networkSubscription s;
       syncDebounceTimeout := Some h;
       runtime := rt2 |}
  else s.

(** A call of [syncNow] that is not awaited: it runs to its first [await]
    or to its end and joins the calls in flight. *)
Definition call_syncNow (clock : Z) (sys : System) : System :=
  let '(g, t, es) := syncNow_step clock (globals sys) Called Enter in
  {| globals := g; tasks := tasks sys ++ [t]; effects := effects sys ++ es |}.

(** The runtime runs the callback of timer [h], if the timer is live and
    due: [syncDebounceTimeout = null; this.syncNow().catch(...)]. *)
Definition timerFires (clock : Z) (h : positive) (s : Service) : Service :=
  match timers (runtime s) !! h with
  | Some due =>
    if (due <=? clock)%Z then
      {| system := call_syncNow clock (system s);
         networkSubscription := networkSubscription s;
         syncDebounceTimeout := None;
         runtime := clearTimeout h (runtime s) |}
    else s
  | None => s
  end.

(** The runtime reports a change of the network state to every live
    listener; the listener of the service passes on
    [state.isConnected ?? false] and [state.isInternetReachable ?? null]. *)
Definition networkStateChanged (clock : Z) (isConnected isInternetReachable : option bool)
    (s : Service) : Service :=
  fold_left
    (fun s _ => onNetworkChange clock (default false isConnected) isInternetReachable s)
    (netListeners (runtime s)) s.

(** [initialize], from where its connectivity probe has answered [net]. *)
Definition initialize (clock : Z) (net : NetworkState) (s : Service) : Service :=
  let sys := if negb (is_offline net) then call_syncNow clock (system s)
             else system s in
  {| system := with_globals notifyListeners sys;
     networkSubscription := networkSubscription s;
     syncDebounceTimeout := syncDebounceTimeout s;
     runtime := runtime s |}.

(** What can happen to the service. *)
Inductive Event :=
| Initialize (net : NetworkState)
| StartAutoSync
| StopAutoSync
| OnNetworkChange (isConnected : bool) (isInternetReachable : option bool)
| NetworkStateChanged (isConnected isInternetReachable : option bool)
| TimerFires (h : positive)
| SyncNow
| Resumes (who : nat) (resume : Resume).

Definition react (s : Service) (ev : Z * Event) : Service :=
  let clock := ev.1 in
  match ev.2 with
  | Initialize net => initialize clock net s
  | StartAutoSync => startAutoSync s
  | StopAutoSync => stopAutoSync s
  | OnNetworkChange c r => onNetworkChange clock c r s
  | NetworkStateChanged c r => networkStateChanged clock c r s
  | TimerFires h => timerFires clock h s
  | SyncNow =>
    {| system := call_syncNow clock (system s);
       networkSubscription := networkSubscription s;
       syncDebounceTimeout := syncDebounceTimeout s;
       runtime := runtime s |}
  | Resumes who resume =>
    {| system := turn (system s) {| who := who; at_time := clock; resume := resume |};
       networkSubscription := networkSubscription s;
       syncDebounceTimeout := syncDebounceTimeout s;
       runtime := runtime s |}
  end.

Definition history (s : Service) (evs : list (Z * Event)) : Service :=
  fold_left react evs s.

(** The service as the module is loaded. *)
Definition loaded : Service :=
  {| system := {| globals := {| syncState := idle; lastSyncAt := None;
                                lastError := None; isAutoSyncEnabled := false;
                                notified := [] |};
                  tasks := []; effects := [] |};
     networkSubscription := None;
     syncDebounceTimeout := None;
     runtime := {| netListeners := []; timers := ∅; nextHandle := 1%positive |} |}.

(** The live timers and listeners are the ones the two variables name, and
    there are none while auto-sync is off. *)
Definition tidy (s : Service) : Prop :=
  netListeners (runtime s) = option_list (networkSubscription s)
  /\ (forall h, is_Some (timers (runtime s) !! h) <-> syncDebounceTimeout s = Some h)
  /\ (is_Some (networkSubscription s) <-> enabled s = true)
  /\ (enabled s = false -> syncDebounceTimeout s = None).

(** The time of the last report in [reports] that says the device is
    online. *)
Definition last_online (reports : list (Z * (option bool * option bool))) : option Z :=
  last (List.map fst
          (List.filter (fun r => isOnline (default false r.2.1) r.2.2) reports)).

Definition report (r : Z * (option bool * option bool)) : Z * Event :=
  (r.1, NetworkStateChanged r.2.1 r.2.2).

End AutoSync.

(** ** Sample data *)

Module Examples.
Import Db Queue.

(** A draft with a recording and nothing derived from it yet. *)
Definition draft_new (id : string) (audioPath : option string) : DraftRecord.t :=
  {| DraftRecord.id := id; DraftRecord.createdAt := 1700000000000;
     DraftRecord.updatedAt := 1700000000000;
     DraftRecord.audioPath := audioPath; DraftRecord.audioDuration := None;
     DraftRecord.transcript := None; DraftRecord.transcriptConfidence := None;
     DraftRecord.invoiceData := None; DraftRecord.parseConfidence := None;
     DraftRecord.syncStatus := DraftRecord.local;
     DraftRecord.sharedAt := None; DraftRecord.shareMethod := None |}.

(** The same draft once a transcript is stored. *)
Definition draft_transcribed (id : string) (audioPath : option string)
    (transcript : string) : DraftRecord.t :=
  DraftRecord.set_transcript transcript 0.9 1700000000500 (draft_new id audioPath).

(** A queue row as [QUEUE_QUERIES.INSERT] writes it. *)
Definition item_new (id draftId : string) (type : QueueItem.type_t) (createdAt : Z)
    : QueueItem.t :=
  {| QueueItem.id := id; QueueItem.draftId := draftId; QueueItem.type := type;
     QueueItem.retryCount := 0; QueueItem.lastError := None;
     QueueItem.createdAt := createdAt; QueueItem.status := QueueItem.pending |}.

(** A row that has used up its retries. *)
Definition item_failed (id draftId : string) (createdAt : Z) : QueueItem.t :=
  QueueItem.set_status QueueItem.failed (Some "Network request failed") 3
    (item_new id draftId QueueItem.both createdAt).

Definition world (ds : list DraftRecord.t) (q : list QueueItem.t) : World :=
  {| drafts := list_to_map ((fun d => (DraftRecord.id d, d)) <$> ds);
     queue := q; now := 1700000100000; sttCalls := []; parseCalls := [] |}.

Definition invoice_1000 : Gemini.ParsedInvoice :=
  {| Gemini.id := "inv_1"; Gemini.items :=
       [ {| Gemini.item_id := "item_1_0"; Gemini.description := "hours";
            Gemini.quantity := 2; Gemini.unitPrice := 500;
            Gemini.amount := 1000; Gemini.confidence := 0.9 |} ];
     Gemini.subtotal := 1000; Gemini.taxPercent := 0; Gemini.taxAmount := 0;
     Gemini.discountPercent := 0; Gemini.discountAmount := 0;
     Gemini.total := 1000; Gemini.currency := "INR"; Gemini.notes := "";
     Gemini.originalTranscript := "2 hours at 500";
     Gemini.createdAt := "2023-11-14T22:13:20.000Z"; Gemini.status := Gemini.draft |}.

(** Clients that always succeed. *)
Definition clients_ok : Clients :=
  {| transcribe := fun _ _ => Ok {| transcript := "2 hours at 500"; confidence := 0.9 |};
     parseTranscript := fun _ _ => Ok invoice_1000;
     JSON_stringify := fun _ => "{}" |}.

(** An extraction client that always throws a retryable network error. *)
Definition network_down : thrown :=
  GeminiError NETWORK_ERROR "Network request failed" true.

Definition clients_no_extraction : Clients :=
  {| transcribe := fun _ _ => Ok {| transcript := "2 hours at 500"; confidence := 0.9 |};
     parseTranscript := fun _ _ => Throw network_down;
     JSON_stringify := fun _ => "{}" |}.

(** The service as the module initializes it. *)
Definition service_idle : Sync.Globals :=
  {| Sync.syncState := Sync.idle; Sync.lastSyncAt := None; Sync.lastError := None;
     Sync.isAutoSyncEnabled := false; Sync.notified := [] |}.

(** The service while a pass is in flight. *)
Definition service_syncing : Sync.Globals :=
  {| Sync.syncState := Sync.syncing; Sync.lastSyncAt := None; Sync.lastError := None;
     Sync.isAutoSyncEnabled := false; Sync.notified := [] |}.

(** The service after a pass that ended at [t]. *)
Definition service_synced (t : Z) : Sync.Globals :=
  {| Sync.syncState := Sync.completed; Sync.lastSyncAt := Some t;
     Sync.lastError := None; Sync.isAutoSyncEnabled := false; Sync.notified := [] |}.

Definition online : Sync.NetworkState :=
  {| Sync.isConnected := true; Sync.isInternetReachable := Some true |}.

(** Two calls of [syncNow] enter one after the other, each before the
    connectivity probe of the other has answered; then both probes answer. *)
Definition two_calls_interleaved (c1 c2 c3 c4 : Z) (net1 net2 : Sync.NetworkState)
    : list Sync.Turn :=
  [ {| Sync.who := 0; Sync.at_time := c1; Sync.resume := Sync.Enter |};
    {| Sync.who := 1; Sync.at_time := c2; Sync.resume := Sync.Enter |};
    {| Sync.who := 0; Sync.at_time := c3;
       Sync.resume := Sync.NetworkStateIs (Ok net1) |};
    {| Sync.who := 1; Sync.at_time := c4;
       Sync.resume := Sync.NetworkStateIs (Ok net2) |} ].

(** A platform whose model endpoint answers every request with the same
    response; the prompts are the transcript itself. *)
Definition platform (answer : Gemini.FetchOutcome)
    (parse : string -> option Gemini.JsonValue) : Gemini.Platform :=
  {| Gemini.fetch := fun _ _ => answer;
     Gemini.extractJSON := fun s => s;
     Gemini.JSON_parse := parse;
     Gemini.buildInvoiceExtractionPrompt := fun transcript _ => transcript;
     Gemini.buildFallbackPrompt := fun transcript _ => transcript;
     Gemini.Date_now := 1700000100000;
     Gemini.toISOString := "2023-11-14T22:15:00.000Z" |}.

(** The endpoint is down: every request gets [503]. *)
Definition platform_down : Gemini.Platform :=
  platform (Gemini.Response false 503
              (Ok {| Gemini.text := None; Gemini.error := None |}))
           (fun _ => None).

(** The endpoint answers with text that is not JSON. *)
Definition platform_garbled : Gemini.Platform :=
  platform (Gemini.Response true 200
              (Ok {| Gemini.text := Some "Sorry, I cannot help with that.";
                     Gemini.error := None |}))
           (fun _ => None).

(** An answer of the model with one item that has a description and a unit
    price and neither quantity nor amount, and with totals of its own. *)
Definition raw_item_without_amount : Gemini.RawItem :=
  {| Gemini.raw_description := Some "Consultation";
     Gemini.raw_quantity := JUndefined;
     Gemini.raw_unitPrice := JNum 500;
     Gemini.raw_amount := JUndefined;
     Gemini.raw_confidence := JNum 0.9 |}.

Definition raw_without_amount : Gemini.RawParsedInvoice :=
  {| Gemini.raw_items := Some [raw_item_without_amount];
     Gemini.raw_subtotal := JNum 500;
     Gemini.raw_taxPercent := JNum 18;
     Gemini.raw_taxAmount := JNum 90;
     Gemini.raw_discountPercent := JUndefined;
     Gemini.raw_discountAmount := JUndefined;
     Gemini.raw_total := JNum 590;
     Gemini.raw_currency := Some "INR";
     Gemini.raw_notes := None |}.

End Examples.

(** ** Properties of the queue queries *)

Module DbProps.
Import Db.

Lemma status_eqb_eq a b : QueueItem.status_eqb a b = true <-> a = b.
Proof. destruct a, b; simpl; split; congruence. Qed.

#[global] Instance created_le_total : Total created_le.
Proof. intros a b. unfold created_le. lia. Qed.

#[global] Instance created_le_trans : Transitive created_le.
Proof. intros a b c. unfold created_le. lia. Qed.

Lemma is_pending_spec r : is_pending r = true <-> QueueItem.status r = QueueItem.pending.
Proof. unfold is_pending. apply status_eqb_eq. Qed.

Lemma elem_of_GET_PENDING rows it :
  it ∈ GET_PENDING rows <-> it ∈ rows /\ QueueItem.status it = QueueItem.pending.
Proof.
  unfold GET_PENDING. rewrite merge_sort_Permutation.
  rewrite !list_elem_of_In, filter_In, is_pending_spec. reflexivity.
Qed.

(** C1, as the code has it: [getPendingQueueItems] leaves the world as it
    is and returns exactly the rows whose status is ['pending'] (each as
    often as the table holds it), ordered by [createdAt] ascending. Rows
    that are ['processing'] or ['failed'] are not returned. *)
Theorem getPendingQueueItems_pending_only (w : World) :
  exists items,
    getPendingQueueItems w = (w, Ok items)
    /\ items ≡ₚ List.filter is_pending (queue w)
    /\ (forall it, it ∈ items <->
                   it ∈ queue w /\ QueueItem.status it = QueueItem.pending)
    /\ StronglySorted created_le items.
Proof.
  exists (GET_PENDING (queue w)). split; [reflexivity|].
  split; [apply merge_sort_Permutation|].
  split; [intros it; apply elem_of_GET_PENDING|].
  apply StronglySorted_merge_sort; apply _.
Qed.

(** C1 as stated fails: a row that is ['failed'], hence not ['completed'],
    is in the table and is not returned. *)
Lemma getPendingQueueItems_omits_failed :
  let it := Examples.item_failed "q1" "d1" 10 in
  let w := Examples.world [] [it] in
  it ∈ queue w
  /\ QueueItem.status it <> QueueItem.completed
  /\ getPendingQueueItems w = (w, Ok []).
Proof.
  cbv zeta. split; [apply list_elem_of_here|]. split; [discriminate|].
  reflexivity.
Qed.

End DbProps.

(** ** Properties of the queue processor *)

Module QueueProps.
Import Db Queue DbProps.
Local Open Scope M_scope.

(** *** What [UPDATE_STATUS] does to the table *)

Lemma UPDATE_STATUS_ids id s e rc rows :
  List.map QueueItem.id (UPDATE_STATUS id s e rc rows) = List.map QueueItem.id rows.
Proof.
  unfold UPDATE_STATUS. rewrite List.map_map. apply List.map_ext.
  intros r. destruct (String.eqb (QueueItem.id r) id); reflexivity.
Qed.

Lemma UPDATE_STATUS_twice id s1 e1 rc1 s2 e2 rc2 rows :
  UPDATE_STATUS id s2 e2 rc2 (UPDATE_STATUS id s1 e1 rc1 rows)
  = UPDATE_STATUS id s2 e2 rc2 rows.
Proof.
  unfold UPDATE_STATUS. rewrite List.map_map. apply List.map_ext.
  intros r. destruct (String.eqb (QueueItem.id r) id) eqn:E; simpl; rewrite E;
    reflexivity.
Qed.

Lemma elem_of_UPDATE_STATUS id s e rc rows r' :
  r' ∈ UPDATE_STATUS id s e rc rows <->
  exists r, r ∈ rows
            /\ r' = (if String.eqb (QueueItem.id r) id
                     then QueueItem.set_status s e rc r else r).
Proof.
  unfold UPDATE_STATUS. rewrite list_elem_of_In, in_map_iff.
  split; intros (r & H1 & H2); exists r.
  - rewrite list_elem_of_In. split; [exact H2 | symmetry; exact H1].
  - rewrite <- list_elem_of_In. split; [symmetry; exact H2 | exact H1].
Qed.

Lemma UPDATE_STATUS_other id s e rc rows r :
  r ∈ rows -> QueueItem.id r <> id -> r ∈ UPDATE_STATUS id s e rc rows.
Proof.
  intros Hin Hne. apply elem_of_UPDATE_STATUS. exists r. split; [exact Hin|].
  apply String.eqb_neq in Hne. rewrite Hne. reflexivity.
Qed.

(** Every row carrying the id gets the new status, error and count. *)
Lemma UPDATE_STATUS_hit id s e rc rows r' :
  r' ∈ UPDATE_STATUS id s e rc rows -> QueueItem.id r' = id ->
  QueueItem.status r' = s /\ QueueItem.lastError r' = e
  /\ QueueItem.retryCount r' = rc.
Proof.
  intros Hin Hid. apply elem_of_UPDATE_STATUS in Hin as (r & _ & ->).
  destruct (String.eqb (QueueItem.id r) id) eqn:E.
  - simpl. auto.
  - apply String.eqb_neq in E. contradiction.
Qed.

Lemma same_id_same_row (rows : list QueueItem.t) (a b : QueueItem.t) :
  NoDup (List.map QueueItem.id rows) -> a ∈ rows -> b ∈ rows ->
  QueueItem.id a = QueueItem.id b -> a = b.
Proof.
  induction rows as [|r rows IH]; intros Hnd Ha Hb Hid.
  - inversion Ha.
  - simpl in Hnd. apply NoDup_cons in Hnd as [Hr Hnd].
    apply elem_of_cons in Ha as [->|Ha]; apply elem_of_cons in Hb as [->|Hb];
      auto.
    + exfalso. apply Hr. rewrite Hid, list_elem_of_In. apply in_map.
      apply list_elem_of_In. exact Hb.
    + exfalso. apply Hr. rewrite <- Hid, list_elem_of_In. apply in_map.
      apply list_elem_of_In. exact Ha.
Qed.

(** *** [retryFailedItems] *)

Lemma resetItems_keeps failedItems : forall (w : World) (r : QueueItem.t),
  r ∈ queue w ->
  (forall it, it ∈ failedItems -> QueueItem.id it <> QueueItem.id r) ->
  r ∈ queue (resetItems failedItems w).1 /\ (resetItems failedItems w).2 = Ok tt.
Proof.
  induction failedItems as [|it rest IH]; intros w r Hin Hother.
  - simpl. auto.
  - cbn [resetItems]. unfold bind, updateQueueItemStatus.
    apply IH.
    + simpl. apply UPDATE_STATUS_other; [exact Hin|].
      intros E. apply (Hother it); [apply list_elem_of_here | auto].
    + intros it' Hit'. apply Hother. apply list_elem_of_further. exact Hit'.
Qed.

(** C5, where the code departs from it: [retryFailedItems] picks its
    candidates among the rows [getPendingQueueItems] returns, and those are
    the ['pending'] ones. In a table whose ids are distinct (the primary
    key) a ['failed'] row is therefore left exactly as it was: same status,
    same error, same count. *)
Theorem retryFailedItems_leaves_failed (w : World) (r : QueueItem.t) :
  NoDup (List.map QueueItem.id (queue w)) ->
  r ∈ queue w ->
  QueueItem.status r = QueueItem.failed ->
  r ∈ queue (retryFailedItems w).1 /\ (retryFailedItems w).2 = Ok tt.
Proof.
  intros Hnd Hin Hfailed. unfold retryFailedItems, bind, getPendingQueueItems.
  apply resetItems_keeps; [exact Hin|].
  intros it Hit Hid.
  apply list_elem_of_In, filter_In in Hit as [Hit _].
  apply list_elem_of_In, elem_of_GET_PENDING in Hit as [Hit Hpending].
  assert (it = r) as -> by (eapply same_id_same_row; eauto).
  congruence.
Qed.

Lemma retryFailedItems_leaves_failed_example :
  let r := Examples.item_failed "q1" "d1" 10 in
  let w := Examples.world [Examples.draft_new "d1" (Some "a.m4a")] [r] in
  QueueItem.status r = QueueItem.failed
  /\ r ∈ queue (retryFailedItems w).1 /\ (retryFailedItems w).2 = Ok tt.
Proof.
  cbv zeta. split; [reflexivity|].
  apply retryFailedItems_leaves_failed.
  - simpl. apply NoDup_singleton.
  - simpl. apply list_elem_of_here.
  - reflexivity.
Defined.

(** The part of C5 that holds: in a table with distinct ids
    [retryFailedItems] leaves every retry count as it was. *)
Lemma resetItems_retryCount failedItems : forall (w : World),
  NoDup (List.map QueueItem.id (queue w)) ->
  (forall it, it ∈ failedItems ->
              exists r, r ∈ queue w /\ QueueItem.id r = QueueItem.id it
                        /\ QueueItem.retryCount r = QueueItem.retryCount it) ->
  List.map QueueItem.retryCount (queue (resetItems failedItems w).1)
  = List.map QueueItem.retryCount (queue w).
Proof.
  induction failedItems as [|it rest IH]; intros w Hnd Hrows.
  - reflexivity.
  - cbn [resetItems]. unfold bind, updateQueueItemStatus.
    destruct (Hrows it (list_elem_of_here _ _)) as (r0 & Hr0 & Hid0 & Hrc0).
    assert (Hstep : List.map QueueItem.retryCount
                      (UPDATE_STATUS (QueueItem.id it) QueueItem.pending None
                         (QueueItem.retryCount it) (queue w))
                    = List.map QueueItem.retryCount (queue w)).
    { unfold UPDATE_STATUS. rewrite List.map_map. apply List.map_ext_in.
      intros r Hr. destruct (String.eqb (QueueItem.id r) (QueueItem.id it)) eqn:E;
        [|reflexivity].
      apply String.eqb_eq in E. cbn.
      assert (r = r0) as ->.
      { apply (same_id_same_row (queue w)); auto.
        - apply list_elem_of_In. exact Hr.
        - congruence. }
      symmetry. exact Hrc0. }
    rewrite IH.
    + exact Hstep.
    + cbn [with_queue queue]. rewrite UPDATE_STATUS_ids. exact Hnd.
    + intros it' Hit'.
      destruct (Hrows it' (list_elem_of_further _ _ _ Hit')) as (r & Hr & Hid & Hrc).
      cbn [with_queue queue].
      exists (if String.eqb (QueueItem.id r) (QueueItem.id it)
              then QueueItem.set_status QueueItem.pending None (QueueItem.retryCount it) r
              else r).
      split; [apply elem_of_UPDATE_STATUS; exists r; auto|].
      destruct (String.eqb (QueueItem.id r) (QueueItem.id it)) eqn:E; [|auto].
      apply String.eqb_eq in E. cbn. split; [exact Hid|].
      rewrite <- Hrc. assert (r = r0) as -> by
        (apply (same_id_same_row (queue w)); auto; congruence).
      symmetry. exact Hrc0.
Qed.

Lemma retryFailedItems_keeps_retryCount (w : World) :
  NoDup (List.map QueueItem.id (queue w)) ->
  List.map QueueItem.retryCount (queue (retryFailedItems w).1)
  = List.map QueueItem.retryCount (queue w).
Proof.
  intros Hnd. unfold retryFailedItems, bind, getPendingQueueItems.
  apply resetItems_retryCount; [exact Hnd|].
  intros it Hit. exists it.
  apply list_elem_of_In, filter_In in Hit as [Hit _].
  apply list_elem_of_In, elem_of_GET_PENDING in Hit as [Hit _]. auto.
Qed.

(** *** [processItem] *)

Lemma processItem_unfold cl item w :
  processItem cl item w =
  match processItem_try cl item (mark_processing item w) with
  | (w1, Ok a) => (w1, Ok a)
  | (w1, Throw e) => processItem_catch item e w1
  end.
Proof. reflexivity. Qed.

Lemma processItem_catch_eq item e w :
  processItem_catch item e w =
  (with_queue (UPDATE_STATUS (QueueItem.id item) (status_after_failure item)
                 (Some (errorMessage e)) (QueueItem.retryCount item + 1)%Z) w,
   Throw e).
Proof.
  unfold processItem_catch, status_after_failure.
  destruct (MAX_RETRIES <=? QueueItem.retryCount item + 1)%Z; reflexivity.
Qed.

(** The stages write drafts and call logs, never the queue. *)
Lemma sttStage_queue cl item d w : queue (sttStage cl item d w).1 = queue w.
Proof.
  unfold sttStage, bind, call_transcribe, updateDraftTranscript, ret.
  destruct (wants_stt _); [|reflexivity].
  destruct (_ && _); [|reflexivity]. simpl.
  destruct (transcribe cl _ _); reflexivity.
Qed.

Lemma parseStage_queue cl item w : queue (parseStage cl item w).1 = queue w.
Proof.
  unfold parseStage, bind, getDraftById, call_parseTranscript, updateDraftInvoice, ret.
  destruct (wants_parse _); [|reflexivity].
  destruct (_ && _); [|reflexivity]. simpl.
  destruct (parseTranscript cl _ _); reflexivity.
Qed.

(** How the [try] block ends, in terms of its two stages. *)
Lemma processItem_try_found cl item d w :
  drafts w !! QueueItem.draftId item = Some d ->
  processItem_try cl item w =
  match sttStage cl item d w with
  | (w1, Throw e) => (w1, Throw e)
  | (w1, Ok _) =>
    match parseStage cl item w1 with
    | (w2, Throw e) => (w2, Throw e)
    | (w2, Ok _) =>
      (with_queue (UPDATE_STATUS (QueueItem.id item) QueueItem.completed None
                     (QueueItem.retryCount item)) w2, Ok tt)
    end
  end.
Proof.
  intros Hd. unfold processItem_try, bind at 1, getDraftById. rewrite Hd.
  unfold bind. destruct (sttStage cl item d w) as [w1 [[]|e]]; [|reflexivity].
  destruct (parseStage cl item w1) as [w2 [[]|e]]; reflexivity.
Qed.

Lemma processItem_try_missing cl item w :
  drafts w !! QueueItem.draftId item = None ->
  processItem_try cl item w =
  (w, Throw (PlainError ("Draft " +:+ QueueItem.draftId item +:+ " not found"))).
Proof.
  intros Hd. unfold processItem_try, bind, getDraftById. rewrite Hd. reflexivity.
Qed.

Lemma processItem_try_queue cl item w :
  queue (processItem_try cl item w).1 =
  match (processItem_try cl item w).2 with
  | Ok _ => UPDATE_STATUS (QueueItem.id item) QueueItem.completed None
              (QueueItem.retryCount item) (queue w)
  | Throw _ => queue w
  end.
Proof.
  destruct (drafts w !! QueueItem.draftId item) as [d|] eqn:Hd.
  - rewrite (processItem_try_found _ _ _ _ Hd).
    pose proof (sttStage_queue cl item d w) as H1.
    destruct (sttStage cl item d w) as [w1 [[]|e]]; simpl in *; [|exact H1].
    pose proof (parseStage_queue cl item w1) as H2.
    destruct (parseStage cl item w1) as [w2 [[]|e]]; simpl in *; congruence.
  - rewrite (processItem_try_missing _ _ _ Hd). reflexivity.
Qed.

(** C2, as the code has it: a missing draft is an ordinary failure of the
    item. No client is called; the error is raised again; the item's row
    gets the message and a retry count one higher, and its status is
    ['failed'] only if that count has reached [MAX_RETRIES], otherwise
    ['pending'], so that the next pass picks the item up again. *)
Theorem processItem_missing_draft (cl : Clients) (item : QueueItem.t) (w : World) :
  drafts w !! QueueItem.draftId item = None ->
  let message := "Draft " +:+ QueueItem.draftId item +:+ " not found" in
  processItem cl item w =
  ({| drafts := drafts w;
      queue := UPDATE_STATUS (QueueItem.id item)
                 (if (MAX_RETRIES <=? QueueItem.retryCount item + 1)%Z
                  then QueueItem.failed else QueueItem.pending)
                 (Some message) (QueueItem.retryCount item + 1)%Z (queue w);
      now := now w; sttCalls := sttCalls w; parseCalls := parseCalls w |},
   Throw (PlainError message)).
Proof.
  intros Hd message. rewrite processItem_unfold.
  rewrite processItem_try_missing by exact Hd.
  rewrite processItem_catch_eq. unfold mark_processing, with_queue. simpl.
  rewrite UPDATE_STATUS_twice. reflexivity.
Qed.

Lemma processItem_missing_draft_example :
  let item := Examples.item_new "q1" "gone" QueueItem.both 10 in
  let w := Examples.world [] [item] in
  drafts w !! QueueItem.draftId item = None
  /\ processItem Examples.clients_ok item w =
     (Examples.world []
        [QueueItem.set_status QueueItem.pending (Some "Draft gone not found") 1 item],
      Throw (PlainError "Draft gone not found")).
Proof.
  cbv zeta. split; [reflexivity|].
  rewrite processItem_missing_draft by reflexivity. reflexivity.
Defined.

(** C2 as stated fails: the draft of a fresh item is missing, and after
    [processItem] the item is ['pending'] again, not ['failed']. *)
Lemma processItem_missing_draft_retried :
  let item := Examples.item_new "q1" "gone" QueueItem.both 10 in
  let w := Examples.world [] [item] in
  drafts w !! QueueItem.draftId item = None
  /\ List.map QueueItem.status (queue (processItem Examples.clients_ok item w).1)
     = [QueueItem.pending]
  /\ (getPendingQueueItems (processItem Examples.clients_ok item w).1).2
     = Ok [QueueItem.set_status QueueItem.pending (Some "Draft gone not found") 1 item].
Proof. cbv zeta. split; [reflexivity|]. split; vm_compute; reflexivity. Qed.

(** *** Stage skipping *)

Lemma truthy_string_Some t : t <> "" -> truthy_string (Some t) = true.
Proof. intros H. simpl. apply String.eqb_neq in H. rewrite H. reflexivity. Qed.

Lemma alter_found {A} (f : A -> A) (k : string) (m : gmap string A) (d : A) :
  m !! k = Some d -> alter f k m = <[k := f d]> m.
Proof.
  intros H. apply map_eq. intros j. destruct (decide (k = j)) as [->|Hne].
  - rewrite lookup_alter_eq, lookup_insert_eq, H. reflexivity.
  - rewrite lookup_alter_ne, lookup_insert_ne by exact Hne. reflexivity.
Qed.

(** C7, as the code has it: for an item of type ['both'] whose draft has a
    non-empty transcript and no invoice, [processItem] calls the
    transcription client not at all and the extraction client exactly once,
    on the draft's transcript. If that call returns an invoice, its
    serialization and its average confidence are written to the draft in one
    update and the item succeeds; if it throws, the draft is untouched and
    the error is raised again. *)
Theorem processItem_resumes_at_extraction
    (cl : Clients) (item : QueueItem.t) (d : DraftRecord.t) (t : string) (w : World) :
  QueueItem.type item = QueueItem.both ->
  drafts w !! QueueItem.draftId item = Some d ->
  DraftRecord.transcript d = Some t ->
  t <> "" ->
  DraftRecord.invoiceData d = None ->
  let w' := (processItem cl item w).1 in
  sttCalls w' = sttCalls w
  /\ parseCalls w' = (parseCalls w ++ [t])%list
  /\ match parseTranscript cl (length (parseCalls w)) t with
     | Ok invoice =>
       (processItem cl item w).2 = Ok tt
       /\ drafts w' =
          <[QueueItem.draftId item :=
              DraftRecord.set_invoice (JSON_stringify cl invoice)
                (Gemini.getAverageConfidence invoice) (now w) d]> (drafts w)
     | Throw e =>
       (processItem cl item w).2 = Throw e /\ drafts w' = drafts w
     end.
Proof.
  intros Hty Hd Ht Hne Hinv w'. subst w'.
  rewrite processItem_unfold.
  rewrite (processItem_try_found cl item d (mark_processing item w)) by exact Hd.
  unfold sttStage. rewrite Hty. cbn [wants_stt]. rewrite Ht.
  rewrite (truthy_string_Some t Hne), andb_false_r.
  unfold ret, parseStage. rewrite Hty. cbn [wants_parse].
  unfold bind, getDraftById. cbn [mark_processing with_queue drafts].
  rewrite Hd. cbn [mbind option_bind]. rewrite Ht, Hinv.
  rewrite (truthy_string_Some t Hne). cbn [truthy_string negb andb default].
  unfold call_parseTranscript, updateDraftInvoice, with_drafts, with_queue.
  cbn [parseCalls drafts queue now sttCalls mark_processing with_queue].
  change (Datatypes.id t) with t.
  destruct (parseTranscript cl (length (parseCalls w)) t) as [invoice|e].
  - cbn. repeat split. apply alter_found. exact Hd.
  - rewrite processItem_catch_eq. cbn. repeat split.
Qed.

Lemma processItem_resumes_at_extraction_example :
  let item := Examples.item_new "q1" "d1" QueueItem.both 10 in
  let d := Examples.draft_transcribed "d1" (Some "a.m4a") "2 hours at 500" in
  let w := Examples.world [d] [item] in
  let w' := (processItem Examples.clients_ok item w).1 in
  sttCalls w' = [] /\ parseCalls w' = ["2 hours at 500"]
  /\ (processItem Examples.clients_ok item w).2 = Ok tt
  /\ (drafts w' !! "d1") ≫= DraftRecord.invoiceData = Some "{}".
Proof.
  cbv zeta.
  pose proof (processItem_resumes_at_extraction Examples.clients_ok
                (Examples.item_new "q1" "d1" QueueItem.both 10)
                (Examples.draft_transcribed "d1" (Some "a.m4a") "2 hours at 500")
                "2 hours at 500"
                (Examples.world
                   [Examples.draft_transcribed "d1" (Some "a.m4a") "2 hours at 500"]
                   [Examples.item_new "q1" "d1" QueueItem.both 10])
                eq_refl eq_refl eq_refl ltac:(discriminate) eq_refl)
    as (H1 & H2 & H3 & H4).
  split; [exact H1|]. split; [exact H2|]. split; [exact H3|].
  rewrite H4. reflexivity.
Defined.

(** C7 as stated fails: the draft has a transcript that is not [null] but
    empty (what the transcription client stores when the provider sends no
    text), a recording and no invoice; [processItem] on an item of type
    ['both'] calls the transcription client once. *)
Lemma processItem_retranscribes_empty_transcript :
  let item := Examples.item_new "q1" "d1" QueueItem.both 10 in
  let d := Examples.draft_transcribed "d1" (Some "a.m4a") "" in
  let w := Examples.world [d] [item] in
  QueueItem.type item = QueueItem.both
  /\ DraftRecord.transcript d <> None
  /\ DraftRecord.invoiceData d = None
  /\ drafts w !! QueueItem.draftId item = Some d
  /\ sttCalls w = []
  /\ sttCalls (processItem Examples.clients_ok item w).1 = ["a.m4a"].
Proof.
  cbv zeta. split; [reflexivity|]. split; [discriminate|].
  split; [reflexivity|]. split; [reflexivity|]. split; [reflexivity|].
  vm_compute. reflexivity.
Qed.

(** *** Completion and the stored invoice *)

Lemma parseStage_drafts cl item w w2 :
  wants_parse (QueueItem.type item) = true ->
  parseStage cl item w = (w2, Ok tt) ->
  forall d', drafts w2 !! QueueItem.draftId item = Some d' ->
             truthy_string (DraftRecord.transcript d') = true ->
             DraftRecord.invoiceData d' <> None.
Proof.
  intros Hty. unfold parseStage. rewrite Hty.
  unfold bind, getDraftById.
  destruct (truthy_string (drafts w !! QueueItem.draftId item ≫= DraftRecord.transcript)
            && negb (truthy_string
                       (drafts w !! QueueItem.draftId item ≫= DraftRecord.invoiceData)))
    eqn:Hcond.
  - unfold call_parseTranscript.
    destruct (parseTranscript cl _ _) as [invoice|e]; [|discriminate].
    unfold updateDraftInvoice, with_drafts. intros [= <-] d' Hd' _.
    cbn [drafts] in Hd'. rewrite lookup_alter_eq in Hd'.
    destruct (drafts w !! QueueItem.draftId item) as [d|]; [|discriminate].
    injection Hd' as <-. discriminate.
  - unfold ret. intros [= <-] d' Hd' Htr. rewrite Hd' in Hcond.
    cbn in Hcond. rewrite Htr in Hcond. cbn in Hcond.
    apply negb_false_iff in Hcond.
    destruct (DraftRecord.invoiceData d'); [discriminate | discriminate].
Qed.

(** C3, as the code has it: when [processItem] succeeds, and so has marked
    the item ['completed'], for an item whose type includes the extraction
    stage, the draft has a stored invoice provided it has a non-empty
    transcript. (A draft without a transcript skips the extraction stage,
    and the item is completed all the same.) *)
Theorem processItem_completed_has_invoice
    (cl : Clients) (item : QueueItem.t) (w : World) (d' : DraftRecord.t) :
  wants_parse (QueueItem.type item) = true ->
  (processItem cl item w).2 = Ok tt ->
  drafts (processItem cl item w).1 !! QueueItem.draftId item = Some d' ->
  truthy_string (DraftRecord.transcript d') = true ->
  DraftRecord.invoiceData d' <> None.
Proof.
  intros Hty. rewrite processItem_unfold.
  destruct (drafts (mark_processing item w) !! QueueItem.draftId item) as [d|] eqn:Hd.
  - rewrite (processItem_try_found _ _ _ _ Hd).
    destruct (sttStage cl item d (mark_processing item w)) as [w1 [[]|e]].
    + destruct (parseStage cl item w1) as [w2 [[]|e]] eqn:Hparse.
      * cbn. intros _. apply (parseStage_drafts cl item w1 w2 Hty Hparse).
      * rewrite processItem_catch_eq. discriminate.
    + rewrite processItem_catch_eq. discriminate.
  - rewrite (processItem_try_missing _ _ _ Hd), processItem_catch_eq. discriminate.
Qed.

Lemma processItem_completed_has_invoice_example :
  let item := Examples.item_new "q1" "d1" QueueItem.both 10 in
  let w := Examples.world [Examples.draft_new "d1" (Some "a.m4a")] [item] in
  exists d', drafts (processItem Examples.clients_ok item w).1 !! "d1" = Some d'
             /\ DraftRecord.transcript d' = Some "2 hours at 500"
             /\ DraftRecord.invoiceData d' <> None.
Proof.
  cbv zeta. eexists. split; [vm_compute; reflexivity|]. split; [reflexivity|].
  eapply (processItem_completed_has_invoice Examples.clients_ok
            (Examples.item_new "q1" "d1" QueueItem.both 10)
            (Examples.world [Examples.draft_new "d1" (Some "a.m4a")]
               [Examples.item_new "q1" "d1" QueueItem.both 10])).
  - reflexivity.
  - vm_compute. reflexivity.
  - vm_compute. reflexivity.
  - reflexivity.
Defined.

(** C3 as stated fails: the draft has no transcript; [processItem] completes
    an item of type ['parse'] for it without an invoice, and a pass of
    [processQueue] over the resulting queue, which holds nothing pending,
    leaves the completed row where it is. A pass of [processQueue] over the
    queue as it was counts the item as processed, with the draft still
    without an invoice. *)
Lemma completed_without_invoice :
  let item := Examples.item_new "q1" "d1" QueueItem.parse 10 in
  let w := Examples.world [Examples.draft_new "d1" (Some "a.m4a")] [item] in
  let w1 := (processItem Examples.clients_ok item w).1 in
  let w2 := (processQueue Examples.clients_ok w1).1 in
  completed_has_invoice w
  /\ (processItem Examples.clients_ok item w).2 = Ok tt
  /\ w2 = w1
  /\ (processQueue Examples.clients_ok w).2
     = Ok {| processed := 1; failed := 0; total := 1; errors := [] |}
  /\ (drafts (processQueue Examples.clients_ok w).1 !! "d1")
       ≫= DraftRecord.invoiceData = None
  /\ ~ completed_has_invoice w2.
Proof.
  cbv zeta. split.
  { intros it Hit Hst. apply list_elem_of_singleton in Hit. subst it. discriminate. }
  split; [vm_compute; reflexivity|].
  split; [vm_compute; reflexivity|].
  split; [vm_compute; reflexivity|].
  split; [vm_compute; reflexivity|].
  intros H.
  destruct (H (QueueItem.set_status QueueItem.completed None 0
                 (Examples.item_new "q1" "d1" QueueItem.parse 10)))
    as (d & Hd & Hinv).
  - vm_compute. apply list_elem_of_here.
  - reflexivity.
  - reflexivity.
  - vm_compute in Hd. injection Hd as <-. apply Hinv. reflexivity.
Qed.

(** *** The retry policy *)

Lemma GET_PENDING_single (item : QueueItem.t) :
  QueueItem.status item = QueueItem.pending -> GET_PENDING [item] = [item].
Proof.
  intros H. unfold GET_PENDING. cbn [List.filter]. unfold is_pending. rewrite H.
  reflexivity.
Qed.

Lemma UPDATE_STATUS_single (item : QueueItem.t) s e rc :
  UPDATE_STATUS (QueueItem.id item) s e rc [item] = [QueueItem.set_status s e rc item].
Proof. unfold UPDATE_STATUS. cbn [List.map]. rewrite String.eqb_refl. reflexivity. Qed.

Lemma status_after_failure_not_completed item :
  QueueItem.status_eqb (status_after_failure item) QueueItem.completed = false.
Proof.
  unfold status_after_failure.
  destruct (MAX_RETRIES <=? QueueItem.retryCount item + 1)%Z; reflexivity.
Qed.

(** One pass over a queue that holds a single pending item whose draft has a
    transcript and no invoice, with an extraction client that throws. *)
Lemma processItem_extraction_throws cl e item d t w :
  parseTranscript cl (length (parseCalls w)) t = Throw e ->
  wants_parse (QueueItem.type item) = true ->
  drafts w !! QueueItem.draftId item = Some d ->
  DraftRecord.transcript d = Some t -> t <> "" ->
  DraftRecord.invoiceData d = None ->
  processItem cl item w =
  ({| drafts := drafts w;
      queue := UPDATE_STATUS (QueueItem.id item) (status_after_failure item)
                 (Some (errorMessage e)) (QueueItem.retryCount item + 1)%Z (queue w);
      now := now w; sttCalls := sttCalls w;
      parseCalls := parseCalls w ++ [t] |},
   Throw e).
Proof.
  intros Hthrow Hty Hd Ht Hne Hinv.
  rewrite processItem_unfold.
  rewrite (processItem_try_found cl item d (mark_processing item w)) by exact Hd.
  unfold sttStage. rewrite Ht, (truthy_string_Some t Hne), andb_false_r.
  assert ((if wants_stt (QueueItem.type item) then @ret World unit tt else ret tt)
          = ret tt) as -> by (destruct (wants_stt _); reflexivity).
  unfold ret, parseStage. rewrite Hty.
  unfold bind, getDraftById. cbn [mark_processing with_queue drafts].
  rewrite Hd. cbn [mbind option_bind]. rewrite Ht, Hinv.
  rewrite (truthy_string_Some t Hne). cbn [truthy_string negb andb default from_option].
  change (Datatypes.id t) with t.
  unfold call_parseTranscript.
  cbn [parseCalls drafts queue now sttCalls mark_processing with_queue].
  rewrite Hthrow.
  rewrite processItem_catch_eq. unfold with_queue.
  cbn [drafts queue now sttCalls parseCalls].
  rewrite UPDATE_STATUS_twice. reflexivity.
Qed.

Lemma processQueue_extraction_throws cl e item d t w :
  (forall n s, parseTranscript cl n s = Throw e) ->
  queue w = [item] ->
  QueueItem.status item = QueueItem.pending ->
  wants_parse (QueueItem.type item) = true ->
  drafts w !! QueueItem.draftId item = Some d ->
  DraftRecord.transcript d = Some t -> t <> "" ->
  DraftRecord.invoiceData d = None ->
  processQueue cl w =
  ({| drafts := drafts w;
      queue := [QueueItem.set_status (status_after_failure item)
                  (Some (errorMessage e)) (QueueItem.retryCount item + 1)%Z item];
      now := now w; sttCalls := sttCalls w;
      parseCalls := parseCalls w ++ [t] |},
   Ok {| processed := 0; failed := 1; total := 1;
         errors := [(QueueItem.id item, errorMessage e)] |}).
Proof.
  intros Hthrow Hq Hst Hty Hd Ht Hne Hinv.
  unfold processQueue, bind at 1, getPendingQueueItems.
  rewrite Hq, (GET_PENDING_single item Hst). cbn [length Nat.eqb processItems].
  unfold bind, attempt.
  rewrite (processItem_extraction_throws cl e item d t w (Hthrow _ _) Hty Hd Ht Hne Hinv).
  rewrite Hq, UPDATE_STATUS_single.
  unfold ret, deleteCompletedQueueItems, with_queue, DELETE_COMPLETED.
  cbn. rewrite status_after_failure_not_completed. reflexivity.
Qed.

(** C6: when the [try] block of [processItem] throws (a stage has raised),
    [processItem] raises the same error again, and the item's row gets the
    error message, a retry count one above the item's, and the status
    ['failed'] if that count has reached 3 and ['pending'] otherwise. In
    particular, with an extraction client that always throws, three passes
    of [processQueue] over a queue holding one fresh item whose draft has a
    transcript and no invoice leave the item ['failed'] with retry count 3,
    the drafts (transcript set, no invoice) as they were, and the
    transcription client never called. *)
Theorem processItem_retry_policy :
  (forall (cl : Clients) (item : QueueItem.t) (w w1 : World) (e : thrown),
      processItem_try cl item (mark_processing item w) = (w1, Throw e) ->
      (processItem cl item w).2 = Throw e
      /\ drafts (processItem cl item w).1 = drafts w1
      /\ queue (processItem cl item w).1 =
         UPDATE_STATUS (QueueItem.id item)
           (if (3 <=? QueueItem.retryCount item + 1)%Z
            then QueueItem.failed else QueueItem.pending)
           (Some (errorMessage e)) (QueueItem.retryCount item + 1)%Z (queue w)
      /\ List.map QueueItem.id (queue (processItem cl item w).1)
         = List.map QueueItem.id (queue w)
      /\ (forall r, r ∈ queue (processItem cl item w).1 ->
                    QueueItem.id r = QueueItem.id item ->
                    QueueItem.retryCount r = (QueueItem.retryCount item + 1)%Z
                    /\ QueueItem.lastError r = Some (errorMessage e)
                    /\ QueueItem.status r =
                       if (3 <=? QueueItem.retryCount item + 1)%Z
                       then QueueItem.failed else QueueItem.pending))
  /\ (forall (cl : Clients) (e : thrown) (item : QueueItem.t) (d : DraftRecord.t)
             (t : string) (w : World),
         (forall n s, parseTranscript cl n s = Throw e) ->
         queue w = [item] ->
         QueueItem.status item = QueueItem.pending ->
         QueueItem.retryCount item = 0 ->
         wants_parse (QueueItem.type item) = true ->
         drafts w !! QueueItem.draftId item = Some d ->
         DraftRecord.transcript d = Some t -> t <> "" ->
         DraftRecord.invoiceData d = None ->
         let w3 := (processQueue cl (processQueue cl (processQueue cl w).1).1).1 in
         queue w3 = [QueueItem.set_status QueueItem.failed (Some (errorMessage e)) 3 item]
         /\ drafts w3 = drafts w
         /\ sttCalls w3 = sttCalls w
         /\ parseCalls w3 = (parseCalls w ++ [t; t; t])%list).
Proof.
  split.
  - intros cl item w w1 e Htry. rewrite processItem_unfold, Htry, processItem_catch_eq.
    cbn [fst snd with_queue drafts queue]. split; [reflexivity|]. split; [reflexivity|].
    pose proof (processItem_try_queue cl item (mark_processing item w)) as Hq.
    rewrite Htry in Hq. cbn [fst snd] in Hq. rewrite Hq.
    unfold mark_processing. cbn [with_queue queue].
    rewrite UPDATE_STATUS_twice. split; [reflexivity|].
    split; [apply UPDATE_STATUS_ids|].
    intros r Hr Hid. destruct (UPDATE_STATUS_hit _ _ _ _ _ _ Hr Hid) as (H1 & H2 & H3).
    auto.
  - intros cl e item d t w Hthrow Hq Hst Hrc Hty Hd Ht Hne Hinv w3. subst w3.
    set (item1 := QueueItem.set_status QueueItem.pending (Some (errorMessage e)) 1 item).
    set (item2 := QueueItem.set_status QueueItem.pending (Some (errorMessage e)) 2 item).
    set (w1 := {| drafts := drafts w; queue := [item1]; now := now w;
                  sttCalls := sttCalls w; parseCalls := parseCalls w ++ [t] |}).
    set (w2 := {| drafts := drafts w; queue := [item2]; now := now w;
                  sttCalls := sttCalls w; parseCalls := (parseCalls w ++ [t]) ++ [t] |}).
    assert (H1 : (processQueue cl w).1 = w1).
    { rewrite (processQueue_extraction_throws cl e item d t w) by assumption.
      unfold status_after_failure. rewrite Hrc. reflexivity. }
    assert (H2 : (processQueue cl w1).1 = w2).
    { rewrite (processQueue_extraction_throws cl e item1 d t w1 Hthrow eq_refl eq_refl
                 Hty Hd Ht Hne Hinv).
      reflexivity. }
    rewrite H1, H2.
    rewrite (processQueue_extraction_throws cl e item2 d t w2 Hthrow eq_refl eq_refl
               Hty Hd Ht Hne Hinv).
    subst w2. cbn [fst drafts queue sttCalls parseCalls].
    split; [reflexivity|]. split; [reflexivity|]. split; [reflexivity|].
    rewrite <- !(assoc_L (++)). reflexivity.
Qed.

Lemma processItem_retry_policy_example :
  let item := Examples.item_new "q1" "d1" QueueItem.both 10 in
  let d := Examples.draft_transcribed "d1" (Some "a.m4a") "2 hours at 500" in
  let w := Examples.world [d] [item] in
  let cl := Examples.clients_no_extraction in
  let w3 := (processQueue cl (processQueue cl (processQueue cl w).1).1).1 in
  ((processItem cl item w).2 = Throw Examples.network_down
   /\ queue (processItem cl item w).1
      = [QueueItem.set_status QueueItem.pending (Some "Network request failed") 1 item])
  /\ queue w3
     = [QueueItem.set_status QueueItem.failed (Some "Network request failed") 3 item]
  /\ drafts w3 !! "d1" = Some d
  /\ DraftRecord.transcript d = Some "2 hours at 500"
  /\ DraftRecord.invoiceData d = None.
Proof.
  cbv zeta. split.
  - destruct (proj1 processItem_retry_policy Examples.clients_no_extraction
                (Examples.item_new "q1" "d1" QueueItem.both 10)
                (Examples.world
                   [Examples.draft_transcribed "d1" (Some "a.m4a") "2 hours at 500"]
                   [Examples.item_new "q1" "d1" QueueItem.both 10])
                _ Examples.network_down ltac:(vm_compute; reflexivity))
      as (H1 & _ & H3 & _).
    split; [exact H1|]. rewrite H3. reflexivity.
  - destruct (proj2 processItem_retry_policy Examples.clients_no_extraction
                Examples.network_down
                (Examples.item_new "q1" "d1" QueueItem.both 10)
                (Examples.draft_transcribed "d1" (Some "a.m4a") "2 hours at 500")
                "2 hours at 500"
                (Examples.world
                   [Examples.draft_transcribed "d1" (Some "a.m4a") "2 hours at 500"]
                   [Examples.item_new "q1" "d1" QueueItem.both 10])
                ltac:(reflexivity) eq_refl eq_refl eq_refl eq_refl eq_refl eq_refl
                ltac:(discriminate) eq_refl)
      as (H1 & H2 & _ & _).
    split; [exact H1|]. split; [rewrite H2; reflexivity|]. split; reflexivity.
Defined.

(** The same with a draft that has a recording and no transcript yet: the
    first pass transcribes and stores the transcript, the extraction fails
    three times, and the transcription client has been called once in all. *)
Example three_passes_after_transcription :
  let item := Examples.item_new "q1" "d1" QueueItem.both 10 in
  let w := Examples.world [Examples.draft_new "d1" (Some "a.m4a")] [item] in
  let cl := Examples.clients_no_extraction in
  let w3 := (processQueue cl (processQueue cl (processQueue cl w).1).1).1 in
  queue w3 = [QueueItem.set_status QueueItem.failed (Some "Network request failed") 3 item]
  /\ (drafts w3 !! "d1") ≫= DraftRecord.transcript = Some "2 hours at 500"
  /\ (drafts w3 !! "d1") ≫= DraftRecord.invoiceData = None
  /\ sttCalls w3 = ["a.m4a"]
  /\ parseCalls w3 = ["2 hours at 500"; "2 hours at 500"; "2 hours at 500"].
Proof. cbv zeta. repeat split; vm_compute; reflexivity. Qed.

(** The scenario of the specification in which both clients answer. *)
Example one_pass_completes :
  let item := Examples.item_new "q1" "d1" QueueItem.both 10 in
  let w := Examples.world [Examples.draft_new "d1" (Some "a.m4a")] [item] in
  let w1 := (processQueue Examples.clients_ok w).1 in
  (processQueue Examples.clients_ok w).2
  = Ok {| processed := 1; failed := 0; total := 1; errors := [] |}
  /\ queue w1 = []
  /\ (drafts w1 !! "d1") ≫= DraftRecord.transcript = Some "2 hours at 500"
  /\ (drafts w1 !! "d1") ≫= DraftRecord.invoiceData = Some "{}".
Proof. cbv zeta. repeat split; vm_compute; reflexivity. Qed.

End QueueProps.

(** ** Properties of the sync orchestrator *)

Module SyncProps.
Import Sync.

Lemma too_soon_within clock g t :
  lastSyncAt g = Some t -> t <> 0 -> clock - t < MIN_SYNC_INTERVAL_MS ->
  too_soon clock g = true.
Proof.
  intros Hl Ht Hlt. unfold too_soon. rewrite Hl.
  apply Z.eqb_neq in Ht. rewrite Ht. apply Z.ltb_lt in Hlt. rewrite Hlt. reflexivity.
Qed.

Lemma is_syncing_false s : s <> syncing -> is_syncing s = false.
Proof. destruct s; try reflexivity. intros H. contradiction. Qed.

(** While a pass is in flight a call returns at once with [success: false],
    changes nothing and calls nothing. *)
Lemma syncNow_while_syncing clock g :
  syncState g = syncing ->
  syncNow_step clock g Called Enter =
  (g, Returned {| success := false; processResult := None;
                  error_message := Some "Sync already in progress" |}, []).
Proof. intros H. unfold syncNow_step. rewrite H. reflexivity. Qed.

(** The state a pass leaves behind: it has ended at [clock]. *)
Lemma updateState_ends clock s err g :
  ends_a_sync s = true ->
  syncState (updateState clock s err g) = s
  /\ lastSyncAt (updateState clock s err g) = Some clock.
Proof. intros H. unfold updateState, notifyListeners. cbn. rewrite H. auto. Qed.

Lemma syncNow_pass_ends cl net s1 e1 g w g1 w1 r1 :
  syncNow cl net s1 e1 (g, w) = (g1, w1, r1, 1%nat) ->
  syncState g1 <> syncing /\ lastSyncAt g1 = Some e1.
Proof.
  unfold syncNow.
  destruct (syncNow_step s1 g Called Enter) as [[g' t'] es'] eqn:E1.
  destruct t'; try (intros [= _ _ _ ?]; discriminate).
  destruct (syncNow_step s1 g' AwaitNetwork (NetworkStateIs (Ok net)))
    as [[g'' t''] es''] eqn:E2.
  destruct t''; try (intros [= _ _ _ ?]; discriminate).
  destruct (Queue.processQueue cl w) as [w' r].
  unfold syncNow_step at 1.
  destruct r as [result|e].
  - destruct (0 <? Queue.failed result)%nat; intros [= <- _ _];
      (split; [|apply updateState_ends; reflexivity]);
      unfold updateState, notifyListeners; cbn; discriminate.
  - intros [= <- _ _].
    split; [|apply updateState_ends; reflexivity].
    unfold updateState, notifyListeners; cbn; discriminate.
Qed.

Lemma syncNow_at_most_one cl net s e st :
  ((syncNow cl net s e st).2 <= 1)%nat.
Proof.
  destruct st as [g w]. unfold syncNow.
  destruct (syncNow_step s g Called Enter) as [[g' t'] es'].
  destruct t'; cbn [snd]; try lia.
  destruct (syncNow_step s g' AwaitNetwork (NetworkStateIs (Ok net))) as [[g'' t''] es''].
  destruct t''; cbn [snd]; try lia.
  destruct (Queue.processQueue cl w) as [w' r].
  destruct (syncNow_step e g'' AwaitQueue (ProcessQueueGave r)) as [[g3 t3] es3].
  cbn [snd]. lia.
Qed.

(** C8: called while the state is not ['syncing'] and less than 30000 ms
    after the last sync ended, [syncNow] returns
    [{success: true}] without a [processResult] before its first [await]:
    the service is unchanged and nothing is called, [processQueue] in
    particular. Hence of two calls made one after the other, the second
    entered less than 30000 ms after the pass of the first ended, at most one
    runs [processQueue], and if the first did, the second returns
    [{success: true}] without a [processResult]. Time stamps are
    milliseconds after the epoch, hence positive ([lastSyncAt &&] would read
    a time stamp of 0 as no sync at all). *)
Theorem syncNow_rate_limited :
  (forall (clock t : Z) (g : Globals),
      syncState g <> syncing ->
      lastSyncAt g = Some t -> 0 < t ->
      clock - t < 30000 ->
      syncNow_step clock g Called Enter = (g, Returned skipped, [])
      /\ forall cl net t_end w,
           syncNow cl net clock t_end (g, w) = (g, w, Returned skipped, 0%nat))
  /\ (forall (cl : Queue.Clients) (net1 net2 : NetworkState) (s1 e1 s2 e2 : Z)
             (g : Globals) (w : Db.World),
         0 < e1 ->
         s2 - e1 < 30000 ->
         let '(g1, w1, r1, n1) := syncNow cl net1 s1 e1 (g, w) in
         let '(g2, w2, r2, n2) := syncNow cl net2 s2 e2 (g1, w1) in
         (n1 + n2 <= 1)%nat
         /\ (n1 = 1%nat -> r2 = Returned skipped /\ g2 = g1 /\ w2 = w1)).
Proof.
  assert (Hstep : forall clock t g,
             syncState g <> syncing -> lastSyncAt g = Some t -> 0 < t ->
             clock - t < 30000 ->
             syncNow_step clock g Called Enter = (g, Returned skipped, [])).
  { intros clock t g Hs Hl Ht Hlt. unfold syncNow_step.
    rewrite (is_syncing_false _ Hs), (too_soon_within clock g t Hl ltac:(lia) Hlt).
    reflexivity. }
  split.
  - intros clock t g Hs Hl Ht Hlt. split; [eapply Hstep; eauto|].
    intros cl net t_end w. unfold syncNow. rewrite (Hstep clock t g Hs Hl Ht Hlt).
    reflexivity.
  - intros cl net1 net2 s1 e1 s2 e2 g w He Hlt.
    destruct (syncNow cl net1 s1 e1 (g, w)) as [[[g1 w1] r1] n1] eqn:E1.
    destruct (syncNow cl net2 s2 e2 (g1, w1)) as [[[g2 w2] r2] n2] eqn:E2.
    pose proof (syncNow_at_most_one cl net1 s1 e1 (g, w)) as B1.
    pose proof (syncNow_at_most_one cl net2 s2 e2 (g1, w1)) as B2.
    rewrite E1 in B1. rewrite E2 in B2. cbn in B1, B2.
    assert (Hone : n1 = 1%nat -> r2 = Returned skipped /\ g2 = g1 /\ w2 = w1 /\ n2 = 0%nat).
    { intros ->. destruct (syncNow_pass_ends _ _ _ _ _ _ _ _ _ E1) as [Hs Hl].
      unfold syncNow in E2. rewrite (Hstep s2 e1 g1 Hs Hl He Hlt) in E2.
      injection E2 as <- <- <- <-. auto. }
    split.
    + destruct (decide (n1 = 1%nat)) as [H1|H1].
      * destruct (Hone H1) as (_ & _ & _ & ->). lia.
      * lia.
    + intros H1. destruct (Hone H1) as (? & ? & ? & _). auto.
Qed.

Lemma syncNow_rate_limited_example :
  let g := Examples.service_synced 1700000000000 in
  let w := Examples.world [Examples.draft_new "d1" (Some "a.m4a")]
             [Examples.item_new "q1" "d1" QueueItem.both 10] in
  syncNow Examples.clients_ok Examples.online 1700000029999 1700000031000 (g, w)
  = (g, w, Returned skipped, 0%nat)
  /\ (syncNow Examples.clients_ok Examples.online 1700000040000 1700000041000
        (Examples.service_idle, w)).2 = 1%nat
  /\ let '(g1, w1, r1, n1) :=
       syncNow Examples.clients_ok Examples.online 1700000040000 1700000041000
         (Examples.service_idle, w) in
     let '(g2, w2, r2, n2) :=
       syncNow Examples.clients_ok Examples.online 1700000070999 1700000072000
         (g1, w1) in
     (n1 + n2 <= 1)%nat
     /\ (n1 = 1%nat -> r2 = Returned skipped /\ g2 = g1 /\ w2 = w1).
Proof.
  cbv zeta. split.
  - apply (proj1 syncNow_rate_limited 1700000029999 1700000000000
             (Examples.service_synced 1700000000000)
             ltac:(discriminate) eq_refl ltac:(reflexivity) ltac:(reflexivity)).
  - split; [vm_compute; reflexivity|].
    apply (proj2 syncNow_rate_limited Examples.clients_ok Examples.online
             Examples.online 1700000040000 1700000041000 1700000070999 1700000072000
             Examples.service_idle
             (Examples.world [Examples.draft_new "d1" (Some "a.m4a")]
                [Examples.item_new "q1" "d1" QueueItem.both 10])
             ltac:(reflexivity) ltac:(reflexivity)).
Defined.

Lemma turn_runs (s : System) (tn : Turn) (t : Task) :
  tasks s !! who tn = Some t ->
  turn s tn =
  {| globals := (syncNow_step (at_time tn) (globals s) t (resume tn)).1.1;
     tasks := <[who tn := (syncNow_step (at_time tn) (globals s) t (resume tn)).1.2]>
                (tasks s);
     effects := effects s ++ (syncNow_step (at_time tn) (globals s) t (resume tn)).2 |}.
Proof.
  intros H. unfold turn. rewrite H.
  destruct (syncNow_step (at_time tn) (globals s) t (resume tn)) as [[g' t'] es].
  reflexivity.
Qed.

(** C4, where the code departs from it: the check of the ['syncing'] state
    is made when the call enters, the write of ['syncing'] only after
    [await Network.getNetworkStateAsync()]. When a second call enters while
    the first waits for the probe, both pass the check, and once both probes
    have answered online each has set ['syncing'] and invoked
    [processQueue]: two passes are in flight. *)
Theorem syncNow_two_passes_in_flight
    (g : Globals) (c1 c2 c3 c4 : Z) (net1 net2 : NetworkState) :
  syncState g <> syncing ->
  too_soon c1 g = false -> too_soon c2 g = false ->
  is_offline net1 = false -> is_offline net2 = false ->
  let s := schedule {| globals := g; tasks := [Called; Called]; effects := [] |}
             (Examples.two_calls_interleaved c1 c2 c3 c4 net1 net2) in
  tasks s = [AwaitQueue; AwaitQueue]
  /\ syncState (globals s) = syncing
  /\ passes s = 2%nat.
Proof.
  intros Hs H1 H2 Hn1 Hn2.
  unfold schedule, Examples.two_calls_interleaved. cbn [fold_left].
  assert (E1 : forall c, too_soon c g = false ->
                         syncNow_step c g Called Enter = (g, AwaitNetwork, [GetNetworkState])).
  { intros c Hc. unfold syncNow_step. rewrite (is_syncing_false _ Hs), Hc. reflexivity. }
  assert (E2 : forall c g' net, is_offline net = false ->
                 syncNow_step c g' AwaitNetwork (NetworkStateIs (Ok net))
                 = (updateState c syncing None g', AwaitQueue, [ProcessQueue])).
  { intros c g' net Hn. unfold syncNow_step. rewrite Hn. reflexivity. }
  set (s0 := {| globals := g; tasks := [Called; Called]; effects := [] |}).
  set (s1 := {| globals := g; tasks := [AwaitNetwork; Called];
                effects := [GetNetworkState] |}).
  set (s2 := {| globals := g; tasks := [AwaitNetwork; AwaitNetwork];
                effects := [GetNetworkState; GetNetworkState] |}).
  set (s3 := {| globals := updateState c3 syncing None g;
                tasks := [AwaitQueue; AwaitNetwork];
                effects := [GetNetworkState; GetNetworkState; ProcessQueue] |}).
  assert (T1 : turn s0 {| who := 0; at_time := c1; resume := Enter |} = s1).
  { rewrite (turn_runs s0 {| who := 0; at_time := c1; resume := Enter |} Called eq_refl).
    cbn [tasks who at_time resume globals effects s0]. rewrite (E1 c1 H1). reflexivity. }
  assert (T2 : turn s1 {| who := 1; at_time := c2; resume := Enter |} = s2).
  { rewrite (turn_runs s1 {| who := 1; at_time := c2; resume := Enter |} Called eq_refl).
    cbn [tasks who at_time resume globals effects s1]. rewrite (E1 c2 H2). reflexivity. }
  assert (T3 : turn s2 {| who := 0; at_time := c3;
                          resume := NetworkStateIs (Ok net1) |} = s3).
  { rewrite (turn_runs s2 {| who := 0; at_time := c3; resume := NetworkStateIs (Ok net1) |}
               AwaitNetwork eq_refl).
    cbn [tasks who at_time resume globals effects s2].
    rewrite (E2 c3 g net1 Hn1). reflexivity. }
  rewrite T1, T2, T3.
  rewrite (turn_runs s3 {| who := 1; at_time := c4; resume := NetworkStateIs (Ok net2) |}
             AwaitNetwork eq_refl).
  cbn [tasks who at_time resume globals effects s3].
  rewrite (E2 c4 _ net2 Hn2).
  cbn [fst snd insert list_insert app tasks globals effects].
  split; [reflexivity|]. split; reflexivity.
Qed.

Lemma syncNow_two_passes_in_flight_example :
  let s := schedule
             {| globals := Examples.service_idle; tasks := [Called; Called];
                effects := [] |}
             (Examples.two_calls_interleaved 1700000000000 1700000000005
                1700000000040 1700000000045 Examples.online Examples.online) in
  tasks s = [AwaitQueue; AwaitQueue]
  /\ syncState (globals s) = syncing
  /\ passes s = 2%nat.
Proof.
  apply (syncNow_two_passes_in_flight Examples.service_idle
           1700000000000 1700000000005 1700000000040 1700000000045
           Examples.online Examples.online
           ltac:(discriminate) eq_refl eq_refl eq_refl eq_refl).
Defined.

End SyncProps.

(** ** Properties of the extraction client *)

Module GeminiProps.
Import Gemini.
Local Open Scope M_scope.

(** *** The retry loop and the fallback *)

(** An attempt sends one request, however it ends. *)
Lemma parseAttempt_sent pf attempt transcript options sent :
  (parseAttempt pf attempt transcript options sent).1
  = (sent ++ [mainRequest pf transcript options])%list.
Proof.
  unfold parseAttempt, bind, call_fetch, settle, throw, ret.
  destruct (fetch pf (length sent) (mainRequest pf transcript options))
    as [e|ok status [data|e]]; try reflexivity.
  destruct (negb ok || bool_decide (is_Some (error data))).
  - destruct ((status =? 401)%Z || (status =? 403)%Z); [reflexivity|].
    destruct (status =? 429)%Z; [reflexivity|].
    destruct (500 <=? status)%Z; reflexivity.
  - destruct (negb (truthy_string (text data))); [reflexivity|].
    destruct (JSON_parse pf _) as [[|raw]|]; reflexivity.
Qed.

Lemma retryLoop_turn_fails pf remaining attempt transcript options lastError sent e :
  (parseAttempt pf attempt transcript options sent).2 = Throw e ->
  is_final e = false ->
  retryLoop pf (S remaining) attempt transcript options lastError sent
  = retryLoop pf remaining (attempt + 1) transcript options (Some (kept_error e))
      (sent ++ [mainRequest pf transcript options])%list.
Proof.
  intros Hthrow Hfinal. cbn [retryLoop]. unfold bind at 1, Js.attempt.
  pose proof (parseAttempt_sent pf attempt transcript options sent) as Hs.
  destruct (parseAttempt pf attempt transcript options sent) as [sent' r].
  cbn in Hthrow, Hs. subst. rewrite Hfinal. reflexivity.
Qed.

Lemma fallbackParse_outcome pf transcript options sent :
  fallbackParse pf transcript options sent
  = ((sent ++ [fallbackRequest pf transcript options])%list,
     fallback_outcome pf transcript options
       (fetch pf (length sent) (fallbackRequest pf transcript options))).
Proof.
  unfold fallbackParse, fallback_outcome, bind, call_fetch, settle, throw, ret.
  destruct (fetch pf (length sent) (fallbackRequest pf transcript options))
    as [e|[|] status [data|e]]; try reflexivity.
  cbn [negb]. destruct (truthy_string (text data)); [|reflexivity].
  cbn [negb]. destruct (JSON_parse pf _) as [[|raw]|]; reflexivity.
Qed.

Lemma emptyInvoice_shape pf transcript options :
  items (emptyInvoice pf transcript options) = []
  /\ notes (emptyInvoice pf transcript options)
     = "Failed to parse transcript. Please add items manually."
  /\ total (emptyInvoice pf transcript options) = 0%float.
Proof. repeat split. Qed.

(** C9, as the code has it: when each of the three attempts of the main
    loop has thrown a retryable error, [parseTranscript] sends exactly one
    more request, the fallback prompt with an output budget of 512 tokens
    instead of 1024. What it returns depends on the answer to that request:
    an answer that is OK and has text yields the invoice read from the text
    or, when the text cannot be read as an invoice, the empty invoice with
    its note; a request that fails (rejected, not OK, no body, no text) makes
    [parseTranscript] throw the error the main loop kept last. *)
Theorem parseTranscript_exhausted
    (pf : Platform) (transcript : string) (options : option InvoiceExtractionOptions)
    (sent : list Request) (e0 e1 e2 : thrown) :
  let main := mainRequest pf transcript options in
  let fallback := fallbackRequest pf transcript None in
  let answer := fetch pf (length sent + 3)%nat fallback in
  is_blank transcript = false ->
  (parseAttempt pf 0 transcript options sent).2 = Throw e0 ->
  is_final e0 = false ->
  (parseAttempt pf 1 transcript options (sent ++ [main])).2 = Throw e1 ->
  is_final e1 = false ->
  (parseAttempt pf 2 transcript options (sent ++ [main; main])).2 = Throw e2 ->
  is_final e2 = false ->
  (parseTranscript pf transcript options sent).1
  = (sent ++ [main; main; main; fallback])%list
  /\ (maxOutputTokens fallback = 512 /\ maxOutputTokens main = 1024)
  /\ (parseTranscript pf transcript options sent).2
     = match fallback_outcome pf transcript None answer with
       | Ok invoice => Ok invoice
       | Throw _ => Throw (kept_error e2)
       end
  /\ (forall status data,
         answer = Response true status (Ok data) ->
         truthy_string (text data) = true ->
         (forall raw, JSON_parse pf (extractJSON pf (default "" (text data)))
                      <> Some (Shaped raw)) ->
         (parseTranscript pf transcript options sent).2
         = Ok (emptyInvoice pf transcript None))
  /\ (forall status json,
         answer = Response false status json ->
         (parseTranscript pf transcript options sent).2 = Throw (kept_error e2))
  /\ (forall e,
         answer = FetchRejects e ->
         (parseTranscript pf transcript options sent).2 = Throw (kept_error e2)).
Proof.
  intros main fallback answer Hblank H0 F0 H1 F1 H2 F2.
  assert (Hrun : parseTranscript pf transcript options sent
                 = ((sent ++ [main; main; main; fallback])%list,
                    match fallback_outcome pf transcript None answer with
                    | Ok invoice => Ok invoice
                    | Throw _ => Throw (kept_error e2)
                    end)).
  { unfold parseTranscript. rewrite Hblank. unfold bind at 1.
    change (Z.to_nat MAX_RETRIES) with 3%nat.
    rewrite (retryLoop_turn_fails pf 2 0 transcript options None sent e0 H0 F0).
    fold main. change (0 + 1) with 1.
    rewrite (retryLoop_turn_fails pf 1 1 transcript options _ _ e1 H1 F1).
    fold main. change (1 + 1) with 2. rewrite <- (assoc_L (++)).
    change ([main] ++ [main])%list with [main; main].
    rewrite (retryLoop_turn_fails pf 0 2 transcript options _ _ e2 H2 F2).
    fold main. rewrite <- (assoc_L (++)).
    change ([main; main] ++ [main])%list with [main; main; main].
    cbn [retryLoop]. unfold ret, try_catch. rewrite fallbackParse_outcome.
    fold fallback. rewrite length_app. cbn [length].
    fold answer. rewrite <- (assoc_L (++)).
    change ([main; main; main] ++ [fallback])%list with [main; main; main; fallback].
    destruct (fallback_outcome pf transcript None answer); reflexivity. }
  rewrite Hrun. cbn [fst snd].
  split; [reflexivity|]. split; [split; reflexivity|]. split; [reflexivity|].
  split; [|split].
  - intros status data Ha Htext Hparse. rewrite Ha. cbn [fallback_outcome].
    rewrite Htext.
    destruct (JSON_parse pf (extractJSON pf (default "" (text data)))) as [[|raw]|];
      try reflexivity.
    exfalso. apply (Hparse raw). reflexivity.
  - intros status json Ha. rewrite Ha. reflexivity.
  - intros e Ha. rewrite Ha. reflexivity.
Qed.

Lemma parseTranscript_exhausted_example :
  let pf := Examples.platform_garbled in
  (parseTranscript pf "2 hours at 500" None []).1
  = [mainRequest pf "2 hours at 500" None; mainRequest pf "2 hours at 500" None;
     mainRequest pf "2 hours at 500" None; fallbackRequest pf "2 hours at 500" None]
  /\ (parseTranscript pf "2 hours at 500" None []).2
     = Ok (emptyInvoice pf "2 hours at 500" None).
Proof.
  cbv zeta.
  destruct (parseTranscript_exhausted Examples.platform_garbled "2 hours at 500" None []
              (GeminiError PARSE_ERROR "Failed to parse Gemini response as JSON" true)
              (GeminiError PARSE_ERROR "Failed to parse Gemini response as JSON" true)
              (GeminiError PARSE_ERROR "Failed to parse Gemini response as JSON" true)
              eq_refl eq_refl eq_refl eq_refl eq_refl eq_refl eq_refl)
    as (Hsent & _ & _ & Hempty & _).
  split; [exact Hsent|].
  apply (Hempty 200 {| text := Some "Sorry, I cannot help with that."; error := None |}).
  - reflexivity.
  - reflexivity.
  - intros raw. discriminate.
Defined.

(** C9 as stated fails: when the fallback request fails as the three before
    it did, [parseTranscript] raises, and returns no invoice. *)
Lemma parseTranscript_raises_when_fallback_fails :
  parseTranscript Examples.platform_down "2 hours at 500" None []
  = ([mainRequest Examples.platform_down "2 hours at 500" None;
      mainRequest Examples.platform_down "2 hours at 500" None;
      mainRequest Examples.platform_down "2 hours at 500" None;
      fallbackRequest Examples.platform_down "2 hours at 500" None],
     Throw (GeminiError API_ERROR "HTTP 503" true)).
Proof. vm_compute. reflexivity. Qed.

(** *** The arithmetic of [transformToInvoice] *)



Lemma or_else_number v d :
  PrimFloat.is_nan d = false -> PrimFloat.is_nan (or_else v d) = false.
Proof.
  intros Hd. destruct v as [| |x]; cbn; try exact Hd.
  unfold truthy_float. destruct (PrimFloat.is_nan x) eqn:Hx.
  - rewrite andb_false_r. exact Hd.
  - destruct (negb (PrimFloat.eqb x 0)); cbn; [exact Hx | exact Hd].
Qed.


Lemma max0_nonneg_or_nan (y : float) :
  PrimFloat.leb 0 (max0 y) = true \/ PrimFloat.is_nan (max0 y) = true.
Proof.
  unfold max0. destruct (PrimFloat.leb 0 y) eqn:Hle.
  - left. destruct (PrimFloat.eqb y 0); [reflexivity | exact Hle].
  - destruct (PrimFloat.ltb y 0); [left | right]; reflexivity.
Qed.

(** The amount is not below zero unless it is [NaN]. *)
Lemma transformItem_amount_nonneg_or_nan now index item :
  PrimFloat.leb 0 (amount (transformItem now index item)) = true
  \/ PrimFloat.is_nan (amount (transformItem now index item)) = true.
Proof. cbn [transformItem amount]. apply max0_nonneg_or_nan. Qed.

(** The part of C10 about the totals: they are computed from the items and
    the two percentages, and the totals the model sent play no part. *)
Lemma transformToInvoice_totals now iso raw transcript :
  let invoice := transformToInvoice now iso raw transcript in
  let sum := sumAmounts (items invoice) in
  let tax := PrimFloat.mul sum (PrimFloat.div (taxPercent invoice) 100) in
  let discount := PrimFloat.mul sum (PrimFloat.div (discountPercent invoice) 100) in
  subtotal invoice = round2 sum
  /\ taxAmount invoice = round2 tax
  /\ discountAmount invoice = round2 discount
  /\ total invoice = round2 (PrimFloat.sub (PrimFloat.add sum tax) discount).
Proof. repeat split. Qed.

Lemma transformToInvoice_ignores_totals now iso raw transcript
    subtotal taxAmount discountAmount total :
  transformToInvoice now iso (with_totals subtotal taxAmount discountAmount total raw)
    transcript
  = transformToInvoice now iso raw transcript.
Proof. reflexivity. Qed.

(** C10, where the code departs from it: the model's answer has an item
    with a unit price and neither quantity nor amount. The quantity defaults
    to 1, but the amount is computed from the quantity as sent,
    [undefined * 500], and [Math.max(0, NaN)] is [NaN]: the amount is not a
    number not below zero, and the subtotal, the tax and the total are [NaN]
    with it. *)
Theorem transformToInvoice_amount_nan :
  let invoice :=
    transformToInvoice 1700000100000 "2023-11-14T22:15:00.000Z"
      Examples.raw_without_amount "one consultation at 500" in
  List.map quantity (items invoice) = [1%float]
  /\ List.map unitPrice (items invoice) = [500%float]
  /\ List.map amount (items invoice) = [nan]
  /\ subtotal invoice = nan
  /\ taxPercent invoice = 18%float
  /\ taxAmount invoice = nan
  /\ total invoice = nan
  /\ PrimFloat.leb 0 nan = false.
Proof. cbv zeta. repeat split. Qed.

(** The same happens to an item whose fields are all numbers when the
    product is not one: [JSON.parse] reads [1e999] as [Infinity], and
    [Infinity * 0] is [NaN]. *)
Example transformItem_amount_nan_overflow :
  amount (transformItem 1700000100000 0
            {| raw_description := Some "Consultation";
               raw_quantity := JNum infinity;
               raw_unitPrice := JNum 0;
               raw_amount := JNum 0;
               raw_confidence := JNum 0.9 |})
  = nan.
Proof. reflexivity. Qed.

End GeminiProps.

(** ** More about the queue processor *)

Module QueueFacts.
Import Db Queue DbProps QueueProps.
Local Open Scope M_scope.

(** Every path through [processItem]. *)
Ltac open_processItem :=
  unfold processItem, processItem_try, processItem_catch, sttStage, parseStage,
    try_catch, bind, ret, throw, getDraftById, call_transcribe, call_parseTranscript,
    updateDraftTranscript, updateDraftInvoice, updateQueueItemStatus,
    with_drafts, with_queue;
  cbn [drafts queue now sttCalls parseCalls];
  repeat case_match; simplify_eq; cbn [fst snd drafts queue now sttCalls parseCalls].

(** *** What one item changes *)

Lemma processItem_queue cl item w :
  queue (processItem cl item w).1 =
  match (processItem cl item w).2 with
  | Ok _ =>
    UPDATE_STATUS (QueueItem.id item) QueueItem.completed None
      (QueueItem.retryCount item) (queue w)
  | Throw e =>
    UPDATE_STATUS (QueueItem.id item) (status_after_failure item)
      (Some (errorMessage e)) (QueueItem.retryCount item + 1) (queue w)
  end.
Proof.
  rewrite processItem_unfold.
  pose proof (processItem_try_queue cl item (mark_processing item w)) as Hq.
  destruct (processItem_try cl item (mark_processing item w)) as [w1 [[]|e]];
    cbn [fst snd] in *.
  - rewrite Hq. apply UPDATE_STATUS_twice.
  - rewrite processItem_catch_eq. cbn [fst snd with_queue queue]. rewrite Hq.
    apply UPDATE_STATUS_twice.
Qed.

Lemma processItem_ids cl item w :
  List.map QueueItem.id (queue (processItem cl item w).1)
  = List.map QueueItem.id (queue w).
Proof.
  rewrite processItem_queue. destruct ((processItem cl item w).2);
    apply UPDATE_STATUS_ids.
Qed.

Lemma processItem_now cl item w : now (processItem cl item w).1 = now w.
Proof. open_processItem; reflexivity. Qed.

Lemma UPDATE_STATUS_miss id s e rc rows :
  (forall r, r ∈ rows -> QueueItem.id r <> id) ->
  UPDATE_STATUS id s e rc rows = rows.
Proof.
  intros H. unfold UPDATE_STATUS. rewrite <- (List.map_id rows) at 2.
  apply List.map_ext_in. intros r Hr.
  apply list_elem_of_In, H, String.eqb_neq in Hr. rewrite Hr. reflexivity.
Qed.

(** The status changes of [processItem] do nothing when the item's row is
    gone: the pipeline runs all the same, and the row is not brought back. *)
Theorem processItem_row_gone (cl : Clients) (item : QueueItem.t) (w : World) :
  (forall r, r ∈ queue w -> QueueItem.id r <> QueueItem.id item) ->
  queue (processItem cl item w).1 = queue w.
Proof.
  intros H. rewrite processItem_queue.
  destruct ((processItem cl item w).2); apply UPDATE_STATUS_miss; exact H.
Qed.

Lemma processItem_row_gone_example :
  let item := Examples.item_new "q1" "d1" QueueItem.both 10 in
  let w := Examples.world [Examples.draft_new "d1" (Some "a.m4a")] [] in
  queue (processItem Examples.clients_ok item w).1 = []
  /\ (drafts (processItem Examples.clients_ok item w).1 !! "d1")
       ≫= DraftRecord.invoiceData = Some "{}".
Proof.
  cbv zeta. split.
  - apply (processItem_row_gone Examples.clients_ok
             (Examples.item_new "q1" "d1" QueueItem.both 10)
             (Examples.world [Examples.draft_new "d1" (Some "a.m4a")] [])).
    intros r Hr. inversion Hr.
  - vm_compute. reflexivity.
Defined.

(** *** A pass over the queue *)

(** What every [processItem] keeps, the loop keeps. *)
Lemma processItems_keeps (R : World -> World -> Prop) cl :
  (forall w, R w w) ->
  (forall w1 w2 w3, R w1 w2 -> R w2 w3 -> R w1 w3) ->
  (forall item w, R w (processItem cl item w).1) ->
  forall items result w, R w (processItems cl items result w).1.
Proof.
  intros Hrefl Htrans Hstep. induction items as [|item rest IH]; intros result w.
  - apply Hrefl.
  - cbn [processItems]. unfold bind, attempt.
    pose proof (Hstep item w) as H1.
    destruct (processItem cl item w) as [w1 [[]|e]]; cbn [fst] in H1;
      (eapply Htrans; [exact H1 | apply IH]).
Qed.

Lemma processQueue_unfold cl w :
  processQueue cl w =
  match GET_PENDING (queue w) with
  | [] => (w, Ok {| processed := 0; failed := 0; total := 0; errors := [] |})
  | pendingItems =>
    let r := processItems cl pendingItems
               {| processed := 0; failed := 0; total := length pendingItems;
                  errors := [] |} w in
    match r.2 with
    | Ok result => (with_queue DELETE_COMPLETED r.1, Ok result)
    | Throw e => (r.1, Throw e)
    end
  end.
Proof.
  unfold processQueue, bind at 1, getPendingQueueItems.
  destruct (GET_PENDING (queue w)) as [|item rest]; [reflexivity|].
  cbn [length Nat.eqb]. unfold bind, deleteCompletedQueueItems, ret.
  destruct (processItems cl (item :: rest) _ w) as [w1 [result|e]]; reflexivity.
Qed.

(** The loop catches what an item throws: it always returns its tally, in
    which every item is counted once, as processed or as failed with its
    error message. *)
Lemma processItems_tally cl items : forall result w,
  exists result',
    (processItems cl items result w).2 = Ok result'
    /\ total result' = total result
    /\ (processed result' + failed result'
        = processed result + failed result + length items)%nat
    /\ (length (errors result') + failed result
        = length (errors result) + failed result')%nat
    /\ (forall i m, (i, m) ∈ errors result' ->
                    (i, m) ∈ errors result
                    \/ exists item, item ∈ items /\ QueueItem.id item = i).
Proof.
  induction items as [|item rest IH]; intros result w.
  - exists result. cbn. repeat split; auto; lia.
  - cbn [processItems]. unfold bind, attempt.
    destruct (processItem cl item w) as [w1 [[]|e]].
    + destruct (IH {| processed := S (processed result); failed := failed result;
                      total := total result; errors := errors result |} w1)
        as (r' & H1 & H2 & H3 & H4 & H5).
      exists r'. cbn in *. split; [exact H1|]. split; [exact H2|].
      split; [lia|]. split; [lia|].
      intros i m Him. destruct (H5 i m Him) as [?|(it & ? & ?)]; [auto|].
      right. exists it. split; [apply list_elem_of_further|]; auto.
    + destruct (IH {| processed := processed result; failed := S (failed result);
                      total := total result;
                      errors := errors result ++ [(QueueItem.id item, errorMessage e)] |}
                   w1)
        as (r' & H1 & H2 & H3 & H4 & H5).
      exists r'. cbn in *. rewrite length_app in H4. cbn in H4.
      split; [exact H1|]. split; [exact H2|].
      split; [lia|]. split; [lia|].
      intros i m Him. destruct (H5 i m Him) as [Hold|(it & ? & ?)].
      * apply elem_of_app in Hold as [?|Hnew]; [auto|].
        apply list_elem_of_singleton in Hnew. injection Hnew as -> ->.
        right. exists item. split; [apply list_elem_of_here | reflexivity].
      * right. exists it. split; [apply list_elem_of_further|]; auto.
Qed.

(** X1: [processQueue] never throws on account of an item. Its result counts
    the rows that were ['pending'] when it began: each is either processed or
    failed, every failure has one entry in [errors], and every entry names a
    pending row. *)
Theorem processQueue_tally (cl : Clients) (w : World) :
  exists result,
    (processQueue cl w).2 = Ok result
    /\ total result = length (List.filter is_pending (queue w))
    /\ (processed result + failed result = total result)%nat
    /\ length (errors result) = failed result
    /\ (forall i m, (i, m) ∈ errors result ->
                    exists r, r ∈ queue w
                              /\ QueueItem.status r = QueueItem.pending
                              /\ QueueItem.id r = i).
Proof.
  assert (Hlen : length (GET_PENDING (queue w))
                 = length (List.filter is_pending (queue w))).
  { unfold GET_PENDING. apply Permutation_length, merge_sort_Permutation. }
  rewrite processQueue_unfold.
  destruct (GET_PENDING (queue w)) as [|item rest] eqn:Hp.
  - eexists. split; [reflexivity|]. cbn. rewrite <- Hlen.
    repeat split; auto. intros i m H. inversion H.
  - cbv zeta.
    destruct (processItems_tally cl (item :: rest)
                {| processed := 0; failed := 0; total := length (item :: rest);
                   errors := [] |} w)
      as (r' & H1 & H2 & H3 & H4 & H5).
    rewrite H1. exists r'. cbn [snd]. split; [reflexivity|].
    cbn [total processed failed errors length] in *.
    split; [rewrite H2; exact Hlen|]. split; [lia|]. split; [lia|].
    intros i m Him. destruct (H5 i m Him) as [Hnil|(it & Hit & Hid)];
      [inversion Hnil|].
    rewrite <- Hp in Hit. apply elem_of_GET_PENDING in Hit as [? ?].
    exists it. auto.
Qed.

Lemma processItems_ok cl items result w :
  exists result', (processItems cl items result w).2 = Ok result'.
Proof.
  destruct (processItems_tally cl items result w) as (r' & H & _). eauto.
Qed.

Lemma processQueue_world cl w :
  (processQueue cl w).1 =
  match GET_PENDING (queue w) with
  | [] => w
  | pendingItems =>
    with_queue DELETE_COMPLETED
      (processItems cl pendingItems
         {| processed := 0; failed := 0; total := length pendingItems;
            errors := [] |} w).1
  end.
Proof.
  rewrite processQueue_unfold.
  destruct (GET_PENDING (queue w)) as [|item rest]; [reflexivity|]. cbv zeta.
  destruct (processItems_ok cl (item :: rest)
              {| processed := 0; failed := 0; total := length (item :: rest);
                 errors := [] |} w) as (r' & ->).
  reflexivity.
Qed.

(** X2: A pass that finds nothing pending changes nothing, completed rows
    included; a pass that finds something leaves no completed row behind. *)
Theorem processQueue_collects_completed (cl : Clients) (w : World) :
  (List.filter is_pending (queue w) = [] ->
   processQueue cl w
   = (w, Ok {| processed := 0; failed := 0; total := 0; errors := [] |}))
  /\ (List.filter is_pending (queue w) <> [] ->
      forall r, r ∈ queue (processQueue cl w).1 ->
                QueueItem.status r <> QueueItem.completed).
Proof.
  split.
  - intros H. rewrite processQueue_unfold. unfold GET_PENDING. rewrite H. reflexivity.
  - intros H r. rewrite processQueue_world.
    destruct (GET_PENDING (queue w)) as [|item rest] eqn:Hp.
    + exfalso. apply H. unfold GET_PENDING in Hp.
      apply Permutation_nil_r. rewrite <- Hp. symmetry. apply merge_sort_Permutation.
    + cbn [with_queue queue]. unfold DELETE_COMPLETED.
      rewrite list_elem_of_In, filter_In. intros [_ Hr] Hc. rewrite Hc in Hr.
      discriminate.
Qed.

Lemma processQueue_collects_completed_example :
  let w := Examples.world [Examples.draft_new "d1" (Some "file:///rec.m4a")]
             [Examples.item_new "q1" "d1" QueueItem.both 1;
              QueueItem.set_status QueueItem.completed None 0
                (Examples.item_new "q0" "d0" QueueItem.both 0)] in
  Forall (fun r => QueueItem.status r <> QueueItem.completed)
         (queue (processQueue Examples.clients_ok w).1).
Proof.
  intros w. apply Forall_forall.
  apply (proj2 (processQueue_collects_completed Examples.clients_ok w)).
  vm_compute. discriminate.
Defined.

(** *** Rows a pass does not touch *)

Lemma processItems_leaves cl items : forall result (w : World) (r : QueueItem.t),
  r ∈ queue w ->
  (forall it, it ∈ items -> QueueItem.id it <> QueueItem.id r) ->
  r ∈ queue (processItems cl items result w).1.
Proof.
  induction items as [|item rest IH]; intros result w r Hin Hother.
  - exact Hin.
  - cbn [processItems]. unfold bind, attempt.
    assert (Hstep : r ∈ queue (processItem cl item w).1).
    { rewrite processItem_queue.
      destruct ((processItem cl item w).2); apply UPDATE_STATUS_other; auto;
        intros E; apply (Hother item); auto using list_elem_of_here. }
    destruct (processItem cl item w) as [w1 [[]|e]]; cbn [fst] in Hstep;
      apply IH; auto; intros it Hit; apply Hother, list_elem_of_further, Hit.
Qed.

(** X3: In a table with distinct ids a pass leaves every row that is ['failed']
    or ['processing'] exactly as it was: an item that has used up its
    retries is not tried again, and an item left ['processing'] by an
    interrupted pass is not picked up again either. *)
Theorem processQueue_leaves_failed (cl : Clients) (w : World) (r : QueueItem.t) :
  distinct_ids w ->
  r ∈ queue w ->
  QueueItem.status r = QueueItem.failed \/ QueueItem.status r = QueueItem.processing ->
  r ∈ queue (processQueue cl w).1.
Proof.
  intros Hnd Hin Hst. rewrite processQueue_world.
  destruct (GET_PENDING (queue w)) as [|item rest] eqn:Hp; [exact Hin|].
  cbn [with_queue queue]. unfold DELETE_COMPLETED.
  rewrite list_elem_of_In, filter_In, <- list_elem_of_In. split.
  - apply processItems_leaves; [exact Hin|].
    intros it Hit Hid. rewrite <- Hp in Hit.
    apply elem_of_GET_PENDING in Hit as [Hit Hpending].
    assert (it = r) as -> by (eapply same_id_same_row; eauto).
    destruct Hst; congruence.
  - destruct Hst as [-> | ->]; reflexivity.
Qed.

Lemma processQueue_leaves_failed_example :
  let r := Examples.item_failed "q2" "d1" 2 in
  let w := Examples.world [Examples.draft_new "d1" (Some "a.m4a")]
             [Examples.item_new "q1" "d1" QueueItem.both 5; r] in
  r ∈ queue (processQueue Examples.clients_no_extraction w).1.
Proof.
  cbv zeta. apply processQueue_leaves_failed.
  - unfold distinct_ids. cbn. apply NoDup_cons. split.
    + intros H. apply list_elem_of_singleton in H. discriminate.
    + apply NoDup_singleton.
  - cbn. apply list_elem_of_further, list_elem_of_here.
  - left. reflexivity.
Defined.

(** *** The primary key *)

Lemma NoDup_map_filter {A B} (f : A -> B) (p : A -> bool) (l : list A) :
  NoDup (List.map f l) -> NoDup (List.map f (List.filter p l)).
Proof.
  induction l as [|x l IH]; [auto|]. cbn. rewrite NoDup_cons. intros [Hx Hl].
  destruct (p x); [|auto]. cbn. apply NoDup_cons. split; [|auto].
  intros H. apply Hx. rewrite list_elem_of_In in *. apply in_map_iff in H.
  destruct H as (y & Hy & Hin). apply filter_In in Hin as [Hin _].
  apply in_map_iff. eauto.
Qed.

Lemma processItems_ids cl items result w :
  List.map QueueItem.id (queue (processItems cl items result w).1)
  = List.map QueueItem.id (queue w).
Proof.
  apply (processItems_keeps
           (fun w w' => List.map QueueItem.id (queue w')
                        = List.map QueueItem.id (queue w))).
  - reflexivity.
  - intros w1 w2 w3 H1 H2. congruence.
  - intros item w0. apply processItem_ids.
Qed.

Lemma resetItems_ids failedItems : forall w,
  List.map QueueItem.id (queue (resetItems failedItems w).1)
  = List.map QueueItem.id (queue w).
Proof.
  induction failedItems as [|it rest IH]; intros w; [reflexivity|].
  cbn [resetItems]. unfold bind, updateQueueItemStatus. rewrite IH.
  apply UPDATE_STATUS_ids.
Qed.

Lemma existsb_has_id id rows :
  existsb (has_id id) rows = false -> id ∉ List.map QueueItem.id rows.
Proof.
  intros H Hin. apply list_elem_of_In, in_map_iff in Hin as (r & Hid & Hr).
  assert (existsb (has_id id) rows = true); [|congruence].
  apply existsb_exists. exists r. split; [exact Hr|].
  unfold has_id. rewrite Hid. apply String.eqb_refl.
Qed.

(** X7: The ids of the queue stay distinct under every operation of the queue
    service: enqueueing (whatever id is generated), a pass, a reset of
    failed items, and the two clearings. *)
Theorem distinct_ids_kept (cl : Clients) (w : World) :
  distinct_ids w ->
  (forall random draftId type,
      distinct_ids (Queue.addToQueue random draftId type w).1)
  /\ distinct_ids (processQueue cl w).1
  /\ distinct_ids (retryFailedItems w).1
  /\ distinct_ids (clearCompletedItems w).1
  /\ distinct_ids (clearAllItems w).1.
Proof.
  unfold distinct_ids. intros Hnd. repeat split.
  - intros random draftId type. unfold Queue.addToQueue, bind, Db.addToQueue, ret.
    destruct (existsb _ (queue w)) eqn:E; [exact Hnd|].
    cbn [fst with_queue queue]. rewrite List.map_app. cbn.
    apply NoDup_app. split; [exact Hnd|]. split; [|apply NoDup_singleton].
    intros x Hx Hx'. apply list_elem_of_singleton in Hx'. subst x.
    exact (existsb_has_id _ _ E Hx).
  - rewrite processQueue_world.
    destruct (GET_PENDING (queue w)) as [|item rest]; [exact Hnd|].
    cbn [with_queue queue]. apply NoDup_map_filter. rewrite processItems_ids.
    exact Hnd.
  - unfold retryFailedItems, bind, getPendingQueueItems. rewrite resetItems_ids.
    exact Hnd.
  - cbn. apply NoDup_map_filter. exact Hnd.
  - cbn. apply NoDup_nil_2.
Qed.

Lemma distinct_ids_kept_example :
  let w := Examples.world [Examples.draft_new "d1" (Some "a.m4a")]
             [Examples.item_new "q1" "d1" QueueItem.both 5] in
  distinct_ids (Queue.addToQueue "k3j9x0a1b" "d1" None w).1
  /\ distinct_ids (processQueue Examples.clients_ok w).1.
Proof.
  cbv zeta.
  destruct (distinct_ids_kept Examples.clients_ok
              (Examples.world [Examples.draft_new "d1" (Some "a.m4a")]
                 [Examples.item_new "q1" "d1" QueueItem.both 5])
              ltac:(apply NoDup_singleton)) as (H1 & H2 & _).
  split; [apply H1 | exact H2].
Defined.

(** *** What a pass does to the drafts *)

Lemma same_recording_refl d : same_recording d d.
Proof. repeat split. Qed.

Lemma drafts_kept_refl w : drafts_kept w w.
Proof. intros k. destruct (drafts w !! k); [apply same_recording_refl | exact I]. Qed.

Lemma drafts_kept_trans w1 w2 w3 :
  drafts_kept w1 w2 -> drafts_kept w2 w3 -> drafts_kept w1 w3.
Proof.
  intros H1 H2 k. specialize (H1 k). specialize (H2 k).
  destruct (drafts w1 !! k), (drafts w2 !! k), (drafts w3 !! k); try tauto.
  unfold same_recording in *. intuition congruence.
Qed.

Lemma drafts_kept_alter (f : DraftRecord.t -> DraftRecord.t) k w w' :
  (forall d, same_recording d (f d)) ->
  drafts w' = alter f k (drafts w) -> drafts_kept w w'.
Proof.
  intros Hf Hw j. rewrite Hw. destruct (decide (k = j)) as [->|Hne].
  - rewrite lookup_alter_eq. destruct (drafts w !! j); cbn; [apply Hf | exact I].
  - rewrite lookup_alter_ne by exact Hne.
    destruct (drafts w !! j); [apply same_recording_refl | exact I].
Qed.

Lemma drafts_kept_same w w' : drafts w' = drafts w -> drafts_kept w w'.
Proof.
  intros H k. rewrite H. destruct (drafts w !! k); [apply same_recording_refl | exact I].
Qed.

Lemma sttStage_drafts_kept cl item d w : drafts_kept w (sttStage cl item d w).1.
Proof.
  unfold sttStage, bind, call_transcribe, updateDraftTranscript, ret.
  destruct (wants_stt _); [|apply drafts_kept_refl].
  destruct (_ && _); [|apply drafts_kept_refl]. cbn [now].
  destruct (transcribe cl _ _); cbn [fst].
  - eapply drafts_kept_alter; [|reflexivity]. intros d0. repeat split.
  - apply drafts_kept_same. reflexivity.
Qed.

Lemma parseStage_drafts_kept cl item w : drafts_kept w (parseStage cl item w).1.
Proof.
  unfold parseStage, bind, getDraftById, call_parseTranscript, updateDraftInvoice, ret.
  destruct (wants_parse _); [|apply drafts_kept_refl].
  destruct (_ && _); [|apply drafts_kept_refl]. cbn [now].
  destruct (parseTranscript cl _ _); cbn [fst].
  - eapply drafts_kept_alter; [|reflexivity]. intros d0. repeat split.
  - apply drafts_kept_same. reflexivity.
Qed.

(** Any relation between worlds that the two stages keep and that looks at
    the drafts only is kept by [processItem]. *)
Lemma processItem_keeps (R : World -> World -> Prop) cl item w :
  (forall w, R w w) ->
  (forall w1 w2 w3, R w1 w2 -> R w2 w3 -> R w1 w3) ->
  (forall w w', drafts w' = drafts w -> R w w') ->
  (forall d w, R w (sttStage cl item d w).1) ->
  (forall w, R w (parseStage cl item w).1) ->
  R w (processItem cl item w).1.
Proof.
  intros Hrefl Htrans Hsame Hstt Hparse. rewrite processItem_unfold.
  apply (Htrans _ (mark_processing item w)); [apply Hsame; reflexivity|].
  destruct (drafts (mark_processing item w) !! QueueItem.draftId item) as [d|] eqn:Hd.
  - rewrite (processItem_try_found _ _ _ _ Hd).
    pose proof (Hstt d (mark_processing item w)) as H1.
    destruct (sttStage cl item d (mark_processing item w)) as [w1 [[]|e]];
      cbn [fst] in H1.
    + pose proof (Hparse w1) as H2.
      destruct (parseStage cl item w1) as [w2 [[]|e]]; cbn [fst] in H2.
      * cbn [fst]. apply (Htrans _ w1); [exact H1|].
        apply (Htrans _ w2); [exact H2|]. apply Hsame. reflexivity.
      * rewrite processItem_catch_eq. cbn [fst].
        apply (Htrans _ w1); [exact H1|].
        apply (Htrans _ w2); [exact H2|]. apply Hsame. reflexivity.
    + rewrite processItem_catch_eq. cbn [fst].
      apply (Htrans _ w1); [exact H1|]. apply Hsame. reflexivity.
  - rewrite (processItem_try_missing _ _ _ Hd), processItem_catch_eq. cbn [fst].
    apply Hsame. reflexivity.
Qed.

Lemma processItem_drafts_kept cl item w : drafts_kept w (processItem cl item w).1.
Proof.
  apply processItem_keeps.
  - apply drafts_kept_refl.
  - apply drafts_kept_trans.
  - apply drafts_kept_same.
  - intros d w0. apply sttStage_drafts_kept.
  - apply parseStage_drafts_kept.
Qed.

(** X5: A pass neither creates nor deletes a draft, and leaves the recording of
    every draft (id, creation time, audio path and duration) and its sharing
    record as they were. *)
Theorem processQueue_keeps_recordings (cl : Clients) (w : World) :
  drafts_kept w (processQueue cl w).1.
Proof.
  rewrite processQueue_world.
  destruct (GET_PENDING (queue w)) as [|item rest]; [apply drafts_kept_refl|].
  eapply drafts_kept_trans; [|apply drafts_kept_refl].
  intros k. cbn [with_queue drafts].
  apply (processItems_keeps drafts_kept cl drafts_kept_refl drafts_kept_trans
           (processItem_drafts_kept cl)).
Qed.

Lemma synced_kept_alter (f : DraftRecord.t -> DraftRecord.t) k w w' :
  (forall d, DraftRecord.syncStatus (f d) = DraftRecord.synced ->
             (DraftRecord.syncStatus d = DraftRecord.synced ->
              DraftRecord.invoiceData d <> None) ->
             DraftRecord.invoiceData (f d) <> None) ->
  drafts w' = alter f k (drafts w) ->
  synced_has_invoice w -> synced_has_invoice w'.
Proof.
  intros Hf Hw Hinv j d'. rewrite Hw. destruct (decide (k = j)) as [->|Hne].
  - rewrite lookup_alter_eq. destruct (drafts w !! j) as [d|] eqn:Hd; [|discriminate].
    cbn. intros [= <-] Hs. apply Hf; [exact Hs|]. apply (Hinv j d Hd).
  - rewrite lookup_alter_ne by exact Hne. apply Hinv.
Qed.

Lemma processItem_synced cl item w :
  synced_has_invoice w -> synced_has_invoice (processItem cl item w).1.
Proof.
  apply (processItem_keeps (fun w w' => synced_has_invoice w -> synced_has_invoice w')).
  - auto.
  - auto.
  - intros w0 w' H Hinv k d. rewrite H. apply Hinv.
  - intros d w0. unfold sttStage, bind, call_transcribe, updateDraftTranscript, ret.
    destruct (wants_stt _); [|auto]. destruct (_ && _); [|auto].
    destruct (transcribe cl _ _); cbn [fst]; [|intros H k d0; apply H].
    eapply synced_kept_alter; cycle 1; [reflexivity|].
    intros d0 Hs H. apply H. exact Hs.
  - intros w0. unfold parseStage, bind, getDraftById, call_parseTranscript,
      updateDraftInvoice, ret.
    destruct (wants_parse _); [|auto]. destruct (_ && _); [|auto].
    destruct (parseTranscript cl _ _); cbn [fst]; [|intros H k d0; apply H].
    eapply synced_kept_alter; cycle 1; [reflexivity|].
    intros d0 _ _. discriminate.
Qed.

(** X6: A draft is marked ['synced'] only together with its invoice: if every
    synced draft has a stored invoice before a pass, so it is after. *)
Theorem processQueue_synced_has_invoice (cl : Clients) (w : World) :
  synced_has_invoice w -> synced_has_invoice (processQueue cl w).1.
Proof.
  rewrite processQueue_world.
  destruct (GET_PENDING (queue w)) as [|item rest]; [auto|].
  intros H k d. cbn [with_queue drafts]. revert k d.
  revert H.
  apply (processItems_keeps
           (fun w w' => synced_has_invoice w -> synced_has_invoice w') cl);
    [auto | auto | apply processItem_synced].
Qed.

Lemma processQueue_synced_has_invoice_example :
  let w := Examples.world [Examples.draft_new "d1" (Some "a.m4a")]
             [Examples.item_new "q1" "d1" QueueItem.both 5] in
  synced_has_invoice (processQueue Examples.clients_ok w).1
  /\ (drafts (processQueue Examples.clients_ok w).1 !! "d1")
       ≫= (fun d => Some (DraftRecord.syncStatus d)) = Some DraftRecord.synced.
Proof.
  cbv zeta. split; [|vm_compute; reflexivity].
  apply processQueue_synced_has_invoice.
  intros k d Hd Hs. cbn in Hd.
  destruct (decide (k = "d1")) as [->|Hne].
  - rewrite lookup_insert_eq in Hd. injection Hd as <-. discriminate.
  - rewrite lookup_insert_ne, lookup_empty in Hd by congruence. discriminate.
Defined.

(** *** What a pass costs *)

Lemma processItem_calls cl item w :
  exists l1 l2,
    sttCalls (processItem cl item w).1 = sttCalls w ++ l1
    /\ parseCalls (processItem cl item w).1 = parseCalls w ++ l2
    /\ (length l1 <= if wants_stt (QueueItem.type item) then 1 else 0)%nat
    /\ (length l2 <= if wants_parse (QueueItem.type item) then 1 else 0)%nat.
Proof.
  open_processItem;
    first [ exists [], []; rewrite !app_nil_r; cbn; repeat split; lia
          | eexists [_], []; rewrite !app_nil_r; cbn; repeat split; lia
          | eexists [], [_]; rewrite !app_nil_r; cbn; repeat split; lia
          | eexists [_], [_]; cbn; repeat split; lia ].
Qed.

Lemma processItems_calls cl items : forall result w,
  exists l1 l2,
    sttCalls (processItems cl items result w).1 = sttCalls w ++ l1
    /\ parseCalls (processItems cl items result w).1 = parseCalls w ++ l2
    /\ (length l1 <= count_stt items)%nat
    /\ (length l2 <= count_parse items)%nat.
Proof.
  induction items as [|item rest IH]; intros result w.
  - exists [], []. rewrite !app_nil_r. cbn. repeat split; lia.
  - cbn [processItems]. unfold bind, attempt.
    destruct (processItem_calls cl item w) as (a1 & a2 & Ha1 & Ha2 & La1 & La2).
    assert (Hrest : forall result' ,
               exists l1 l2,
                 sttCalls (processItems cl rest result' (processItem cl item w).1).1
                 = sttCalls w ++ l1
                 /\ parseCalls (processItems cl rest result' (processItem cl item w).1).1
                    = parseCalls w ++ l2
                 /\ (length l1 <= count_stt (item :: rest))%nat
                 /\ (length l2 <= count_parse (item :: rest))%nat).
    { intros result'.
      destruct (IH result' (processItem cl item w).1) as (b1 & b2 & Hb1 & Hb2 & Lb1 & Lb2).
      exists (a1 ++ b1), (a2 ++ b2). rewrite Hb1, Hb2, Ha1, Ha2, !(assoc_L (++)).
      split; [reflexivity|]. split; [reflexivity|].
      rewrite !length_app. unfold count_stt, count_parse in *. cbn [List.filter].
      destruct (wants_stt (QueueItem.type item)), (wants_parse (QueueItem.type item));
        cbn [length]; lia. }
    destruct (processItem cl item w) as [w1 [[]|e]]; apply Hrest.
Qed.

Lemma filter_length_Permutation {A} (p : A -> bool) (l l' : list A) :
  l ≡ₚ l' -> length (List.filter p l) = length (List.filter p l').
Proof.
  induction 1 as [|x l l' _ IH|x y l|l l' l'' _ IH1 _ IH2]; cbn.
  - reflexivity.
  - destruct (p x); cbn; congruence.
  - destruct (p x), (p y); reflexivity.
  - congruence.
Qed.

(** X4: A pass calls each client at most once for every pending item whose type
    includes its stage, and keeps the record of earlier calls. *)
Theorem processQueue_calls (cl : Clients) (w : World) :
  exists l1 l2,
    sttCalls (processQueue cl w).1 = sttCalls w ++ l1
    /\ parseCalls (processQueue cl w).1 = parseCalls w ++ l2
    /\ (length l1 <= count_stt (List.filter is_pending (queue w)))%nat
    /\ (length l2 <= count_parse (List.filter is_pending (queue w)))%nat.
Proof.
  assert (Hperm : GET_PENDING (queue w) ≡ₚ List.filter is_pending (queue w))
    by apply merge_sort_Permutation.
  rewrite processQueue_world. unfold count_stt, count_parse.
  rewrite <- (filter_length_Permutation _ _ _ Hperm).
  rewrite <- (filter_length_Permutation _ _ _ Hperm).
  destruct (GET_PENDING (queue w)) as [|item rest].
  - exists [], []. rewrite !app_nil_r. cbn. repeat split; lia.
  - cbn [with_queue sttCalls parseCalls]. apply processItems_calls.
Qed.

(** *** The status summary *)

Lemma count_status_all_pending items :
  (forall it, it ∈ items -> QueueItem.status it = QueueItem.pending) ->
  count_status QueueItem.pending items = length items
  /\ count_status QueueItem.processing items = 0%nat
  /\ count_status QueueItem.failed items = 0%nat.
Proof.
  unfold count_status. induction items as [|it rest IH]; intros H; [auto|].
  cbn [List.filter]. rewrite (H it (list_elem_of_here _ _)). cbn.
  destruct IH as (H1 & H2 & H3);
    [intros it' Hit'; apply H, list_elem_of_further, Hit'|].
  auto.
Qed.

(** X8: [getQueueStatus] counts among the rows that [getPendingQueueItems]
    returns: its [processing] and [failed] are always 0, and its [pending]
    and [total] are both the number of pending rows, whatever else the table
    holds. *)
Theorem getQueueStatus_counts_pending_only (w : World) :
  getQueueStatus w =
  (w, Ok {| qs_pending := length (List.filter is_pending (queue w));
            qs_processing := 0;
            qs_failed := 0;
            qs_total := length (List.filter is_pending (queue w)) |}).
Proof.
  unfold getQueueStatus, bind, getPendingQueueItems, ret.
  destruct (count_status_all_pending (GET_PENDING (queue w))) as (H1 & H2 & H3).
  { intros it Hit. apply elem_of_GET_PENDING in Hit as [_ H]. exact H. }
  rewrite H1, H2, H3.
  assert (Hlen : length (GET_PENDING (queue w))
                 = length (List.filter is_pending (queue w)))
    by (apply Permutation_length, merge_sort_Permutation).
  rewrite Hlen. reflexivity.
Qed.

(** *** What [retryFailedItems] does *)

Lemma resetItems_forget_error failedItems : forall (w : World),
  NoDup (List.map QueueItem.id (queue w)) ->
  (forall it, it ∈ failedItems ->
              exists r, r ∈ queue w /\ QueueItem.id r = QueueItem.id it
                        /\ QueueItem.retryCount r = QueueItem.retryCount it
                        /\ QueueItem.status r = QueueItem.pending) ->
  List.map forget_error (queue (resetItems failedItems w).1)
  = List.map forget_error (queue w).
Proof.
  induction failedItems as [|it rest IH]; intros w Hnd Hrows; [reflexivity|].
  cbn [resetItems]. unfold bind, updateQueueItemStatus.
  destruct (Hrows it (list_elem_of_here _ _)) as (r0 & Hr0 & Hid0 & Hrc0 & Hst0).
  assert (Hsame : forall r, r ∈ queue w -> QueueItem.id r = QueueItem.id it -> r = r0).
  { intros r Hr Hid. apply (same_id_same_row (queue w)); auto. congruence. }
  rewrite IH.
  - cbn [fst with_queue queue]. unfold UPDATE_STATUS. rewrite List.map_map.
    apply List.map_ext_in. intros r Hr.
    destruct (String.eqb (QueueItem.id r) (QueueItem.id it)) eqn:E; [|reflexivity].
    apply String.eqb_eq in E. apply list_elem_of_In in Hr.
    rewrite (Hsame r Hr E). unfold forget_error. cbn. rewrite Hst0, Hrc0. reflexivity.
  - cbn [fst with_queue queue]. rewrite UPDATE_STATUS_ids. exact Hnd.
  - intros it' Hit'.
    destruct (Hrows it' (list_elem_of_further _ _ _ Hit')) as (r & Hr & Hid & Hrc & Hst).
    cbn [fst with_queue queue].
    exists (if String.eqb (QueueItem.id r) (QueueItem.id it)
            then QueueItem.set_status QueueItem.pending None (QueueItem.retryCount it) r
            else r).
    split; [apply elem_of_UPDATE_STATUS; exists r; auto|].
    destruct (String.eqb (QueueItem.id r) (QueueItem.id it)) eqn:E; [|auto].
    apply String.eqb_eq in E. cbn. split; [exact Hid|]. split; [|reflexivity].
    rewrite <- Hrc, (Hsame r Hr E). symmetry. exact Hrc0.
Qed.

(** X9: In a table with distinct ids [retryFailedItems] changes nothing but
    error messages: every row keeps its status, its retry count and all its
    other fields. No row changes status, a ['failed'] one in particular. *)
Theorem retryFailedItems_only_clears_errors (w : World) :
  distinct_ids w ->
  List.map forget_error (queue (retryFailedItems w).1)
  = List.map forget_error (queue w).
Proof.
  intros Hnd. unfold retryFailedItems, bind, getPendingQueueItems.
  apply resetItems_forget_error; [exact Hnd|].
  intros it Hit. exists it.
  apply list_elem_of_In, filter_In in Hit as [Hit _].
  apply list_elem_of_In, elem_of_GET_PENDING in Hit as [Hit Hst]. auto.
Qed.

Lemma retryFailedItems_only_clears_errors_example :
  let w := Examples.world [Examples.draft_new "d1" (Some "a.m4a")]
             [QueueItem.set_status QueueItem.pending (Some "Network request failed") 1
                (Examples.item_new "q1" "d1" QueueItem.both 5);
              Examples.item_failed "q2" "d1" 2] in
  List.map forget_error (queue (retryFailedItems w).1)
  = List.map forget_error (queue w)
  /\ List.map QueueItem.lastError (queue (retryFailedItems w).1)
     = [None; Some "Network request failed"].
Proof.
  cbv zeta. split; [|vm_compute; reflexivity].
  apply retryFailedItems_only_clears_errors.
  unfold distinct_ids. cbn. apply NoDup_cons. split.
  - intros H. apply list_elem_of_singleton in H. discriminate.
  - apply NoDup_singleton.
Defined.

(** *** The stages of one item *)

(** X12: When the draft has a transcript and an invoice already, [processItem]
    calls neither client and writes no draft, whatever the type of the
    item: it marks the item ['completed'] and returns. *)
Theorem processItem_nothing_to_do
    (cl : Clients) (item : QueueItem.t) (d : DraftRecord.t) (w : World) :
  drafts w !! QueueItem.draftId item = Some d ->
  truthy_string (DraftRecord.transcript d) = true ->
  truthy_string (DraftRecord.invoiceData d) = true ->
  processItem cl item w =
  ({| drafts := drafts w;
      queue := UPDATE_STATUS (QueueItem.id item) QueueItem.completed None
                 (QueueItem.retryCount item) (queue w);
      now := now w; sttCalls := sttCalls w; parseCalls := parseCalls w |},
   Ok tt).
Proof.
  intros Hd Ht Hi. rewrite processItem_unfold.
  rewrite (processItem_try_found cl item d (mark_processing item w)) by exact Hd.
  unfold sttStage. rewrite Ht, andb_false_r.
  assert ((if wants_stt (QueueItem.type item) then @ret World unit tt else ret tt)
          = ret tt) as -> by (destruct (wants_stt _); reflexivity).
  unfold ret at 1. unfold parseStage. destruct (wants_parse _).
  - unfold bind, getDraftById. cbn [mark_processing with_queue drafts].
    rewrite Hd. cbn [mbind option_bind]. rewrite Ht, Hi. cbn [negb andb].
    unfold ret, with_queue, mark_processing, with_queue.
    cbn [drafts queue now sttCalls parseCalls].
    rewrite UPDATE_STATUS_twice. reflexivity.
  - unfold ret, mark_processing, with_queue. cbn [drafts queue now sttCalls parseCalls].
    rewrite UPDATE_STATUS_twice. reflexivity.
Qed.

Lemma processItem_nothing_to_do_example :
  let d := DraftRecord.set_invoice "{}" 0.9 1700000000900
             (Examples.draft_transcribed "d1" (Some "a.m4a") "2 hours at 500") in
  let item := Examples.item_new "q1" "d1" QueueItem.both 10 in
  let w := Examples.world [d] [item] in
  processItem Examples.clients_ok item w
  = (Examples.world [d] [QueueItem.set_status QueueItem.completed None 0 item], Ok tt).
Proof.
  intros d item w.
  rewrite (processItem_nothing_to_do Examples.clients_ok item d w
             eq_refl eq_refl eq_refl).
  reflexivity.
Defined.

(** X13: When the transcription client throws, the extraction client is not
    called and no draft is written; the item goes through the retry policy
    and the error is raised again. *)
Theorem processItem_transcription_throws
    (cl : Clients) (item : QueueItem.t) (d : DraftRecord.t) (audio : string)
    (e : thrown) (w : World) :
  wants_stt (QueueItem.type item) = true ->
  drafts w !! QueueItem.draftId item = Some d ->
  DraftRecord.audioPath d = Some audio -> audio <> "" ->
  truthy_string (DraftRecord.transcript d) = false ->
  transcribe cl (length (sttCalls w)) audio = Throw e ->
  processItem cl item w =
  ({| drafts := drafts w;
      queue := UPDATE_STATUS (QueueItem.id item) (status_after_failure item)
                 (Some (errorMessage e)) (QueueItem.retryCount item + 1) (queue w);
      now := now w; sttCalls := sttCalls w ++ [audio]; parseCalls := parseCalls w |},
   Throw e).
Proof.
  intros Hty Hd Ha Hne Ht Hthrow. rewrite processItem_unfold.
  rewrite (processItem_try_found cl item d (mark_processing item w)) by exact Hd.
  unfold sttStage. rewrite Hty, Ha, Ht, (truthy_string_Some audio Hne).
  cbn [negb andb default from_option]. change (Datatypes.id audio) with audio.
  unfold bind, call_transcribe. cbn [mark_processing with_queue sttCalls].
  rewrite Hthrow. rewrite processItem_catch_eq. unfold mark_processing, with_queue.
  cbn [drafts queue now sttCalls parseCalls].
  rewrite UPDATE_STATUS_twice. reflexivity.
Qed.

Lemma processItem_transcription_throws_example :
  let cl := {| transcribe := fun _ _ => Throw (STTError STT_NETWORK_ERROR
                                                  "Network request failed" true);
               parseTranscript := fun _ _ => Ok Examples.invoice_1000;
               JSON_stringify := fun _ => "{}" |} in
  let item := Examples.item_new "q1" "d1" QueueItem.both 10 in
  let w := Examples.world [Examples.draft_new "d1" (Some "a.m4a")] [item] in
  parseCalls (processItem cl item w).1 = []
  /\ drafts (processItem cl item w).1 = drafts w
  /\ queue (processItem cl item w).1
     = [QueueItem.set_status QueueItem.pending (Some "Network request failed") 1 item].
Proof.
  intros cl item w.
  rewrite (processItem_transcription_throws cl item
             (Examples.draft_new "d1" (Some "a.m4a")) "a.m4a"
             (STTError STT_NETWORK_ERROR "Network request failed" true) w
             eq_refl eq_refl eq_refl ltac:(discriminate) eq_refl eq_refl).
  repeat split.
Defined.

(** X14: Progress is kept stage by stage: when the transcription succeeds with
    a non-empty transcript and the extraction then throws, the transcript and
    its confidence are in the draft although the item has failed. *)
Theorem processItem_keeps_transcript
    (cl : Clients) (item : QueueItem.t) (d : DraftRecord.t) (audio : string)
    (res : STTResult) (e : thrown) (w : World) :
  QueueItem.type item = QueueItem.both ->
  drafts w !! QueueItem.draftId item = Some d ->
  DraftRecord.audioPath d = Some audio -> audio <> "" ->
  truthy_string (DraftRecord.transcript d) = false ->
  truthy_string (DraftRecord.invoiceData d) = false ->
  transcribe cl (length (sttCalls w)) audio = Ok res ->
  transcript res <> "" ->
  parseTranscript cl (length (parseCalls w)) (transcript res) = Throw e ->
  processItem cl item w =
  ({| drafts := <[QueueItem.draftId item :=
                    DraftRecord.set_transcript (transcript res) (confidence res)
                      (now w) d]> (drafts w);
      queue := UPDATE_STATUS (QueueItem.id item) (status_after_failure item)
                 (Some (errorMessage e)) (QueueItem.retryCount item + 1) (queue w);
      now := now w; sttCalls := sttCalls w ++ [audio];
      parseCalls := parseCalls w ++ [transcript res] |},
   Throw e).
Proof.
  intros Hty Hd Ha Hne Ht Hi Hstt Hres Hthrow. rewrite processItem_unfold.
  rewrite (processItem_try_found cl item d (mark_processing item w)) by exact Hd.
  unfold sttStage. rewrite Hty, Ha, Ht, (truthy_string_Some audio Hne).
  cbn [wants_stt negb andb default from_option]. change (Datatypes.id audio) with audio.
  unfold bind at 1, call_transcribe, mark_processing, with_queue.
  cbn [drafts queue now sttCalls parseCalls].
  rewrite Hstt. unfold updateDraftTranscript, with_drafts.
  cbn [drafts queue now sttCalls parseCalls].
  unfold parseStage. rewrite Hty. cbn [wants_parse].
  unfold bind, getDraftById. cbn [drafts].
  rewrite lookup_alter_eq, Hd. cbn [fmap option_fmap option_map mbind option_bind
                                    DraftRecord.transcript DraftRecord.invoiceData
                                    DraftRecord.set_transcript].
  rewrite (truthy_string_Some _ Hres), Hi.
  cbn [negb andb default from_option]. change (Datatypes.id (transcript res)) with (transcript res).
  unfold call_parseTranscript. cbn [parseCalls]. rewrite Hthrow.
  rewrite processItem_catch_eq. unfold mark_processing, with_queue.
  cbn [drafts queue now sttCalls parseCalls].
  rewrite UPDATE_STATUS_twice, (alter_found _ _ _ _ Hd). reflexivity.
Qed.

Lemma processItem_keeps_transcript_example :
  let item := Examples.item_new "q1" "d1" QueueItem.both 10 in
  let w := Examples.world [Examples.draft_new "d1" (Some "a.m4a")] [item] in
  let w' := (processItem Examples.clients_no_extraction item w).1 in
  (processItem Examples.clients_no_extraction item w).2 = Throw Examples.network_down
  /\ (drafts w' !! "d1") ≫= DraftRecord.transcript = Some "2 hours at 500".
Proof.
  intros item w w'. subst w'.
  rewrite (processItem_keeps_transcript Examples.clients_no_extraction item
             (Examples.draft_new "d1" (Some "a.m4a")) "a.m4a"
             {| transcript := "2 hours at 500"; confidence := 0.9 |}
             Examples.network_down w
             eq_refl eq_refl eq_refl ltac:(discriminate) eq_refl eq_refl eq_refl
             ltac:(discriminate) eq_refl).
  split; [reflexivity|]. vm_compute. reflexivity.
Defined.

(** When both clients answer, one [processItem] takes a fresh recording all
    the way: transcript and invoice are stored, the draft is ['synced'] and
    the item ['completed']. *)
Lemma processItem_both_stages
    (cl : Clients) (item : QueueItem.t) (d : DraftRecord.t) (audio : string)
    (res : STTResult) (invoice : Gemini.ParsedInvoice) (w : World) :
  QueueItem.type item = QueueItem.both ->
  drafts w !! QueueItem.draftId item = Some d ->
  DraftRecord.audioPath d = Some audio -> audio <> "" ->
  truthy_string (DraftRecord.transcript d) = false ->
  truthy_string (DraftRecord.invoiceData d) = false ->
  transcribe cl (length (sttCalls w)) audio = Ok res ->
  transcript res <> "" ->
  parseTranscript cl (length (parseCalls w)) (transcript res) = Ok invoice ->
  processItem cl item w =
  ({| drafts := <[QueueItem.draftId item :=
                    DraftRecord.set_invoice (JSON_stringify cl invoice)
                      (Gemini.getAverageConfidence invoice) (now w)
                      (DraftRecord.set_transcript (transcript res) (confidence res)
                         (now w) d)]> (drafts w);
      queue := UPDATE_STATUS (QueueItem.id item) QueueItem.completed None
                 (QueueItem.retryCount item) (queue w);
      now := now w; sttCalls := sttCalls w ++ [audio];
      parseCalls := parseCalls w ++ [transcript res] |},
   Ok tt).
Proof.
  intros Hty Hd Ha Hne Ht Hi Hstt Hres Hparse. rewrite processItem_unfold.
  rewrite (processItem_try_found cl item d (mark_processing item w)) by exact Hd.
  unfold sttStage. rewrite Hty, Ha, Ht, (truthy_string_Some audio Hne).
  cbn [wants_stt negb andb default from_option]. change (Datatypes.id audio) with audio.
  unfold bind at 1, call_transcribe, mark_processing, with_queue.
  cbn [drafts queue now sttCalls parseCalls].
  rewrite Hstt. unfold updateDraftTranscript, with_drafts.
  cbn [drafts queue now sttCalls parseCalls].
  unfold parseStage. rewrite Hty. cbn [wants_parse].
  unfold bind, getDraftById. cbn [drafts].
  rewrite lookup_alter_eq, Hd. cbn [fmap option_fmap option_map mbind option_bind
                                    DraftRecord.transcript DraftRecord.invoiceData
                                    DraftRecord.set_transcript].
  rewrite (truthy_string_Some _ Hres), Hi.
  cbn [negb andb default from_option].
  change (Datatypes.id (transcript res)) with (transcript res).
  unfold call_parseTranscript. cbn [parseCalls]. rewrite Hparse.
  unfold updateDraftInvoice, with_drafts, with_queue.
  cbn [drafts queue now sttCalls parseCalls].
  rewrite UPDATE_STATUS_twice, (alter_found _ _ _ _ Hd).
  rewrite (alter_found _ _ (<[_ := _]> (drafts w)) _ (lookup_insert_eq _ _ _)).
  rewrite insert_insert_eq. reflexivity.
Qed.

(** *** Enqueueing *)

Lemma GET_PENDING_length rows :
  length (GET_PENDING rows) = length (List.filter is_pending rows).
Proof. apply Permutation_length, merge_sort_Permutation. Qed.

(** X10: [addToQueue] returns the id it has generated; if no row has that id the
    item is listed as pending from then on, beside the items listed before,
    and no draft is touched; if a row has it the call throws and the queue is
    as it was. *)
Theorem addToQueue_lists_item
    (random draftId : string) (type : option QueueItem.type_t) (w : World) :
  let id := generateId (now w) random in
  let row := new_row id draftId (default QueueItem.both type) (now w) in
  let w' := (Queue.addToQueue random draftId type w).1 in
  if existsb (has_id id) (queue w)
  then w' = w /\ exists e, (Queue.addToQueue random draftId type w).2 = Throw e
  else (Queue.addToQueue random draftId type w).2 = Ok id
       /\ drafts w' = drafts w
       /\ (forall it, it ∈ GET_PENDING (queue w') <->
                      it = row \/ it ∈ GET_PENDING (queue w))
       /\ length (GET_PENDING (queue w')) = S (length (GET_PENDING (queue w))).
Proof.
  intros id row w'. subst w'. unfold Queue.addToQueue, bind, Db.addToQueue, ret.
  fold id. destruct (existsb (has_id id) (queue w)) eqn:E.
  - split; [reflexivity|]. eexists. reflexivity.
  - cbn [fst snd with_queue drafts queue]. fold row.
    split; [reflexivity|]. split; [reflexivity|]. split.
    + intros it. rewrite !elem_of_GET_PENDING, elem_of_app, list_elem_of_singleton.
      split.
      * intros [[H| ->] Hs]; [right; auto | left; reflexivity].
      * intros [-> | [H Hs]]; [split; [right; reflexivity | reflexivity] | auto].
    + rewrite !GET_PENDING_length, List.filter_app, length_app. cbn. lia.
Qed.

Lemma filter_pending_nil rows :
  GET_PENDING rows = [] -> List.filter is_pending rows = [].
Proof.
  intros H. apply Permutation_nil_r. rewrite <- H. unfold GET_PENDING.
  symmetry. apply merge_sort_Permutation.
Qed.

Lemma DELETE_COMPLETED_app rows rows' :
  DELETE_COMPLETED (rows ++ rows') = DELETE_COMPLETED rows ++ DELETE_COMPLETED rows'.
Proof. apply List.filter_app. Qed.

(** X11: What the recording screen does and one pass after it: on a store with
    nothing pending, a new draft is created, queued, and the pass takes it
    through both services. The pass reports one item processed; the draft
    then holds the transcript and the invoice and is ['synced']; the item's
    row is gone again. *)
Theorem recording_synced_in_one_pass
    (cl : Clients) (draftId audio random : string) (duration : option Z)
    (res : STTResult) (invoice : Gemini.ParsedInvoice) (w : World) :
  drafts w !! draftId = None ->
  GET_PENDING (queue w) = [] ->
  existsb (has_id (generateId (now w) random)) (queue w) = false ->
  audio <> "" ->
  transcribe cl (length (sttCalls w)) audio = Ok res ->
  transcript res <> "" ->
  parseTranscript cl (length (parseCalls w)) (transcript res) = Ok invoice ->
  let out :=
    (run createDraft draftId (Some audio) duration;
     run Queue.addToQueue random draftId (Some QueueItem.both);
     processQueue cl) w in
  out.2 = Ok {| processed := 1; failed := 0; total := 1; errors := [] |}
  /\ queue out.1 = DELETE_COMPLETED (queue w)
  /\ sttCalls out.1 = sttCalls w ++ [audio]
  /\ parseCalls out.1 = parseCalls w ++ [transcript res]
  /\ exists d,
       drafts out.1 = <[draftId := d]> (drafts w)
       /\ same_recording (new_draft draftId (now w) (Some audio) duration) d
       /\ DraftRecord.transcript d = Some (transcript res)
       /\ DraftRecord.invoiceData d = Some (JSON_stringify cl invoice)
       /\ DraftRecord.syncStatus d = DraftRecord.synced.
Proof.
  intros Hnew Hnone Hfresh Hne Hstt Hres Hparse out. subst out.
  set (id := generateId (now w) random) in *.
  set (d0 := new_draft draftId (now w) (Some audio) duration).
  set (row := new_row id draftId QueueItem.both (now w)).
  set (w2 := {| drafts := <[draftId := d0]> (drafts w); queue := queue w ++ [row];
                now := now w; sttCalls := sttCalls w; parseCalls := parseCalls w |}).
  assert (Hw2 : (run createDraft draftId (Some audio) duration;
                 run Queue.addToQueue random draftId (Some QueueItem.both);
                 processQueue cl) w = processQueue cl w2).
  { unfold bind at 1, createDraft. rewrite Hnew. unfold with_drafts.
    unfold bind at 1, Queue.addToQueue, bind, Db.addToQueue, ret, with_queue.
    cbn [drafts queue now sttCalls parseCalls default from_option].
    fold id. rewrite Hfresh. reflexivity. }
  rewrite Hw2. clear Hw2.
  assert (Hpend : GET_PENDING (queue w2) = [row]).
  { unfold GET_PENDING. cbn [queue w2]. rewrite List.filter_app.
    rewrite (filter_pending_nil _ Hnone). reflexivity. }
  assert (Hitem : processItem cl row w2 =
    ({| drafts := <[draftId :=
                      DraftRecord.set_invoice (JSON_stringify cl invoice)
                        (Gemini.getAverageConfidence invoice) (now w)
                        (DraftRecord.set_transcript (transcript res) (confidence res)
                           (now w) d0)]> (drafts w2);
        queue := UPDATE_STATUS id QueueItem.completed None 0 (queue w2);
        now := now w; sttCalls := sttCalls w ++ [audio];
        parseCalls := parseCalls w ++ [transcript res] |}, Ok tt)).
  { apply (processItem_both_stages cl row d0 audio res invoice w2);
      try reflexivity; try assumption.
    cbn [drafts w2 QueueItem.draftId row new_row]. apply lookup_insert_eq. }
  assert (Hitems : forall r0,
    processItems cl [row] r0 w2 =
    ((processItem cl row w2).1,
     Ok {| processed := S (processed r0); failed := failed r0; total := total r0;
           errors := errors r0 |})).
  { intros r0. cbn [processItems]. unfold bind, attempt. rewrite Hitem. reflexivity. }
  rewrite processQueue_unfold, Hpend. cbv beta iota zeta.
  rewrite Hitems, Hitem.
  cbn [fst snd length with_queue drafts queue now sttCalls parseCalls
       processed failed total errors].
  split; [reflexivity|]. split.
  - cbn [queue w2]. unfold UPDATE_STATUS. rewrite List.map_app.
    fold (UPDATE_STATUS id QueueItem.completed None 0 (queue w)).
    rewrite UPDATE_STATUS_miss.
    + rewrite DELETE_COMPLETED_app. cbn [List.map row new_row QueueItem.id].
      rewrite String.eqb_refl. cbn. apply app_nil_r.
    + intros r Hr Hid. apply (existsb_has_id _ _ Hfresh).
      rewrite <- Hid. apply list_elem_of_In, in_map, list_elem_of_In, Hr.
  - split; [reflexivity|]. split; [reflexivity|].
    eexists. split; [cbn [drafts w2]; apply insert_insert_eq|].
    split; [|split; [reflexivity|split; reflexivity]].
    repeat split.
Qed.

Lemma recording_synced_in_one_pass_example :
  let w := Examples.world [] [] in
  let out :=
    (run createDraft "d1" (Some "file:///rec.m4a") (Some 4200);
     run Queue.addToQueue "abc" "d1" (Some QueueItem.both);
     processQueue Examples.clients_ok) w in
  out.2 = Ok {| processed := 1; failed := 0; total := 1; errors := [] |}
  /\ queue out.1 = [].
Proof.
  intros w out.
  destruct (recording_synced_in_one_pass Examples.clients_ok "d1" "file:///rec.m4a"
              "abc" (Some 4200)
              {| transcript := "2 hours at 500"; confidence := 0.9 |}
              Examples.invoice_1000 w) as (H1 & H2 & _);
    try reflexivity; try discriminate.
  split; [exact H1 | exact H2].
Defined.

End QueueFacts.

(** ** More about [syncNow] *)

Module SyncFacts.
Import Sync AutoSync.

Lemma processQueue_ok cl w : exists result, (Queue.processQueue cl w).2 = Ok result.
Proof.
  rewrite QueueFacts.processQueue_unfold.
  destruct (Db.GET_PENDING (Db.queue w)) as [|item rest]; [eexists; reflexivity|].
  cbv zeta.
  destruct (QueueFacts.processItems_ok cl (item :: rest)
              {| Queue.processed := 0; Queue.failed := 0;
                 Queue.total := length (item :: rest); Queue.errors := [] |} w)
    as [r Hr].
  rewrite Hr. eexists. reflexivity.
Qed.

(** The state a queue pass with result [result] ends in. *)
Lemma syncNow_unfold cl net t_start t_end g w :
  syncNow cl net t_start t_end (g, w) =
  if is_syncing (syncState g) then
    (g, w, Returned {| success := false; processResult := None;
                       error_message := Some "Sync already in progress" |}, 0%nat)
  else if too_soon t_start g then (g, w, Returned skipped, 0%nat)
  else if is_offline net then
    (g, w, Returned {| success := false; processResult := None;
                       error_message := Some "Device is offline" |}, 0%nat)
  else
    let out := Queue.processQueue cl w in
    let step := syncNow_step t_end (updateState t_start syncing None g) AwaitQueue
                  (ProcessQueueGave out.2) in
    (step.1.1, out.1, step.1.2, 1%nat).
Proof.
  unfold syncNow. unfold syncNow_step at 1.
  destruct (is_syncing (syncState g)); [reflexivity|].
  destruct (too_soon t_start g); [reflexivity|].
  unfold syncNow_step at 1.
  destruct (is_offline net); [reflexivity|].
  cbv zeta. destruct (Queue.processQueue cl w) as [w' r]. cbn [fst snd].
  destruct (syncNow_step t_end (updateState t_start syncing None g) AwaitQueue
              (ProcessQueueGave r)) as [[g3 t3] es3].
  reflexivity.
Qed.

(** X15: A call runs a queue pass exactly when no pass is in flight, the last one
    ended long enough ago and the device is online; a call that runs none
    changes nothing, notifies nobody and returns without a
    [processResult]. *)
Theorem syncNow_pass_iff (cl : Queue.Clients) (net : NetworkState)
    (t_start t_end : Z) (g : Globals) (w : Db.World) :
  let out := syncNow cl net t_start t_end (g, w) in
  (out.2 = 1%nat <->
   syncState g <> syncing /\ too_soon t_start g = false /\ is_offline net = false)
  /\ (out.2 <> 1%nat ->
      out.1.1 = (g, w)
      /\ exists r, out.1.2 = Returned r /\ processResult r = None).
Proof.
  intros out. subst out. rewrite syncNow_unfold.
  destruct (is_syncing (syncState g)) eqn:Es.
  { assert (syncState g = syncing) by (destruct (syncState g); done || discriminate).
    cbn [fst snd]. split; [split; [discriminate|tauto]|].
    intros _. split; [reflexivity|eexists; split; reflexivity]. }
  assert (Hs : syncState g <> syncing) by (intros E; rewrite E in Es; discriminate).
  destruct (too_soon t_start g).
  { cbn [fst snd]. split; [split; [discriminate|intros (_ & ? & _); discriminate]|].
    intros _. split; [reflexivity|eexists; split; reflexivity]. }
  destruct (is_offline net).
  { cbn [fst snd]. split; [split; [discriminate|intros (_ & _ & ?); discriminate]|].
    intros _. split; [reflexivity|eexists; split; reflexivity]. }
  cbv zeta. cbn [fst snd]. split; [tauto|]. intros H. contradiction.
Qed.

Lemma syncNow_pass_iff_example :
  let g := Examples.service_synced 1700000000000 in
  let w := Examples.world [Examples.draft_new "d1" (Some "file:///rec.m4a")]
             [Examples.item_new "q1" "d1" QueueItem.both 10] in
  let offline := {| isConnected := false; isInternetReachable := None |} in
  let out := syncNow Examples.clients_ok offline 1700000040000 1700000041000 (g, w) in
  out.1.1 = (g, w) /\ exists r, out.1.2 = Returned r /\ processResult r = None.
Proof.
  intros g w offline out.
  apply (proj2 (syncNow_pass_iff Examples.clients_ok offline
                  1700000040000 1700000041000 g w)).
  vm_compute. discriminate.
Defined.

(** X16: A call that runs a pass tells the listeners twice: first that the state
    is ['syncing'], then the state the pass ended in, which is ['completed']
    if no item failed and ['error'] otherwise. The call returns the result
    of the pass, with [success] exactly when no item failed; [lastSyncAt] is
    the time the pass ended; and [lastError] is replaced when items failed
    and otherwise kept, also when it holds the error of an earlier pass. *)
Theorem syncNow_pass_reports (cl : Queue.Clients) (net : NetworkState)
    (t_start t_end : Z) (g : Globals) (w : Db.World) :
  syncState g <> syncing -> too_soon t_start g = false -> is_offline net = false ->
  let out := syncNow cl net t_start t_end (g, w) in
  let g' := out.1.1.1 in
  exists result,
    (Queue.processQueue cl w).2 = Ok result
    /\ out.1.1.2 = (Queue.processQueue cl w).1
    /\ out.1.2 = Returned {| success := (Queue.failed result =? 0)%nat;
                             processResult := Some result;
                             error_message := None |}
    /\ syncState g' = (if (Queue.failed result =? 0)%nat then completed else error)
    /\ lastSyncAt g' = Some t_end
    /\ lastError g' =
       (if (Queue.failed result =? 0)%nat then lastError g
        else Some (pretty (Queue.failed result) +:+ " items failed to sync"))
    /\ notified g' =
       notified g
       ++ [ {| state := syncing; status_lastSyncAt := lastSyncAt g;
               status_lastError := lastError g;
               status_isAutoSyncEnabled := isAutoSyncEnabled g |};
            getSyncStatus g' ].
Proof.
  intros Hs Hsoon Hon out g'. subst g' out. rewrite syncNow_unfold.
  rewrite (SyncProps.is_syncing_false _ Hs), Hsoon, Hon. cbv zeta. cbn [fst snd].
  destruct (processQueue_ok cl w) as [result Hr]. exists result. rewrite Hr.
  split; [reflexivity|]. split; [reflexivity|].
  unfold syncNow_step.
  destruct (Queue.failed result) as [|n] eqn:Ef; cbn [Nat.ltb Nat.leb Nat.eqb fst snd].
  - repeat split; unfold updateState, notifyListeners, getSyncStatus; cbn;
      rewrite <- ?app_assoc; reflexivity.
  - repeat split; unfold updateState, notifyListeners, getSyncStatus; cbn;
      rewrite <- ?app_assoc; reflexivity.
Qed.

Lemma syncNow_pass_reports_example :
  let g := Examples.service_idle in
  let w := Examples.world [Examples.draft_new "d1" (Some "file:///rec.m4a")]
             [Examples.item_new "q1" "d1" QueueItem.both 10] in
  let out := syncNow Examples.clients_ok Examples.online 1700000040000 1700000041000
               (g, w) in
  exists result,
    out.1.2 = Returned {| success := (Queue.failed result =? 0)%nat;
                          processResult := Some result; error_message := None |}
    /\ syncState out.1.1.1
       = (if (Queue.failed result =? 0)%nat then completed else error)
    /\ lastSyncAt out.1.1.1 = Some 1700000041000.
Proof.
  intros g w out.
  destruct (syncNow_pass_reports Examples.clients_ok Examples.online
              1700000040000 1700000041000 g w ltac:(discriminate) eq_refl eq_refl)
    as (result & _ & _ & Hret & Hstate & Hlast & _).
  exists result. split; [exact Hret|]. split; [exact Hstate|exact Hlast].
Defined.

(** X17: A pass in which items failed arms the rate limiter like any other: a
    call made less than 30 s after it ended returns [success: true] without
    a [processResult], runs no pass and leaves the queue as the failed pass
    left it, whatever the network and the clients would now answer. *)
Theorem failed_pass_blocks_retry (cl cl' : Queue.Clients) (net net' : NetworkState)
    (s1 e1 s2 e2 : Z) (g : Globals) (w : Db.World) (result : Queue.QueueProcessResult) :
  syncState g <> syncing -> too_soon s1 g = false -> is_offline net = false ->
  (Queue.processQueue cl w).2 = Ok result -> (0 < Queue.failed result)%nat ->
  0 < e1 -> s2 - e1 < 30000 ->
  let first := syncNow cl net s1 e1 (g, w) in
  first.1.2 = Returned {| success := false; processResult := Some result;
                          error_message := None |}
  /\ syncState first.1.1.1 = error
  /\ syncNow cl' net' s2 e2 first.1.1 = (first.1.1, Returned skipped, 0%nat).
Proof.
  intros Hs Hsoon Hon Hr Hf He1 Hlt first. subst first. rewrite syncNow_unfold.
  rewrite (SyncProps.is_syncing_false _ Hs), Hsoon, Hon. cbv zeta. cbn [fst snd].
  rewrite Hr.
  set (g1 := updateState e1 error
               (Some (pretty (Queue.failed result) +:+ " items failed to sync"))
               (updateState s1 syncing None g)).
  assert (Hstep : syncNow_step e1 (updateState s1 syncing None g) AwaitQueue
                    (ProcessQueueGave (Ok result))
                  = (g1, Returned {| success := false; processResult := Some result;
                                     error_message := None |}, [])).
  { unfold syncNow_step. apply Nat.ltb_lt in Hf as Hf'. rewrite Hf'.
    assert (Hz : (Queue.failed result =? 0)%nat = false) by (apply Nat.eqb_neq; lia).
    rewrite Hz. reflexivity. }
  rewrite Hstep. cbn [fst snd].
  assert (Hg1 : syncState g1 = error /\ lastSyncAt g1 = Some e1)
    by (apply SyncProps.updateState_ends; reflexivity).
  destruct Hg1 as [Hst Hl].
  split; [reflexivity|]. split; [exact Hst|].
  rewrite syncNow_unfold, Hst. cbn [is_syncing].
  rewrite (SyncProps.too_soon_within s2 g1 e1 Hl ltac:(lia) Hlt). reflexivity.
Qed.

Lemma failed_pass_blocks_retry_example :
  let g := Examples.service_idle in
  let w := Examples.world
             [Examples.draft_transcribed "d1" (Some "file:///rec.m4a") "2 hours at 500"]
             [Examples.item_new "q1" "d1" QueueItem.both 10] in
  let first := syncNow Examples.clients_no_extraction Examples.online
                 1700000040000 1700000041000 (g, w) in
  syncState first.1.1.1 = error
  /\ syncNow Examples.clients_ok Examples.online 1700000050000 1700000051000 first.1.1
     = (first.1.1, Returned skipped, 0%nat).
Proof.
  intros g w first.
  destruct (failed_pass_blocks_retry Examples.clients_no_extraction Examples.clients_ok
              Examples.online Examples.online
              1700000040000 1700000041000 1700000050000 1700000051000 g w
              {| Queue.processed := 0; Queue.failed := 1; Queue.total := 1;
                 Queue.errors := [("q1", "Network request failed")] |}
              ltac:(discriminate) eq_refl eq_refl eq_refl ltac:(simpl; lia)
              ltac:(lia) ltac:(lia))
    as (_ & Hstate & Hnext).
  split; [exact Hstate|exact Hnext].
Defined.

(** *** The last error *)

Lemma updateState_lastError clock st err g :
  lastError g <> None -> lastError (updateState clock st err g) <> None.
Proof. intros H. unfold updateState, notifyListeners. cbn. destruct err; done. Qed.

Lemma syncNow_step_lastError clock g t r :
  lastError g <> None -> lastError (syncNow_step clock g t r).1.1 <> None.
Proof.
  intros H. unfold syncNow_step.
  repeat case_match; subst; cbn [fst snd]; try exact H;
    apply updateState_lastError, H.
Qed.

Lemma call_syncNow_lastError clock sys :
  lastError (globals sys) <> None ->
  lastError (globals (call_syncNow clock sys)) <> None.
Proof.
  intros H. apply (syncNow_step_lastError clock _ Called Enter) in H.
  unfold call_syncNow.
  destruct (syncNow_step clock (globals sys) Called Enter) as [[g t] es]. exact H.
Qed.

Lemma turn_lastError sys tn :
  lastError (globals sys) <> None -> lastError (globals (turn sys tn)) <> None.
Proof.
  intros H. unfold turn. destruct (tasks sys !! who tn) as [t|]; [|exact H].
  apply (syncNow_step_lastError (at_time tn) _ t (resume tn)) in H.
  destruct (syncNow_step (at_time tn) (globals sys) t (resume tn)) as [[g t'] es].
  exact H.
Qed.

Lemma onNetworkChange_system clock c r s : system (onNetworkChange clock c r s) = system s.
Proof.
  unfold onNetworkChange. destruct (isOnline c r && enabled s); [|reflexivity].
  cbn [setTimeout]. reflexivity.
Qed.

Lemma networkStateChanged_system clock c r s :
  system (networkStateChanged clock c r s) = system s.
Proof.
  unfold networkStateChanged. generalize (netListeners (runtime s)). intros l.
  revert s. induction l as [|x l IH]; intros s; [reflexivity|].
  cbn [fold_left]. rewrite IH. apply onNetworkChange_system.
Qed.

Lemma react_lastError s ev :
  lastError (globals (system s)) <> None ->
  lastError (globals (system (react s ev))) <> None.
Proof.
  intros H. unfold react. destruct ev as [clock [net| | |c r|c r|h| |who resume]];
    cbn [fst snd].
  - unfold initialize, with_globals, notifyListeners. cbn [system globals lastError].
    destruct (negb (is_offline net)); [apply call_syncNow_lastError, H|exact H].
  - unfold startAutoSync. destruct (enabled s); [exact H|]. cbn. exact H.
  - unfold stopAutoSync. destruct (enabled s); cbn [negb]; [|exact H]. cbn. exact H.
  - rewrite onNetworkChange_system. exact H.
  - rewrite networkStateChanged_system. exact H.
  - unfold timerFires. destruct (timers (runtime s) !! h) as [due|]; [|exact H].
    destruct (due <=? clock)%Z; [|exact H]. cbn [system].
    apply call_syncNow_lastError, H.
  - cbn [system]. apply call_syncNow_lastError, H.
  - cbn [system]. apply turn_lastError, H.
Qed.

(** X18: Once [lastError] holds a message it holds one for good: whatever
    happens to the service, a pass that completes included, nothing sets it
    back to [null]. *)
Theorem lastError_sticks (evs : list (Z * Event)) (s : Service) :
  lastError (globals (system s)) <> None ->
  lastError (globals (system (history s evs))) <> None.
Proof.
  revert s. unfold history. induction evs as [|ev evs IH]; intros s H; [exact H|].
  cbn [fold_left]. apply IH, react_lastError, H.
Qed.

Lemma lastError_sticks_example :
  let failure := {| syncState := error; lastSyncAt := Some 1700000000000;
                    lastError := Some "1 items failed to sync";
                    isAutoSyncEnabled := false; notified := [] |} in
  let s := {| system := {| globals := failure; tasks := []; effects := [] |};
              networkSubscription := None; syncDebounceTimeout := None;
              runtime := runtime loaded |} in
  let s' := history s
              [(1700000040000, SyncNow);
               (1700000040010, Resumes 0 (NetworkStateIs (Ok Examples.online)));
               (1700000041000,
                Resumes 0 (ProcessQueueGave
                             (Ok {| Queue.processed := 1; Queue.failed := 0;
                                    Queue.total := 1; Queue.errors := [] |})))] in
  syncState (globals (system s')) = completed
  /\ lastError (globals (system s')) <> None.
Proof.
  intros failure s s'. split; [reflexivity|].
  apply (lastError_sticks _ s). discriminate.
Defined.

End SyncFacts.

(** ** Auto-sync *)

Module AutoSyncFacts.
Import Sync AutoSync.

Lemma syncNow_step_enabled clock g t r :
  isAutoSyncEnabled (syncNow_step clock g t r).1.1 = isAutoSyncEnabled g.
Proof.
  unfold syncNow_step.
  repeat case_match; subst; cbn [fst snd]; try reflexivity.
Qed.

Lemma call_syncNow_enabled clock sys :
  isAutoSyncEnabled (globals (call_syncNow clock sys)) = isAutoSyncEnabled (globals sys).
Proof.
  unfold call_syncNow. rewrite <- (syncNow_step_enabled clock (globals sys) Called Enter).
  destruct (syncNow_step clock (globals sys) Called Enter) as [[g t] es]. reflexivity.
Qed.

Lemma turn_enabled sys tn :
  isAutoSyncEnabled (globals (turn sys tn)) = isAutoSyncEnabled (globals sys).
Proof.
  unfold turn. destruct (tasks sys !! who tn) as [t|]; [|reflexivity].
  rewrite <- (syncNow_step_enabled (at_time tn) (globals sys) t (resume tn)).
  destruct (syncNow_step (at_time tn) (globals sys) t (resume tn)) as [[g t'] es].
  reflexivity.
Qed.

Lemma tidy_loaded : tidy loaded.
Proof.
  unfold tidy, loaded, enabled. cbn. repeat split; try done.
  all: intros [x Hx]; try rewrite lookup_empty in Hx; discriminate.
Qed.

Lemma tidy_startAutoSync s : tidy s -> tidy (startAutoSync s).
Proof.
  intros H. unfold startAutoSync.
  case_eq (enabled s); intros E; [exact H|].
  destruct H as (Hl & Ht & Hs & Hd).
  assert (Hn : networkSubscription s = None).
  { destruct (networkSubscription s) eqn:En; [|reflexivity].
    assert (enabled s = true) by (apply Hs; eauto). congruence. }
  unfold tidy, enabled. cbn. rewrite Hl, Hn. cbn.
  repeat split; try apply Ht; eauto; discriminate.
Qed.

Lemma tidy_stopAutoSync s : tidy s -> tidy (stopAutoSync s).
Proof.
  intros H. unfold stopAutoSync.
  case_eq (enabled s); intros E; cbn [negb]; [|exact H].
  destruct H as (Hl & Ht & Hs & Hd).
  unfold tidy, enabled. cbn [system runtime networkSubscription syncDebounceTimeout
                             with_globals globals notifyListeners isAutoSyncEnabled
                             set_isAutoSyncEnabled option_list].
  split; [|split; [|split]].
  - assert (Hrm : netListeners
       match networkSubscription s with
       | Some h => subscription_remove h (runtime s)
       | None => runtime s
       end = []).
    { destruct (networkSubscription s) as [h|]; cbn in *; rewrite Hl; cbn;
        [rewrite Pos.eqb_refl|]; reflexivity. }
    destruct (syncDebounceTimeout s); cbn; exact Hrm.
  - intros h. split; [|discriminate]. intros [due Hdue]. exfalso.
    assert (Htm : forall rt, timers match networkSubscription s with
                              | Some h0 => subscription_remove h0 rt
                              | None => rt end = timers rt).
    { intros rt. destruct (networkSubscription s); reflexivity. }
    destruct (syncDebounceTimeout s) as [h0|] eqn:Eh; cbn in Hdue;
      rewrite Htm in Hdue.
    + destruct (decide (h = h0)) as [->|Hne].
      * rewrite lookup_delete_eq in Hdue. discriminate.
      * rewrite lookup_delete_ne in Hdue by congruence.
        assert (Some h0 = Some h) by (apply Ht; eauto). congruence.
    + assert (None = Some h) by (apply Ht; eauto). discriminate.
  - split; [intros [x Hx]|]; discriminate.
  - reflexivity.
Qed.

Lemma tidy_onNetworkChange clock c r s : tidy s -> tidy (onNetworkChange clock c r s).
Proof.
  intros H. unfold onNetworkChange.
  case_eq (isOnline c r && enabled s); intros E; [|exact H].
  destruct H as (Hl & Ht & Hs & Hd).
  apply andb_prop in E as [_ E].
  unfold tidy, enabled in *. cbn [setTimeout].
  cbn [system runtime networkSubscription syncDebounceTimeout netListeners timers].
  assert (Hrt : forall rt, netListeners match syncDebounceTimeout s with
                             | Some h => clearTimeout h rt | None => rt end
                           = netListeners rt).
  { intros rt. destruct (syncDebounceTimeout s); reflexivity. }
  rewrite !Hrt.
  split; [exact Hl|]. split; [|split; [exact Hs|congruence]].
  intros h. set (h' := nextHandle _).
  destruct (decide (h = h')) as [->|Hne].
  - rewrite lookup_insert_eq. split; eauto.
  - rewrite lookup_insert_ne by congruence. split; [|congruence].
    intros [due Hdue]. exfalso.
    destruct (syncDebounceTimeout s) as [h0|] eqn:Eh; cbn in Hdue.
    + destruct (decide (h = h0)) as [->|Hne0].
      * rewrite lookup_delete_eq in Hdue. discriminate.
      * rewrite lookup_delete_ne in Hdue by congruence.
        assert (Some h0 = Some h) by (apply Ht; eauto). congruence.
    + assert (None = Some h) by (apply Ht; eauto). discriminate.
Qed.

Lemma tidy_networkStateChanged clock c r s :
  tidy s -> tidy (networkStateChanged clock c r s).
Proof.
  unfold networkStateChanged. generalize (netListeners (runtime s)).
  intros l. revert s. induction l as [|x l IH]; intros s H; [exact H|].
  cbn [fold_left]. apply IH, tidy_onNetworkChange, H.
Qed.

Lemma tidy_timerFires clock h s : tidy s -> tidy (timerFires clock h s).
Proof.
  intros H. unfold timerFires.
  case_eq (timers (runtime s) !! h); [intros due E|intros _; exact H].
  destruct (due <=? clock)%Z; [|exact H].
  destruct H as (Hl & Ht & Hs & Hd).
  assert (Hh : syncDebounceTimeout s = Some h) by (apply Ht; eauto).
  unfold tidy, enabled in *.
  cbn [system runtime networkSubscription syncDebounceTimeout netListeners timers
       clearTimeout].
  rewrite call_syncNow_enabled.
  split; [exact Hl|]. split; [|split; [exact Hs|reflexivity]].
  intros h1. split; [|discriminate]. intros [d1 Hd1]. exfalso.
  destruct (decide (h1 = h)) as [->|Hne].
  - rewrite lookup_delete_eq in Hd1. discriminate.
  - rewrite lookup_delete_ne in Hd1 by congruence.
    assert (Some h = Some h1) by (rewrite <- Hh; apply Ht; eauto). congruence.
Qed.

Lemma tidy_system s sys :
  tidy s ->
  isAutoSyncEnabled (globals sys) = isAutoSyncEnabled (globals (system s)) ->
  tidy {| system := sys; networkSubscription := networkSubscription s;
          syncDebounceTimeout := syncDebounceTimeout s; runtime := runtime s |}.
Proof.
  intros (Hl & Ht & Hs & Hd) He. unfold tidy, enabled in *.
  cbn [system runtime networkSubscription syncDebounceTimeout]. rewrite He.
  auto.
Qed.

Lemma tidy_react s ev : tidy s -> tidy (react s ev).
Proof.
  intros H. unfold react. destruct ev as [clock [net| | |c r|c r|h| |who resume]];
    cbn [fst snd].
  - unfold initialize. apply tidy_system; [exact H|].
    unfold with_globals, notifyListeners. cbn [globals isAutoSyncEnabled].
    destruct (negb (is_offline net)); [apply call_syncNow_enabled|reflexivity].
  - apply tidy_startAutoSync, H.
  - apply tidy_stopAutoSync, H.
  - apply tidy_onNetworkChange, H.
  - apply tidy_networkStateChanged, H.
  - apply tidy_timerFires, H.
  - apply tidy_system; [exact H|apply call_syncNow_enabled].
  - apply tidy_system; [exact H|apply turn_enabled].
Qed.

Lemma tidy_history evs : forall s, tidy s -> tidy (history s evs).
Proof.
  unfold history. induction evs as [|ev evs IH]; intros s H; [exact H|].
  cbn [fold_left]. apply IH, tidy_react, H.
Qed.

Lemma tidy_at_most_one s :
  tidy s ->
  (length (netListeners (runtime s)) <= 1)%nat
  /\ (forall h h', is_Some (timers (runtime s) !! h) ->
                   is_Some (timers (runtime s) !! h') -> h = h')
  /\ (enabled s = false ->
      netListeners (runtime s) = [] /\ timers (runtime s) = ∅).
Proof.
  intros (Hl & Ht & Hs & Hd). split; [|split].
  - rewrite Hl. destruct (networkSubscription s); cbn; lia.
  - intros h h' H1 H2. apply Ht in H1, H2. congruence.
  - intros He. split.
    + rewrite Hl. destruct (networkSubscription s) eqn:En; [|reflexivity].
      assert (enabled s = true) by (apply Hs; eauto). congruence.
    + apply map_eq. intros h. rewrite lookup_empty.
      destruct (timers (runtime s) !! h) eqn:E; [|reflexivity].
      assert (syncDebounceTimeout s = Some h) by (apply Ht; eauto).
      rewrite Hd in H by exact He. discriminate.
Qed.

(** X19: Whatever has happened to the service since the module was loaded, the
    runtime holds at most one network listener and at most one debounce
    timer for it, and none of either while auto-sync is off. *)
Theorem one_listener_one_timer (evs : list (Z * Event)) :
  let s := history loaded evs in
  (length (netListeners (runtime s)) <= 1)%nat
  /\ (forall h h', is_Some (timers (runtime s) !! h) ->
                   is_Some (timers (runtime s) !! h') -> h = h')
  /\ (enabled s = false ->
      netListeners (runtime s) = [] /\ timers (runtime s) = ∅).
Proof. apply tidy_at_most_one, tidy_history, tidy_loaded. Qed.

Lemma one_listener_one_timer_example :
  let s := history loaded
             [(0, StartAutoSync); (1000, NetworkStateChanged (Some true) None);
              (1500, StopAutoSync)] in
  netListeners (runtime s) = [] /\ timers (runtime s) = ∅.
Proof.
  intros s.
  destruct (one_listener_one_timer
              [(0, StartAutoSync); (1000, NetworkStateChanged (Some true) None);
               (1500, StopAutoSync)]) as (_ & _ & Hoff).
  apply Hoff. reflexivity.
Defined.

(** *** The debounce *)

Lemma networkStateChanged_one clock c r s :
  tidy s -> enabled s = true ->
  networkStateChanged clock c r s = onNetworkChange clock (default false c) r s.
Proof.
  intros (Hl & _ & Hs & _) He. unfold networkStateChanged. rewrite Hl.
  apply Hs in He as [h ->]. reflexivity.
Qed.

Lemma onNetworkChange_offline clock c r s :
  isOnline c r = false -> onNetworkChange clock c r s = s.
Proof. intros H. unfold onNetworkChange. rewrite H. reflexivity. Qed.

Lemma onNetworkChange_online clock c r s :
  tidy s -> enabled s = true -> isOnline c r = true ->
  system (onNetworkChange clock c r s) = system s
  /\ exists h, syncDebounceTimeout (onNetworkChange clock c r s) = Some h
               /\ timers (runtime (onNetworkChange clock c r s))
                  = {[h := clock + SYNC_DEBOUNCE_MS]}.
Proof.
  intros (Hl & Ht & Hs & Hd) He Ho. unfold onNetworkChange. rewrite Ho, He.
  cbn [andb setTimeout system syncDebounceTimeout runtime timers].
  split; [reflexivity|]. eexists. split; [reflexivity|].
  assert (Hrt : nextHandle match syncDebounceTimeout s with
                           | Some h => clearTimeout h (runtime s)
                           | None => runtime s end = nextHandle (runtime s)).
  { destruct (syncDebounceTimeout s); reflexivity. }
  rewrite Hrt. apply map_eq. intros h.
  destruct (decide (h = nextHandle (runtime s))) as [->|Hne].
  - rewrite lookup_insert_eq, lookup_singleton_eq. reflexivity.
  - rewrite lookup_insert_ne, lookup_singleton_ne by congruence.
    destruct (syncDebounceTimeout s) as [h0|] eqn:Eh; cbn [timers clearTimeout].
    + destruct (decide (h = h0)) as [->|Hne0]; [apply lookup_delete_eq|].
      rewrite lookup_delete_ne by congruence.
      destruct (timers (runtime s) !! h) eqn:E; [|reflexivity].
      assert (Some h0 = Some h) by (apply Ht; eauto). congruence.
    + destruct (timers (runtime s) !! h) eqn:E; [|reflexivity].
      assert (None = Some h) by (apply Ht; eauto). discriminate.
Qed.

Lemma history_snoc s evs ev : history s (evs ++ [ev]) = react (history s evs) ev.
Proof. unfold history. rewrite fold_left_app. reflexivity. Qed.

Lemma react_report s r :
  react s (report r) = networkStateChanged r.1 r.2.1 r.2.2 s.
Proof. reflexivity. Qed.

Lemma last_online_snoc reports r :
  last_online (reports ++ [r]) =
  if isOnline (default false r.2.1) r.2.2 then Some r.1 else last_online reports.
Proof.
  unfold last_online. rewrite List.filter_app. cbn [List.filter].
  destruct (isOnline (default false r.2.1) r.2.2); [|rewrite app_nil_r; reflexivity].
  rewrite List.map_app. cbn [List.map]. apply last_snoc.
Qed.

Lemma enabled_reports reports : forall s,
  tidy s -> enabled (history s (List.map report reports)) = enabled s.
Proof.
  induction reports as [|r reports IH] using rev_ind; intros s H; [reflexivity|].
  rewrite List.map_app. cbn [List.map]. rewrite history_snoc, react_report.
  rewrite <- (IH s H).
  pose proof (tidy_history (List.map report reports) s H) as H'.
  set (s1 := history s (List.map report reports)) in *.
  destruct (enabled s1) eqn:E.
  - rewrite (networkStateChanged_one _ _ _ _ H' E). unfold onNetworkChange.
    rewrite E. destruct (isOnline (default false r.2.1) r.2.2); [|exact E].
    cbn [andb setTimeout]. exact E.
  - unfold networkStateChanged. destruct H' as (Hl & _ & Hs & _). rewrite Hl.
    destruct (networkSubscription s1) eqn:En.
    + assert (enabled s1 = true) by (apply Hs; eauto). congruence.
    + exact E.
Qed.

(** X20: While auto-sync is on, a run of network reports sets no [syncNow] call
    going; it leaves one timer behind, due [SYNC_DEBOUNCE_MS] after the last
    report that said the device was online, whatever was reported after it.
    Fired before it is due the timer does nothing; fired when due it calls
    [syncNow] once and no timer remains. Reports that never say online
    change nothing. *)
Theorem network_reports_debounced
    (reports : list (Z * (option bool * option bool))) (s : Service) :
  tidy s -> enabled s = true ->
  let s' := history s (List.map report reports) in
  system s' = system s
  /\ match last_online reports with
     | Some t =>
       exists h,
         syncDebounceTimeout s' = Some h
         /\ timers (runtime s') = {[h := t + 2000]}
         /\ forall clock,
              (clock < t + 2000 -> timerFires clock h s' = s')
              /\ (t + 2000 <= clock ->
                  system (timerFires clock h s') = call_syncNow clock (system s)
                  /\ timers (runtime (timerFires clock h s')) = ∅
                  /\ syncDebounceTimeout (timerFires clock h s') = None)
     | None => s' = s
     end.
Proof.
  intros H He s'. subst s'.
  assert (Hmain : system (history s (List.map report reports)) = system s
    /\ match last_online reports with
       | Some t => exists h,
           syncDebounceTimeout (history s (List.map report reports)) = Some h
           /\ timers (runtime (history s (List.map report reports)))
              = {[h := t + SYNC_DEBOUNCE_MS]}
       | None => history s (List.map report reports) = s
       end).
  { induction reports as [|r reports IH] using rev_ind; [split; reflexivity|].
    rewrite List.map_app. cbn [List.map]. rewrite history_snoc, last_online_snoc.
    pose proof (tidy_history (List.map report reports) s H) as H'.
    pose proof (enabled_reports reports s H) as He'. rewrite He in He'.
    set (s1 := history s (List.map report reports)) in *.
    rewrite react_report, (networkStateChanged_one _ _ _ _ H' He').
    destruct IH as [IH1 IH2].
    destruct (isOnline (default false r.2.1) r.2.2) eqn:Eo.
    - destruct (onNetworkChange_online r.1 _ _ s1 H' He' Eo) as (Hsys & h & Hh & Htm).
      split; [congruence|]. exists h. auto.
    - rewrite (onNetworkChange_offline _ _ _ _ Eo). split; [exact IH1|exact IH2]. }
  destruct Hmain as [Hsys Hlast]. split; [exact Hsys|].
  destruct (last_online reports) as [t|]; [|exact Hlast].
  destruct Hlast as (h & Hh & Htm). exists h. split; [exact Hh|].
  split; [exact Htm|]. intros clock. unfold timerFires. rewrite Htm.
  rewrite lookup_singleton_eq. unfold SYNC_DEBOUNCE_MS. split.
  - intros Hlt. apply Z.leb_gt in Hlt. rewrite Hlt. reflexivity.
  - intros Hle. apply Z.leb_le in Hle. rewrite Hle.
    cbn [system runtime syncDebounceTimeout clearTimeout timers].
    rewrite Hsys, Htm, delete_singleton_eq. auto.
Qed.

Lemma network_reports_debounced_example :
  let s := startAutoSync loaded in
  let s' := history s
              (List.map report [ (1000, (Some true, Some true));
                                 (1400, (Some true, None));
                                 (1900, (Some false, None)) ]) in
  system s' = system s
  /\ exists h,
       syncDebounceTimeout s' = Some h
       /\ timers (runtime s') = {[h := 3400]}
       /\ forall clock,
            (clock < 3400 -> timerFires clock h s' = s')
            /\ (3400 <= clock ->
                system (timerFires clock h s') = call_syncNow clock (system s)
                /\ timers (runtime (timerFires clock h s')) = ∅
                /\ syncDebounceTimeout (timerFires clock h s') = None).
Proof.
  intros s s'.
  exact (network_reports_debounced
           [ (1000, (Some true, Some true)); (1400, (Some true, None));
             (1900, (Some false, None)) ]
           s (tidy_startAutoSync loaded tidy_loaded) eq_refl).
Defined.

(** *** Stopping *)

(** X21: Once [stopAutoSync] has run, auto-sync is off and the runtime holds no
    listener and no timer of the service: no report of the network, no call
    of [onNetworkChange] and no timer does anything from then on. *)
Theorem stopAutoSync_cancels (s : Service) :
  tidy s ->
  let s' := stopAutoSync s in
  enabled s' = false
  /\ netListeners (runtime s') = []
  /\ timers (runtime s') = ∅
  /\ forall clock,
       (forall c r, networkStateChanged clock c r s' = s')
       /\ (forall c r, onNetworkChange clock c r s' = s')
       /\ (forall h, timerFires clock h s' = s').
Proof.
  intros H s'.
  assert (He : enabled s' = false).
  { subst s'. unfold stopAutoSync. destruct (enabled s) eqn:E; [reflexivity|exact E]. }
  pose proof (tidy_at_most_one s' (tidy_stopAutoSync s H)) as (_ & _ & Hoff).
  destruct (Hoff He) as [Hl Ht].
  split; [exact He|]. split; [exact Hl|]. split; [exact Ht|].
  intros clock. split; [|split].
  - intros c r. unfold networkStateChanged. rewrite Hl. reflexivity.
  - intros c r. unfold onNetworkChange. rewrite He, andb_false_r. reflexivity.
  - intros h. unfold timerFires. rewrite Ht, lookup_empty. reflexivity.
Qed.

Lemma stopAutoSync_cancels_example :
  let s := history loaded
             [(0, StartAutoSync); (1000, NetworkStateChanged (Some true) None)] in
  timers (runtime s) = {[2%positive := 3000]}
  /\ timers (runtime (stopAutoSync s)) = ∅
  /\ timerFires 3000 2 (stopAutoSync s) = stopAutoSync s.
Proof.
  intros s.
  destruct (stopAutoSync_cancels s
              (tidy_history [(0, StartAutoSync);
                             (1000, NetworkStateChanged (Some true) None)]
                 loaded tidy_loaded)) as (_ & _ & Ht & Hn).
  split; [reflexivity|]. split; [exact Ht|]. apply (Hn 3000).
Defined.

(** *** A debounced call that comes at the wrong time *)

(** What [syncNow] returns when a pass is in flight or the last one ended
    less than [MIN_SYNC_INTERVAL_MS] ago. *)
Lemma syncNow_turned_away clock g :
  syncState g = syncing \/ too_soon clock g = true ->
  exists r, syncNow_step clock g Called Enter = (g, Returned r, [])
            /\ processResult r = None.
Proof.
  intros H. unfold syncNow_step.
  destruct (is_syncing (syncState g)) eqn:E; [eexists; split; reflexivity|].
  destruct H as [H|H].
  - rewrite H in E. discriminate.
  - rewrite H. eexists. split; reflexivity.
Qed.

(** X22: When the debounce timer fires while a pass is in flight, or less than
    30 s after the last pass ended, the call of [syncNow] it makes returns
    without probing the network or running a pass, and nothing schedules
    another: the service is left without a timer. *)
Theorem debounced_call_dropped (clock due : Z) (h : positive) (s : Service) :
  tidy s ->
  timers (runtime s) !! h = Some due -> due <= clock ->
  syncState (globals (system s)) = syncing
  \/ too_soon clock (globals (system s)) = true ->
  let s' := timerFires clock h s in
  globals (system s') = globals (system s)
  /\ effects (system s') = effects (system s)
  /\ (exists r, tasks (system s') = tasks (system s) ++ [Returned r]
                /\ processResult r = None)
  /\ timers (runtime s') = ∅
  /\ syncDebounceTimeout s' = None.
Proof.
  intros H Hh Hdue Hbusy s'. subst s'. unfold timerFires. rewrite Hh.
  apply Z.leb_le in Hdue. rewrite Hdue.
  cbn [system runtime syncDebounceTimeout clearTimeout timers].
  destruct (syncNow_turned_away clock _ Hbusy) as (r & Hr & Hnone).
  unfold call_syncNow. rewrite Hr. cbn [globals effects tasks].
  split; [reflexivity|]. split; [apply app_nil_r|].
  split; [exists r; auto|]. split; [|reflexivity].
  destruct H as (_ & Ht & _ & _).
  apply map_eq. intros h'. rewrite lookup_empty.
  destruct (decide (h' = h)) as [->|Hne]; [apply lookup_delete_eq|].
  rewrite lookup_delete_ne by congruence.
  destruct (timers (runtime s) !! h') eqn:E; [|reflexivity].
  assert (syncDebounceTimeout s = Some h') by (apply Ht; eauto).
  assert (syncDebounceTimeout s = Some h) by (apply Ht; eauto). congruence.
Qed.

Lemma debounced_call_dropped_example :
  let s := history loaded
             [(1000, StartAutoSync); (2000, SyncNow);
              (2010, Resumes 0 (NetworkStateIs (Ok Examples.online)));
              (2500, NetworkStateChanged (Some true) (Some true))] in
  let s' := timerFires 4500 2 s in
  syncState (globals (system s)) = syncing
  /\ effects (system s') = effects (system s)
  /\ timers (runtime s') = ∅.
Proof.
  intros s s'.
  destruct (debounced_call_dropped 4500 4500 2 s
              (tidy_history _ loaded tidy_loaded) eq_refl ltac:(lia)
              (or_introl eq_refl)) as (_ & He & _ & Ht & _).
  split; [reflexivity|]. split; [exact He|exact Ht].
Defined.

End AutoSyncFacts.

(** ** More about the extraction client *)

Module GeminiFacts.
Import Gemini GeminiProps.
Local Open Scope M_scope.

(** *** The requests a call sends *)



(** *** Errors that end the call *)

Lemma parseAttempt_rejected pf attempt transcript options sent ok status data :
  fetch pf (length sent) (mainRequest pf transcript options) = Response ok status (Ok data) ->
  negb ok || bool_decide (is_Some (error data)) = true ->
  (parseAttempt pf attempt transcript options sent).2 =
  Throw (if (status =? 401)%Z || (status =? 403)%Z
         then GeminiError API_ERROR "Invalid API key" false
         else if (status =? 429)%Z then GeminiError API_ERROR "Rate limit exceeded" true
         else if (500 <=? status)%Z
         then GeminiError API_ERROR (or_string (error data) ("HTTP " +:+ pretty status)) true
         else GeminiError API_ERROR (or_string (error data) ("HTTP " +:+ pretty status))
                (attempt <? MAX_RETRIES - 1)%Z).
Proof.
  intros Hf Hbad. unfold parseAttempt, bind, call_fetch, settle, throw. rewrite Hf.
  cbn [snd]. rewrite Hbad.
  destruct ((status =? 401)%Z || (status =? 403)%Z); [reflexivity|].
  destruct (status =? 429)%Z; [reflexivity|].
  destruct (500 <=? status)%Z; reflexivity.
Qed.

Lemma retryLoop_turn_final pf remaining attempt transcript options lastError sent e :
  (parseAttempt pf attempt transcript options sent).2 = Throw e ->
  is_final e = true ->
  retryLoop pf (S remaining) attempt transcript options lastError sent
  = (sent ++ [mainRequest pf transcript options], Throw e).
Proof.
  intros Hthrow Hfinal. cbn [retryLoop]. unfold bind at 1, Js.attempt.
  pose proof (parseAttempt_sent pf attempt transcript options sent) as Hs.
  destruct (parseAttempt pf attempt transcript options sent) as [sent' r].
  cbn in Hthrow, Hs. subst. rewrite Hfinal. reflexivity.
Qed.

Lemma retryLoop_turn_returns pf remaining attempt transcript options lastError sent invoice :
  (parseAttempt pf attempt transcript options sent).2 = Ok invoice ->
  retryLoop pf (S remaining) attempt transcript options lastError sent
  = (sent ++ [mainRequest pf transcript options], Ok (inl invoice)).
Proof.
  intros Hok. cbn [retryLoop]. unfold bind at 1, Js.attempt.
  pose proof (parseAttempt_sent pf attempt transcript options sent) as Hs.
  destruct (parseAttempt pf attempt transcript options sent) as [sent' r].
  cbn in Hok, Hs. subst. reflexivity.
Qed.

(** An answer with status 401 or 403 to the first request ends the call:
    it throws ['Invalid API key'], not retryable, with that one request
    sent and no fallback. *)
Theorem parseTranscript_invalid_key
    (pf : Platform) (transcript : string) (options : option InvoiceExtractionOptions)
    (sent : list Request) (ok : bool) (status : Z) (data : GeminiResponse) :
  is_blank transcript = false ->
  fetch pf (length sent) (mainRequest pf transcript options) = Response ok status (Ok data) ->
  negb ok || bool_decide (is_Some (error data)) = true ->
  status = 401 \/ status = 403 ->
  parseTranscript pf transcript options sent
  = (sent ++ [mainRequest pf transcript options],
     Throw (GeminiError API_ERROR "Invalid API key" false)).
Proof.
  intros Hb Hf Hbad Hst. unfold parseTranscript. rewrite Hb.
  change (Z.to_nat MAX_RETRIES) with 3%nat. unfold bind.
  rewrite (retryLoop_turn_final pf 2 0 transcript options None sent
             (GeminiError API_ERROR "Invalid API key" false)); [reflexivity| |reflexivity].
  rewrite (parseAttempt_rejected pf 0 transcript options sent ok status data Hf Hbad).
  assert (Hkey : (status =? 401)%Z || (status =? 403)%Z = true)
    by (destruct Hst as [-> | ->]; reflexivity).
  rewrite Hkey. reflexivity.
Qed.

Lemma parseTranscript_invalid_key_example :
  let pf := Examples.platform
              (Response false 403 (Ok {| text := None; error := Some "forbidden" |}))
              (fun _ => None) in
  parseTranscript pf "2 hours at 500" None []
  = ([mainRequest pf "2 hours at 500" None],
     Throw (GeminiError API_ERROR "Invalid API key" false)).
Proof.
  intros pf.
  apply (parseTranscript_invalid_key pf "2 hours at 500" None [] false 403
           {| text := None; error := Some "forbidden" |}
           eq_refl eq_refl eq_refl (or_intror eq_refl)).
Defined.

(** X24: A client error other than 401, 403 and 429 is retried twice; at the
    third attempt the loop marks it final, so the call throws it after
    three main requests and the fallback is never tried. *)
Theorem parseTranscript_client_error_no_fallback
    (pf : Platform) (transcript : string) (options : option InvoiceExtractionOptions)
    (sent : list Request) (ok : bool) (status : Z) (data : GeminiResponse) :
  is_blank transcript = false ->
  (forall n, fetch pf n (mainRequest pf transcript options)
             = Response ok status (Ok data)) ->
  negb ok || bool_decide (is_Some (error data)) = true ->
  status < 500 -> status <> 401 -> status <> 403 -> status <> 429 ->
  parseTranscript pf transcript options sent
  = (sent ++ replicate 3 (mainRequest pf transcript options),
     Throw (GeminiError API_ERROR (or_string (error data) ("HTTP " +:+ pretty status))
              false)).
Proof.
  intros Hb Hf Hbad H500 H401 H403 H429. unfold parseTranscript. rewrite Hb.
  change (Z.to_nat MAX_RETRIES) with 3%nat.
  set (msg := or_string (error data) ("HTTP " +:+ pretty status)).
  assert (Hturn : forall attempt s,
    (parseAttempt pf attempt transcript options s).2
    = Throw (GeminiError API_ERROR msg (attempt <? MAX_RETRIES - 1)%Z)).
  { intros attempt s.
    rewrite (parseAttempt_rejected pf attempt transcript options s ok status data
               (Hf _) Hbad).
    apply Z.eqb_neq in H401, H403, H429. apply Z.leb_gt in H500.
    rewrite H401, H403, H429, H500. reflexivity. }
  unfold bind.
  rewrite (retryLoop_turn_fails pf 2 0 transcript options None sent _ (Hturn 0 sent) eq_refl).
  rewrite (retryLoop_turn_fails pf 1 (0 + 1) transcript options _ _ _ (Hturn _ _) eq_refl).
  rewrite (retryLoop_turn_final pf 0 (0 + 1 + 1) transcript options _ _ _ (Hturn _ _) eq_refl).
  rewrite <- !app_assoc. reflexivity.
Qed.

Lemma parseTranscript_client_error_no_fallback_example :
  let pf := Examples.platform
              (Response false 404 (Ok {| text := None; error := Some "model not found" |}))
              (fun _ => None) in
  parseTranscript pf "2 hours at 500" None []
  = (replicate 3 (mainRequest pf "2 hours at 500" None),
     Throw (GeminiError API_ERROR "model not found" false)).
Proof.
  intros pf.
  apply (parseTranscript_client_error_no_fallback pf "2 hours at 500" None [] false 404
           {| text := None; error := Some "model not found" |}
           eq_refl (fun _ => eq_refl) eq_refl ltac:(lia) ltac:(lia) ltac:(lia)
           ltac:(lia)).
Defined.

(** *** Recovery *)

Lemma retryLoop_recovers pf transcript options invoice (k : nat) :
  forall remaining attempt lastError sent,
  (k < remaining)%nat ->
  (forall i, (i < k)%nat ->
     exists e,
       (parseAttempt pf (attempt + Z.of_nat i) transcript options
          (sent ++ replicate i (mainRequest pf transcript options))).2 = Throw e
       /\ is_final e = false) ->
  (parseAttempt pf (attempt + Z.of_nat k) transcript options
     (sent ++ replicate k (mainRequest pf transcript options))).2 = Ok invoice ->
  retryLoop pf remaining attempt transcript options lastError sent
  = (sent ++ replicate (S k) (mainRequest pf transcript options), Ok (inl invoice)).
Proof.
  induction k as [|k IH]; intros remaining attempt lastError sent Hk Hfail Hok.
  - destruct remaining as [|remaining]; [lia|].
    cbn [replicate] in *. rewrite app_nil_r, Z.add_0_r in Hok.
    apply retryLoop_turn_returns, Hok.
  - destruct remaining as [|remaining]; [lia|].
    destruct (Hfail 0%nat ltac:(lia)) as (e & He & Hfinal).
    cbn [replicate] in He. rewrite app_nil_r, Z.add_0_r in He.
    rewrite (retryLoop_turn_fails pf remaining attempt transcript options lastError
               sent e He Hfinal).
    rewrite (IH remaining (attempt + 1) (Some (kept_error e))
               (sent ++ [mainRequest pf transcript options]) ltac:(lia)).
    + rewrite <- app_assoc. reflexivity.
    + intros i Hi. destruct (Hfail (S i) ltac:(lia)) as (e' & He' & Hfinal').
      exists e'. split; [|exact Hfinal'].
      rewrite <- app_assoc. cbn [app].
      replace (attempt + 1 + Z.of_nat i) with (attempt + Z.of_nat (S i)) by lia.
      exact He'.
    + rewrite <- app_assoc. cbn [app].
      replace (attempt + 1 + Z.of_nat k) with (attempt + Z.of_nat (S k)) by lia.
      exact Hok.
Qed.

(** X25: If the first [k] attempts, [k] at most two, end in errors that are not
    final and the next one yields an invoice, the call returns that invoice
    with [k + 1] main requests sent: the errors before it leave no trace in
    the result and the fallback is not tried. *)
Theorem parseTranscript_recovers
    (pf : Platform) (transcript : string) (options : option InvoiceExtractionOptions)
    (sent : list Request) (k : nat) (invoice : ParsedInvoice) :
  is_blank transcript = false -> (k < 3)%nat ->
  (forall i, (i < k)%nat ->
     exists e,
       (parseAttempt pf (Z.of_nat i) transcript options
          (sent ++ replicate i (mainRequest pf transcript options))).2 = Throw e
       /\ is_final e = false) ->
  (parseAttempt pf (Z.of_nat k) transcript options
     (sent ++ replicate k (mainRequest pf transcript options))).2 = Ok invoice ->
  parseTranscript pf transcript options sent
  = (sent ++ replicate (S k) (mainRequest pf transcript options), Ok invoice).
Proof.
  intros Hb Hk Hfail Hok. unfold parseTranscript. rewrite Hb.
  change (Z.to_nat MAX_RETRIES) with 3%nat. unfold bind.
  rewrite (retryLoop_recovers pf transcript options invoice k 3 0 None sent Hk Hfail Hok).
  reflexivity.
Qed.

Lemma parseTranscript_recovers_example :
  let pf :=
    {| fetch := fun n _ =>
         if (n =? 0)%nat
         then Response false 503 (Ok {| text := None; error := None |})
         else Response true 200 (Ok {| text := Some "{}"; error := None |});
       extractJSON := fun s => s;
       JSON_parse := fun _ => Some (Shaped Examples.raw_without_amount);
       buildInvoiceExtractionPrompt := fun transcript _ => transcript;
       buildFallbackPrompt := fun transcript _ => transcript;
       Date_now := 1700000100000;
       toISOString := "2023-11-14T22:15:00.000Z" |} in
  parseTranscript pf "2 hours at 500" None []
  = (replicate 2 (mainRequest pf "2 hours at 500" None),
     Ok (transformToInvoice 1700000100000 "2023-11-14T22:15:00.000Z"
           Examples.raw_without_amount "2 hours at 500")).
Proof.
  intros pf.
  apply (parseTranscript_recovers pf "2 hours at 500" None [] 1
           (transformToInvoice 1700000100000 "2023-11-14T22:15:00.000Z"
              Examples.raw_without_amount "2 hours at 500")
           eq_refl ltac:(lia)).
  - intros i Hi. assert (i = 0%nat) as -> by lia. eexists. split; reflexivity.
  - reflexivity.
Defined.

(** *** The items of a transformed invoice *)











End GeminiFacts.

(** ** The transcription client *)

Module SttFacts.
Import Queue Stt.
Local Open Scope M_scope.

(** An attempt sends one request, however it ends. *)
Lemma transcribeAttempt_sent pf attempt audioBase64 sent :
  (transcribeAttempt pf attempt audioBase64 sent).1 = sent ++ [audioBase64].
Proof.
  unfold transcribeAttempt, bind, call_fetch, settle, throw, ret.
  destruct (fetch pf (length sent) audioBase64) as [e|[|] status json];
    try reflexivity; cbn [negb].
  - destruct json as [data|e]; [|reflexivity]. destruct (reading data); reflexivity.
  - destruct (status =? 400)%Z; [reflexivity|].
    destruct ((status =? 401)%Z || (status =? 403)%Z); [reflexivity|].
    destruct (500 <=? status)%Z; reflexivity.
Qed.

Lemma sttLoop_turn_fails pf remaining attempt audioBase64 lastError sent e :
  (transcribeAttempt pf attempt audioBase64 sent).2 = Throw e ->
  is_final e = false ->
  retryLoop pf (S remaining) attempt audioBase64 lastError sent
  = retryLoop pf remaining (attempt + 1) audioBase64 (Some (kept_error e))
      (sent ++ [audioBase64]).
Proof.
  intros Hthrow Hfinal. cbn [retryLoop]. unfold bind at 1, Js.attempt.
  pose proof (transcribeAttempt_sent pf attempt audioBase64 sent) as Hs.
  destruct (transcribeAttempt pf attempt audioBase64 sent) as [sent' r].
  cbn in Hthrow, Hs. subst. rewrite Hfinal. reflexivity.
Qed.

Lemma sttLoop_turn_final pf remaining attempt audioBase64 lastError sent e :
  (transcribeAttempt pf attempt audioBase64 sent).2 = Throw e ->
  is_final e = true ->
  retryLoop pf (S remaining) attempt audioBase64 lastError sent
  = (sent ++ [audioBase64], Throw e).
Proof.
  intros Hthrow Hfinal. cbn [retryLoop]. unfold bind at 1, Js.attempt.
  pose proof (transcribeAttempt_sent pf attempt audioBase64 sent) as Hs.
  destruct (transcribeAttempt pf attempt audioBase64 sent) as [sent' r].
  cbn in Hthrow, Hs. subst. rewrite Hfinal. reflexivity.
Qed.

Lemma sttLoop_turn_returns pf remaining attempt audioBase64 lastError sent res :
  (transcribeAttempt pf attempt audioBase64 sent).2 = Ok res ->
  retryLoop pf (S remaining) attempt audioBase64 lastError sent
  = (sent ++ [audioBase64], Ok (inl res)).
Proof.
  intros Hok. cbn [retryLoop]. unfold bind at 1, Js.attempt.
  pose proof (transcribeAttempt_sent pf attempt audioBase64 sent) as Hs.
  destruct (transcribeAttempt pf attempt audioBase64 sent) as [sent' r].
  cbn in Hok, Hs. subst. reflexivity.
Qed.

Lemma sttLoop_requests pf audioBase64 remaining :
  forall attempt lastError sent,
  exists k : nat,
    (retryLoop pf remaining attempt audioBase64 lastError sent).1
    = sent ++ replicate k audioBase64
    /\ (k <= remaining)%nat
    /\ (remaining <> 0%nat -> (1 <= k)%nat).
Proof.
  induction remaining as [|remaining IH]; intros attempt lastError sent.
  - exists 0%nat. cbn. rewrite app_nil_r. repeat split; intros; lia.
  - destruct (transcribeAttempt pf attempt audioBase64 sent) as [sent' [res|e]] eqn:E.
    + exists 1%nat.
      rewrite (sttLoop_turn_returns pf remaining attempt audioBase64 lastError sent res)
        by (rewrite E; reflexivity).
      repeat split; intros; lia.
    + destruct (is_final e) eqn:Ef.
      * exists 1%nat.
        rewrite (sttLoop_turn_final pf remaining attempt audioBase64 lastError sent e)
          by (rewrite ?E; auto).
        repeat split; intros; lia.
      * rewrite (sttLoop_turn_fails pf remaining attempt audioBase64 lastError sent e)
          by (rewrite ?E; auto).
        destruct (IH (attempt + 1) (Some (kept_error e)) (sent ++ [audioBase64]))
          as (k & Hsent & Hk & _).
        exists (S k). rewrite Hsent, <- app_assoc. repeat split; intros; lia.
Qed.

(** [transcribe] by the ways it can end. *)
Lemma transcribe_unfold pf audioUri sent :
  transcribe pf audioUri sent =
  if String.eqb audioUri "" then
    (sent, Throw (STTError NO_AUDIO "No audio URI provided" false))
  else
    match readAsStringAsync pf audioUri with
    | Throw _ => (sent, Throw (STTError INVALID_AUDIO "Failed to read audio file" false))
    | Ok audioBase64 =>
      match retryLoop pf 3 0 audioBase64 None sent with
      | (sent', Ok (inl res)) => (sent', Ok res)
      | (sent', Ok (inr lastError)) =>
        (sent', Throw (default (STTError STT_API_ERROR "Max retries exceeded" false)
                         lastError))
      | (sent', Throw e) => (sent', Throw e)
      end
    end.
Proof.
  unfold transcribe. destruct (String.eqb audioUri ""); [reflexivity|].
  unfold bind at 1, audioToBase64, try_catch, settle.
  destruct (readAsStringAsync pf audioUri) as [b|e]; [|reflexivity].
  change (Z.to_nat MAX_RETRIES) with 3%nat. unfold bind.
  destruct (retryLoop pf 3 0 b None sent) as [sent' [[res|lastError]|e]]; reflexivity.
Qed.

(** X27: Whatever the platform answers, a call sends the recording at most three
    times. It sends nothing exactly when the URI is empty or the file cannot
    be read, and then it throws an error that is not retryable. *)
Theorem transcribe_requests (pf : Platform) (audioUri : string) (sent : list string) :
  exists (k : nat) (audioBase64 : string),
    (transcribe pf audioUri sent).1 = sent ++ replicate k audioBase64
    /\ (k <= 3)%nat
    /\ (k = 0%nat <->
        audioUri = "" \/ exists e, readAsStringAsync pf audioUri = Throw e)
    /\ (k = 0%nat ->
        exists type message,
          (transcribe pf audioUri sent).2 = Throw (STTError type message false)).
Proof.
  rewrite transcribe_unfold. destruct (String.eqb audioUri "") eqn:Eu.
  { apply String.eqb_eq in Eu. exists 0%nat, "". cbn. rewrite app_nil_r.
    repeat split; intros; eauto; lia. }
  apply String.eqb_neq in Eu.
  destruct (readAsStringAsync pf audioUri) as [b|e] eqn:Er.
  - destruct (sttLoop_requests pf b 3 0 None sent) as (k & Hsent & Hk & Hpos).
    specialize (Hpos ltac:(lia)). exists k, b.
    destruct (retryLoop pf 3 0 b None sent) as [sent' [[res|lastError]|e]];
      cbn [fst snd] in *; subst sent'; (split; [reflexivity|]); (split; [lia|]);
      (split; [|intros; lia]); (split; [intros; lia|]);
      intros [H|[e' H]]; congruence.
  - exists 0%nat, "". cbn. rewrite app_nil_r. repeat split; intros; eauto; lia.
Qed.

(** *** Errors that end the call *)

(** X28: An answer to the first request that says the audio is bad (400) or the
    key is (401, 403), or that holds no results or no alternative, ends the
    call: it throws an error that is not retryable with that one request
    sent. Silence is not asked about twice. *)
Theorem transcribe_final_answer
    (pf : Platform) (audioUri audioBase64 : string) (sent : list string) :
  audioUri <> "" ->
  readAsStringAsync pf audioUri = Ok audioBase64 ->
  (exists status json,
     fetch pf (length sent) audioBase64 = Response false status json
     /\ (status = 400 \/ status = 401 \/ status = 403))
  \/ (exists status data,
        fetch pf (length sent) audioBase64 = Response true status (Ok data)
        /\ (reading data = NoResults \/ reading data = NoAlternative)) ->
  exists type message,
    transcribe pf audioUri sent
    = (sent ++ [audioBase64], Throw (STTError type message false))
    /\ (type = INVALID_AUDIO \/ type = STT_API_ERROR \/ type = NO_SPEECH_DETECTED).
Proof.
  intros Hu Hr Hans. rewrite transcribe_unfold.
  apply String.eqb_neq in Hu. rewrite Hu, Hr.
  assert (Hturn : exists type message,
    (transcribeAttempt pf 0 audioBase64 sent).2 = Throw (STTError type message false)
    /\ (type = INVALID_AUDIO \/ type = STT_API_ERROR \/ type = NO_SPEECH_DETECTED)).
  { unfold transcribeAttempt, bind, call_fetch, settle, throw.
    destruct Hans as [(status & json & Hf & Hst)|(status & data & Hf & Hrd)];
      rewrite Hf; cbn [negb snd].
    - destruct Hst as [-> | [-> | ->]]; cbn; eauto 6.
    - destruct Hrd as [-> | ->]; eauto 6. }
  destruct Hturn as (type & message & Hturn & Hty). exists type, message.
  rewrite (sttLoop_turn_final pf 2 0 audioBase64 None sent _ Hturn eq_refl). auto.
Qed.

Lemma transcribe_final_answer_example :
  let pf := {| readAsStringAsync := fun _ => Ok "AAAA";
               fetch := fun _ _ =>
                 Response true 200 (Ok {| error_message := None;
                                          reading := NoResults |}) |} in
  exists type message,
    transcribe pf "file:///rec.m4a" []
    = (["AAAA"], Throw (STTError type message false))
    /\ (type = INVALID_AUDIO \/ type = STT_API_ERROR \/ type = NO_SPEECH_DETECTED).
Proof.
  intros pf.
  apply (transcribe_final_answer pf "file:///rec.m4a" "AAAA" []
           ltac:(discriminate) eq_refl).
  right. exists 200, {| error_message := None; reading := NoResults |}.
  split; [reflexivity|left; reflexivity].
Defined.

(** *** Giving up and recovering *)

Lemma sttLoop_exhausted pf audioBase64 (remaining : nat) :
  forall attempt lastError sent,
  (forall i, (i < remaining)%nat ->
     exists e,
       (transcribeAttempt pf (attempt + Z.of_nat i) audioBase64
          (sent ++ replicate i audioBase64)).2 = Throw e
       /\ is_final e = false) ->
  exists lastError',
    retryLoop pf remaining attempt audioBase64 lastError sent
    = (sent ++ replicate remaining audioBase64, Ok (inr lastError'))
    /\ (remaining = 0%nat -> lastError' = lastError)
    /\ (remaining <> 0%nat ->
        exists e,
          (transcribeAttempt pf (attempt + Z.of_nat (remaining - 1)) audioBase64
             (sent ++ replicate (remaining - 1) audioBase64)).2 = Throw e
          /\ lastError' = Some (kept_error e)).
Proof.
  induction remaining as [|remaining IH]; intros attempt lastError sent Hfail.
  - exists lastError. cbn. rewrite app_nil_r. repeat split; intros; congruence.
  - destruct (Hfail 0%nat ltac:(lia)) as (e & He & Hfinal).
    cbn [replicate] in He. rewrite app_nil_r, Z.add_0_r in He.
    rewrite (sttLoop_turn_fails pf remaining attempt audioBase64 lastError sent e
               He Hfinal).
    destruct (IH (attempt + 1) (Some (kept_error e)) (sent ++ [audioBase64]))
      as (l' & Hloop & Hzero & Hpos).
    { intros i Hi. destruct (Hfail (S i) ltac:(lia)) as (e' & He' & Hfinal').
      exists e'. split; [|exact Hfinal']. rewrite <- app_assoc. cbn [app].
      replace (attempt + 1 + Z.of_nat i) with (attempt + Z.of_nat (S i)) by lia.
      exact He'. }
    exists l'. rewrite Hloop, <- app_assoc. split; [reflexivity|].
    split; [intros; lia|]. intros _.
    destruct remaining as [|remaining].
    + exists e. cbn [Nat.sub replicate]. rewrite app_nil_r, Z.add_0_r.
      split; [exact He|]. apply Hzero. reflexivity.
    + destruct (Hpos ltac:(lia)) as (e' & He' & Hl'). exists e'.
      split; [|exact Hl'].
      replace (S (S remaining) - 1)%nat with (S (S remaining - 1)) by lia.
      cbn [replicate]. rewrite <- app_assoc in He'. cbn [app] in He'.
      replace (attempt + Z.of_nat (S (S remaining - 1)))
        with (attempt + 1 + Z.of_nat (S remaining - 1)) by lia.
      exact He'.
Qed.

(** X29: When each of the three attempts ends in an error that is not final, the
    call throws after three requests, and what it throws is the error of the
    third attempt, a failure of [fetch] itself replaced by ['Network request
    failed']: unlike the extraction client this one has no fallback. *)
Theorem transcribe_exhausted
    (pf : Platform) (audioUri audioBase64 : string) (sent : list string) :
  audioUri <> "" ->
  readAsStringAsync pf audioUri = Ok audioBase64 ->
  (forall i, (i < 3)%nat ->
     exists e,
       (transcribeAttempt pf (Z.of_nat i) audioBase64
          (sent ++ replicate i audioBase64)).2 = Throw e
       /\ is_final e = false) ->
  exists e,
    (transcribeAttempt pf 2 audioBase64 (sent ++ replicate 2 audioBase64)).2 = Throw e
    /\ transcribe pf audioUri sent
       = (sent ++ replicate 3 audioBase64, Throw (kept_error e)).
Proof.
  intros Hu Hr Hfail. rewrite transcribe_unfold.
  apply String.eqb_neq in Hu. rewrite Hu, Hr.
  destruct (sttLoop_exhausted pf audioBase64 3 0 None sent Hfail)
    as (l' & Hloop & _ & Hlast).
  destruct (Hlast ltac:(lia)) as (e & He & ->). exists e.
  split; [exact He|]. rewrite Hloop. reflexivity.
Qed.

Lemma transcribe_exhausted_example :
  let pf := {| readAsStringAsync := fun _ => Ok "AAAA";
               fetch := fun _ _ => FetchRejects (TypeError "Failed to fetch") |} in
  exists e,
    (transcribeAttempt pf 2 "AAAA" ["AAAA"; "AAAA"]).2 = Throw e
    /\ transcribe pf "file:///rec.m4a" []
       = (["AAAA"; "AAAA"; "AAAA"], Throw (kept_error e)).
Proof.
  intros pf.
  apply (transcribe_exhausted pf "file:///rec.m4a" "AAAA" []
           ltac:(discriminate) eq_refl).
  intros i Hi. exists (TypeError "Failed to fetch"). split; reflexivity.
Defined.

Lemma sttLoop_recovers pf audioBase64 res (k : nat) :
  forall remaining attempt lastError sent,
  (k < remaining)%nat ->
  (forall i, (i < k)%nat ->
     exists e,
       (transcribeAttempt pf (attempt + Z.of_nat i) audioBase64
          (sent ++ replicate i audioBase64)).2 = Throw e
       /\ is_final e = false) ->
  (transcribeAttempt pf (attempt + Z.of_nat k) audioBase64
     (sent ++ replicate k audioBase64)).2 = Ok res ->
  retryLoop pf remaining attempt audioBase64 lastError sent
  = (sent ++ replicate (S k) audioBase64, Ok (inl res)).
Proof.
  induction k as [|k IH]; intros remaining attempt lastError sent Hk Hfail Hok.
  - destruct remaining as [|remaining]; [lia|].
    cbn [replicate] in *. rewrite app_nil_r, Z.add_0_r in Hok.
    apply sttLoop_turn_returns, Hok.
  - destruct remaining as [|remaining]; [lia|].
    destruct (Hfail 0%nat ltac:(lia)) as (e & He & Hfinal).
    cbn [replicate] in He. rewrite app_nil_r, Z.add_0_r in He.
    rewrite (sttLoop_turn_fails pf remaining attempt audioBase64 lastError sent e
               He Hfinal).
    rewrite (IH remaining (attempt + 1) (Some (kept_error e)) (sent ++ [audioBase64])
               ltac:(lia)).
    + rewrite <- app_assoc. reflexivity.
    + intros i Hi. destruct (Hfail (S i) ltac:(lia)) as (e' & He' & Hfinal').
      exists e'. split; [|exact Hfinal'].
      rewrite <- app_assoc. cbn [app].
      replace (attempt + 1 + Z.of_nat i) with (attempt + Z.of_nat (S i)) by lia.
      exact He'.
    + rewrite <- app_assoc. cbn [app].
      replace (attempt + 1 + Z.of_nat k) with (attempt + Z.of_nat (S k)) by lia.
      exact Hok.
Qed.

(** X30: If the first [k] attempts, [k] at most two, end in errors that are not
    final and the answer to the next request holds a first alternative, the
    call returns with [k + 1] requests sent. The transcript is the one of
    the alternative, and [''] if it has none or an empty one: an answer
    without text counts as a success. The confidence is a number, 0 if the
    alternative has none. *)
Theorem transcribe_recovers
    (pf : Platform) (audioUri audioBase64 : string) (sent : list string) (k : nat)
    (status : Z) (data : SttData) (text : option string) (conf : jsnum) :
  audioUri <> "" ->
  readAsStringAsync pf audioUri = Ok audioBase64 ->
  (k < 3)%nat ->
  (forall i, (i < k)%nat ->
     exists e,
       (transcribeAttempt pf (Z.of_nat i) audioBase64
          (sent ++ replicate i audioBase64)).2 = Throw e
       /\ is_final e = false) ->
  fetch pf (length sent + k) audioBase64 = Response true status (Ok data) ->
  reading data = Alternative text conf ->
  let res := {| transcript := Gemini.or_string text "";
                confidence := or_else conf 0 |} in
  transcribe pf audioUri sent = (sent ++ replicate (S k) audioBase64, Ok res)
  /\ (transcript res = "" <-> truthy_string text = false)
  /\ PrimFloat.is_nan (confidence res) = false.
Proof.
  intros Hu Hr Hk Hfail Hf Hrd res. split; [|split].
  - rewrite transcribe_unfold. apply String.eqb_neq in Hu. rewrite Hu, Hr.
    rewrite (sttLoop_recovers pf audioBase64 res k 3 0 None sent Hk Hfail);
      [reflexivity|].
    unfold transcribeAttempt, bind, call_fetch, settle, ret.
    rewrite length_app, length_replicate, Hf. cbn [negb snd]. rewrite Hrd. reflexivity.
  - subst res. cbn [transcript]. unfold Gemini.or_string.
    destruct text as [t|]; cbn; [|tauto].
    destruct (String.eqb t "") eqn:E; cbn; [tauto|].
    apply String.eqb_neq in E. split; [contradiction|discriminate].
  - subst res. cbn [confidence]. apply GeminiProps.or_else_number. reflexivity.
Qed.

Lemma transcribe_recovers_example :
  let pf :=
    {| readAsStringAsync := fun _ => Ok "AAAA";
       fetch := fun n _ =>
         if (n =? 0)%nat
         then Response false 503 (Throw (PlainError "Unexpected token"))
         else Response true 200
                (Ok {| error_message := None;
                       reading := Alternative None (JNum 0.92) |}) |} in
  transcribe pf "file:///rec.m4a" []
  = (["AAAA"; "AAAA"], Ok {| transcript := ""; confidence := 0.92 |}).
Proof.
  intros pf.
  destruct (transcribe_recovers pf "file:///rec.m4a" "AAAA" [] 1 200
              {| error_message := None; reading := Alternative None (JNum 0.92) |}
              None (JNum 0.92) ltac:(discriminate) eq_refl ltac:(lia)) as [H _].
  - intros i Hi. assert (i = 0%nat) as -> by lia. eexists. split; reflexivity.
  - reflexivity.
  - reflexivity.
  - exact H.
Defined.

End SttFacts.
